(** * Range analysis, plan alternatives and plan choice of the query planner

    A shallow embedding of the planner core: the range points and their
    sorter, the range builder with its union / intersection sweep, the
    index-range extension for multi-column indices, the enumeration of
    alternative plans, the support checker, the validator and the
    [Optimize] entry point.  Definitions follow the Go sources function by
    function and keep their names. *)

From Stdlib Require Import ZArith List Bool Lia Ascii String.
From Stdlib Require Import Permutation.
Import ListNotations.

Set Implicit Arguments.
Set Warnings "-register-all".

Open Scope Z_scope.

(** ** Values

    [interface{}] values that can sit in a range point or in an expression
    node: the untyped [nil] (SQL NULL), the two sentinels of package plan,
    and the concrete data the claims need (int64, string, and the Go bool
    the evaluator stores for IS NULL / IS TRUE / IN). *)

Inductive value : Type :=
| Nil
| MinNotNullVal
| MaxVal
| Int64 (i : Z)
| Str (s : string)
| Bool (b : bool).

Definition value_eq_dec (a b : value) : {a = b} + {a <> b}.
Proof.
  decide equality;
    [ apply Z.eq_dec | apply string_dec | apply bool_dec ].
Defined.

Definition isNil (v : value) : bool :=
  match v with Nil => true | _ => false end.

Definition isMinNotNull (v : value) : bool :=
  match v with MinNotNullVal => true | _ => false end.

Definition isMaxVal (v : value) : bool :=
  match v with MaxVal => true | _ => false end.

(** An error value; only its presence matters to the planner. *)
Inductive error : Type :=
| ErrCompare
| ErrOneColumn
| ErrRowColumns
| ErrSameColumns
| ErrMultiWildCard
| ErrBind (code : Z)
| ErrOther.

(** ** Range points (type rangePoint) *)

Record rangePoint : Type := mkPoint {
  pvalue : value;
  excl : bool;
  start : bool
}.

Definition rangePoint_eq_dec (a b : rangePoint) : {a = b} + {a <> b}.
Proof.
  decide equality; [ apply bool_dec | apply bool_dec | apply value_eq_dec ].
Defined.

(** Readable constructors for the four kinds of point. *)
Definition SIn (v : value) : rangePoint := mkPoint v false true.
Definition SEx (v : value) : rangePoint := mkPoint v true true.
Definition EIn (v : value) : rangePoint := mkPoint v false false.
Definition EEx (v : value) : rangePoint := mkPoint v true false.

(** rangePointSorter.equalValueLess *)
Definition equalValueLess (a b : rangePoint) : bool :=
  if start a && start b then negb (excl a) && excl b
  else if start a then negb (excl b)
  else if start b then excl a || excl b
  else excl a && negb (excl b).

(** ** Expressions (package ast, as far as the planner looks at them)

    Every expression node carries a value slot read by [GetValue]; for a
    [ValueExpr] the slot is the literal. *)

Module opcode.

Inductive Op : Type :=
| AndAnd | OrOr | LeftShift | RightShift
| GE | LE | EQ | NE | LT | GT | NullEQ
| Plus | Minus | And | Or | Mod | Xor | Div | Mul
| Not | BitNeg | IntDiv | LogicXor.

Definition Op_eq_dec (a b : Op) : {a = b} + {a <> b}.
Proof. decide equality. Defined.

End opcode.

Inductive ExprNode : Type :=
| ValueExpr (v : value)
| ColumnNameExpr (Name : string)
| BinaryOperationExpr (op : opcode.Op) (L R : ExprNode)
| PatternInExpr (Expr : ExprNode) (List : list ExprNode) (Not : bool)
| ParenthesesExpr (Expr : ExprNode)
| BetweenExpr (Expr Left Right : ExprNode) (Not : bool)
| IsNullExpr (Expr : ExprNode) (Not : bool)
| IsTruthExpr (Expr : ExprNode) (Not : bool) (True : Z)
| PatternLikeExpr (Expr Pattern : ExprNode) (Not : bool)
| RowExpr (Values : list ExprNode)
| UnaryOperationExpr (op : opcode.Op) (V : ExprNode)
| FuncCallExpr (FnName : string) (Args : list ExprNode)
| SubqueryExpr (ResultFields : nat)
| AggregateFuncExpr (F : string) (Args : list ExprNode)
| ParamMarkerExpr.

(** What a Go function does: it returns, or it panics. *)
Inductive outcome (A : Type) : Type :=
| Done (a : A)
| Panic (msg : string).

Arguments Done {A} a.
Arguments Panic {A} msg.

Definition bind {A B : Type} (m : outcome A) (k : A -> outcome B)
  : outcome B :=
  match m with
  | Done a => k a
  | Panic msg => Panic msg
  end.

Notation "x <- m ;; k" := (bind m (fun x => k))
  (at level 61, m at next level, right associativity).
Notation "' pat <- m ;; k" := (bind m (fun x => match x with pat => k end))
  (at level 61, pat pattern, m at next level, right associativity).

(** ** Bytes of a LIKE pattern *)

Definition backslash : ascii := ascii_of_nat 92.
Definition percent : ascii := ascii_of_nat 37.
Definition dot : ascii := ascii_of_nat 46.
Definition underscore : ascii := ascii_of_nat 95.

(** The unescape loop of buildFromPatternLike: the literal prefix
    [lowValue] and the [exclude] flag. *)
Fixpoint likePrefix (pattern : list ascii) : list ascii * bool :=
  match pattern with
  | [] => ([], false)
  | c :: rest =>
      if Ascii.eqb c backslash then
        match rest with
        | c' :: rest' =>
            let '(low, ex) := likePrefix rest' in (c' :: low, ex)
        | [] => ([backslash], false)
        end
      else if Ascii.eqb c percent then ([], false)
      else if Ascii.eqb c dot then ([], true)
      else let '(low, ex) := likePrefix rest in (c :: low, ex)
  end.

(** highValue[i]++ on a byte. *)
Definition incByte (c : ascii) : ascii :=
  ascii_of_N ((N_of_ascii c + 1) mod 256).

Definition isZeroByte (c : ascii) : bool := (N_of_ascii c =? 0)%N.

(** The carry loop of buildFromPatternLike, on the bytes in reverse order
    (the head is highValue[len-1]).  [None]: the loop reached index 0 with
    a carry, the end point is MaxVal. *)
Fixpoint incBytesRev (rv : list ascii) : option (list ascii) :=
  match rv with
  | [] => Some []
  | c :: rest =>
      let c' := incByte c in
      if negb (isZeroByte c') then Some (c' :: rest)
      else match rest with
           | [] => None
           | _ :: _ =>
               match incBytesRev rest with
               | Some rest' => Some (c' :: rest')
               | None => None
               end
           end
  end.

Definition highValueOf (lowValue : list ascii) : value :=
  match lowValue with
  | [] => Nil
  | _ :: _ =>
      match incBytesRev (rev lowValue) with
      | Some rv => Str (string_of_list_ascii (rev rv))
      | None => MaxVal
      end
  end.

Section WithCompare.

(** [types.Compare] lives outside the planner: it is taken as a
    parameter.  [None] is the comparison error, [Some c] the sign of the
    comparison. *)
Variable Compare : value -> value -> option comparison.

(** The value slot of a node that is not a literal holds what earlier
    passes stored there; the planner only reads it. *)
Variable slotOf : ExprNode -> value.

Definition GetValue (e : ExprNode) : value :=
  match e with
  | ValueExpr v => v
  | _ => slotOf e
  end.

(** rangePointSorter.Less on two points.  The second component is the
    error the call stores in the sorter ([None]: the field is left as it
    was). *)
Definition Less (a b : rangePoint) : bool * option error :=
  if isNil (pvalue a) && isNil (pvalue b) then (equalValueLess a b, None)
  else if isNil (pvalue b) then (false, None)
  else if isNil (pvalue a) then (true, None)
  else if isMinNotNull (pvalue a) && isMinNotNull (pvalue b)
       then (equalValueLess a b, None)
  else if isMinNotNull (pvalue b) then (false, None)
  else if isMinNotNull (pvalue a) then (true, None)
  else if isMaxVal (pvalue a) && isMaxVal (pvalue b)
       then (equalValueLess a b, None)
  else if isMaxVal (pvalue a) then (false, None)
  else if isMaxVal (pvalue b) then (true, None)
  else match Compare (pvalue a) (pvalue b) with
       | None => (true, Some ErrCompare)
       | Some Eq => (equalValueLess a b, None)
       | Some Lt => (true, None)
       | Some Gt => (false, None)
       end.

Definition less (a b : rangePoint) : bool := fst (Less a b).

Definition setErr (old : option error) (new : option error) : option error :=
  match new with Some e => Some e | None => old end.

(** [sort.Sort] belongs to Go's library.  On the short slices of a range
    builder it runs its insertion sort, a stable sort as the design notes
    require:
<<
    for i := a + 1; i < b; i++ {
      for j := i; j > a && data.Less(j, j-1); j-- { data.Swap(j, j-1) }
    }
>>
    [insertPoint x rp] is the inner loop: [rp] is the sorted prefix in
    reverse (its head is element j-1), [x] the element that sinks. *)
Fixpoint insertPoint (x : rangePoint) (rp : list rangePoint)
         (err : option error) : list rangePoint * option error :=
  match rp with
  | [] => ([x], err)
  | y :: rest =>
      let '(b, e) := Less x y in
      if b then
        let '(rest', err') := insertPoint x rest (setErr err e) in
        (y :: rest', err')
      else (x :: rp, setErr err e)
  end.

Fixpoint sortLoop (todo : list rangePoint) (rp : list rangePoint)
         (err : option error) : list rangePoint * option error :=
  match todo with
  | [] => (rev rp, err)
  | x :: todo' =>
      let '(rp', err') := insertPoint x rp err in
      sortLoop todo' rp' err'
  end.

(** sort.Sort(&rangePointSorter{points: pts}): the sorted points and the
    sorter's [err] field. *)
Definition sortPoints (pts : list rangePoint)
  : list rangePoint * option error :=
  sortLoop pts [] None.

(** The sweep of rangeBuilder.merge over the sorted points. *)
Fixpoint sweep (requiredInRangeCount inRangeCount : Z)
         (pts : list rangePoint) : list rangePoint :=
  match pts with
  | [] => []
  | val :: rest =>
      if start val then
        let c := inRangeCount + 1 in
        if c =? requiredInRangeCount
        then val :: sweep requiredInRangeCount c rest
        else sweep requiredInRangeCount c rest
      else
        if inRangeCount =? requiredInRangeCount
        then val :: sweep requiredInRangeCount (inRangeCount - 1) rest
        else sweep requiredInRangeCount (inRangeCount - 1) rest
  end.

(** The range builder's only field. *)
Record rangeBuilder : Type := mkBuilder { rerr : option error }.

(** rangeBuilder.merge *)
Definition merge (r : rangeBuilder) (a b : list rangePoint) (union : bool)
  : list rangePoint * rangeBuilder :=
  let '(pts, serr) := sortPoints (a ++ b) in
  match serr with
  | Some e => ([], mkBuilder (Some e))
  | None =>
      let required := if union then 1 else 2 in
      (sweep required 0 pts, r)
  end.

Definition intersection (r : rangeBuilder) (a b : list rangePoint) :=
  merge r a b false.

Definition union (r : rangeBuilder) (a b : list rangePoint) :=
  merge r a b true.

(** *** The range builder *)

Definition isValueExpr (e : ExprNode) : bool :=
  match e with ValueExpr _ => true | _ => false end.

(** The package variable [fullRange] is declared in a file that is not
    part of the sources at hand.
    Modelled from the spec: unknown or unsupported expressions return the
    universal range [[MinNotNull, MaxVal]]. *)
Definition fullRange : list rangePoint :=
  [SIn MinNotNullVal; EIn MaxVal].

(** The comparison part of rangeBuilder.buildFromBinop, after the operand
    has been chosen. *)
Definition flipOp (op : opcode.Op) : opcode.Op :=
  match op with
  | opcode.GE => opcode.LE
  | opcode.GT => opcode.LT
  | opcode.LT => opcode.GT
  | opcode.LE => opcode.GE
  | _ => op
  end.

Definition pointsOfCompare (op : opcode.Op) (v : value) : list rangePoint :=
  match op with
  | opcode.EQ => [SIn v; EIn v]
  | opcode.NE => [SIn MinNotNullVal; EEx v; SEx v; EIn MaxVal]
  | opcode.LT => [SIn MinNotNullVal; EEx v]
  | opcode.LE => [SIn MinNotNullVal; EIn v]
  | opcode.GT => [SEx v; EIn MaxVal]
  | opcode.GE => [SIn v; EIn MaxVal]
  | _ => []
  end.

(** rangeBuilder.buildFromIn, after the panic test. *)
Definition buildFromIn (r : rangeBuilder) (List : list ExprNode)
  : list rangePoint * rangeBuilder :=
  let rangePoints :=
    flat_map (fun v => [SIn (GetValue v); EIn (GetValue v)]) List in
  let '(pts, serr) := sortPoints rangePoints in
  match serr with
  | Some e => (pts, mkBuilder (Some e))
  | None => (pts, r)
  end.

(** rangeBuilder.buildFromBetween *)
Definition buildFromBetween (Left Right : ExprNode) (Not : bool)
  : list rangePoint :=
  if Not then
    [SIn MinNotNullVal; EEx (GetValue Left);
     SEx (GetValue Right); EIn MaxVal]
  else [SIn (GetValue Left); EIn (GetValue Right)].

(** rangeBuilder.buildFromIsNull *)
Definition buildFromIsNull (Not : bool) : list rangePoint :=
  if Not then [SIn MinNotNullVal; EIn MaxVal]
  else [SIn Nil; EIn Nil].

(** rangeBuilder.buildFromIsTruth *)
Definition buildFromIsTruth (Not : bool) (True : Z) : list rangePoint :=
  if negb (True =? 0) then
    if Not then [SIn Nil; EIn Nil; SIn (Int64 0); EIn (Int64 0)]
    else [SIn MinNotNullVal; EEx (Int64 0); SEx (Int64 0); EIn MaxVal]
  else
    if Not then [SIn Nil; EEx (Int64 0); SEx (Int64 0); EIn MaxVal]
    else [SIn (Int64 0); EIn (Int64 0)].

(** rangeBuilder.buildFromPatternLike, after the panic test; the type
    assertion on the pattern panics when the pattern is not a string. *)
Definition buildFromPatternLike (Pattern : ExprNode)
  : outcome (list rangePoint) :=
  match GetValue Pattern with
  | Str pattern =>
      let '(lowValue, exclude) :=
        likePrefix (list_ascii_of_string pattern) in
      match lowValue with
      | [] => Done [SIn MinNotNullVal; EIn MaxVal]
      | _ :: _ =>
          Done [mkPoint (Str (string_of_list_ascii lowValue)) exclude true;
                EEx (highValueOf lowValue)]
      end
  | _ => Panic "interface conversion"
  end.

(** rangeBuilder.buildFromColumnName *)
Definition buildFromColumnName : list rangePoint :=
  [SIn MinNotNullVal; EEx (Int64 0); SEx (Int64 0); EIn MaxVal].

(** rangeBuilder.build together with rangeBuilder.buildFromBinop (they
    are mutually recursive in the source). *)
Fixpoint build (r : rangeBuilder) (expr : ExprNode)
  : outcome (list rangePoint * rangeBuilder) :=
  match expr with
  | BinaryOperationExpr op L R =>
      match op with
      | opcode.OrOr =>
          '(a, r1) <- build r L ;;
          '(b, r2) <- build r1 R ;;
          Done (union r2 a b)
      | opcode.AndAnd =>
          '(a, r1) <- build r L ;;
          '(b, r2) <- build r1 R ;;
          Done (intersection r2 a b)
      | _ =>
          if isValueExpr L
          then Done (pointsOfCompare (flipOp op) (GetValue L), r)
          else Done (pointsOfCompare op (GetValue R), r)
      end
  | PatternInExpr _ List Not =>
      if Not then Panic "Should not happen"
      else Done (buildFromIn r List)
  | ParenthesesExpr e => build r e
  | BetweenExpr _ Left Right Not =>
      Done (buildFromBetween Left Right Not, r)
  | IsNullExpr _ Not => Done (buildFromIsNull Not, r)
  | IsTruthExpr _ Not True => Done (buildFromIsTruth Not True, r)
  | PatternLikeExpr _ Pattern Not =>
      if Not then Panic "Should not happen"
      else pts <- buildFromPatternLike Pattern ;; Done (pts, r)
  | ColumnNameExpr _ => Done (buildFromColumnName, r)
  | _ => Done (fullRange, r)
  end.

End WithCompare.

(** ** Index ranges (type IndexRange) *)

Record IndexRange : Type := mkIndexRange {
  LowVal : list value;
  LowExclude : bool;
  HighVal : list value;
  HighExclude : bool
}.

(** rangeBuilder.buildIndexRanges; reading rangePoints[i+1] past the end
    of an odd-length slice panics. *)
Fixpoint buildIndexRanges (rangePoints : list rangePoint)
  : outcome (list IndexRange) :=
  match rangePoints with
  | [] => Done []
  | [_] => Panic "index out of range"
  | startPoint :: endPoint :: rest =>
      indexRanges <- buildIndexRanges rest ;;
      Done (mkIndexRange [pvalue startPoint] (excl startPoint)
                         [pvalue endPoint] (excl endPoint) :: indexRanges)
  end.

(** rangeBuilder.appendIndexRange *)
Fixpoint appendIndexRange (origin : IndexRange)
         (rangePoints : list rangePoint) : outcome (list IndexRange) :=
  match rangePoints with
  | [] => Done []
  | [_] => Panic "index out of range"
  | startPoint :: endPoint :: rest =>
      newRanges <- appendIndexRange origin rest ;;
      Done (mkIndexRange (LowVal origin ++ [pvalue startPoint])
                         (excl startPoint)
                         (HighVal origin ++ [pvalue endPoint])
                         (excl endPoint) :: newRanges)
  end.

Section WithIsPoint.

(** IndexRange.IsPoint is declared next to the type, outside the sources
    at hand; appendIndexRanges only calls it. *)
Variable IsPoint : IndexRange -> bool.

(** rangeBuilder.appendIndexRanges *)
Fixpoint appendIndexRanges (origin : list IndexRange)
         (rangePoints : list rangePoint) : outcome (list IndexRange) :=
  match origin with
  | [] => Done []
  | oRange :: rest =>
      if negb (IsPoint oRange) then
        newIndexRanges <- appendIndexRanges rest rangePoints ;;
        Done (oRange :: newIndexRanges)
      else
        extended <- appendIndexRange oRange rangePoints ;;
        newIndexRanges <- appendIndexRanges rest rangePoints ;;
        Done (extended ++ newIndexRanges)
  end.

End WithIsPoint.

(** Modelled from the spec: IndexRange.IsPoint, which is not in the
    sources.  A range is a point iff LowVal equals HighVal componentwise
    and neither bound is exclusive. *)
Definition IsPoint (ir : IndexRange) : bool :=
  (if list_eq_dec value_eq_dec (LowVal ir) (HighVal ir) then true else false)
  && negb (LowExclude ir) && negb (HighExclude ir).

(** The point pairs of an even-length range-point list. *)
Fixpoint pointPairs (pts : list rangePoint)
  : list (rangePoint * rangePoint) :=
  match pts with
  | s :: e :: rest => (s, e) :: pointPairs rest
  | _ => []
  end.

(** The range a point range is extended to by one point pair. *)
Definition extendRange (o : IndexRange) (se : rangePoint * rangePoint)
  : IndexRange :=
  mkIndexRange (LowVal o ++ [pvalue (fst se)]) (excl (fst se))
               (HighVal o ++ [pvalue (snd se)]) (excl (snd se)).

(** ** Plans (package plan) *)

Record IndexInfo : Type := mkIndexInfo {
  IdxName : string;
  IdxColumns : list string
}.

Record TableInfo : Type := mkTableInfo {
  TblName : string;
  Indices : list IndexInfo
}.

(** The plan nodes.  [NilPlan] is the nil [Plan] interface value (the
    source of a SelectFields with no FROM clause).  [TableScan] and
    [IndexScan] are the leaves, every other node is a [WithSrcPlan]. *)
Inductive Plan : Type :=
| NilPlan
| TableScan (Table : TableInfo) (fields : list string)
| IndexScan (Index : IndexInfo) (Table : TableInfo)
            (Ranges : list IndexRange) (fields : list string)
| Filter (src : Plan) (Conditions : list ExprNode)
| SelectLock (src : Plan) (Lock : Z)
| SelectFields (src : Plan) (fields : list string)
| Sort (src : Plan) (ByItems : list ExprNode)
| Limit (src : Plan) (Offset Count : Z).

(** WithSrcPlan.Src *)
Definition Src (p : Plan) : Plan :=
  match p with
  | Filter s _ | SelectLock s _ | SelectFields s _ | Sort s _
  | Limit s _ _ => s
  | _ => NilPlan
  end.

(** shallowCopy followed by SetSrc: the node's own fields, a new source. *)
Definition SetSrc (p : Plan) (s : Plan) : Plan :=
  match p with
  | Filter _ c => Filter s c
  | SelectLock _ l => SelectLock s l
  | SelectFields _ f => SelectFields s f
  | Sort _ b => Sort s b
  | Limit _ o c => Limit s o c
  | _ => p
  end.

(** Plan.Fields *)
Definition Fields (p : Plan) : list string :=
  match p with
  | TableScan _ f | IndexScan _ _ _ f | SelectFields _ f => f
  | _ => []
  end.

(** tableScanAlternatives *)
Definition tableScanAlternatives (Table : TableInfo) (fields : list string)
  : list Plan :=
  map (fun v => IndexScan v Table [mkIndexRange [Nil] false [MaxVal] false]
                          fields)
      (Indices Table).

Section WithRefine.

(** [refine] of package plan rewrites a plan in place; it is declared in
    a file outside the sources at hand.  The parameter gives the plan
    the pointer refers to afterwards. *)
Variable refine : Plan -> Plan.

(** Alternatives with planWithSrcAlternatives; log.Fatalf ends the
    process. *)
Fixpoint Alternatives (p : Plan) : outcome (list Plan) :=
  match p with
  | NilPlan => Done []
  | TableScan Table fields =>
      Done (map refine (tableScanAlternatives Table fields))
  | IndexScan _ _ _ _ => Panic "unknown plan"
  | Filter s _ | SelectLock s _ | SelectFields s _ | Sort s _
  | Limit s _ _ =>
      srcs <- Alternatives s ;;
      Done (map refine (map (SetSrc p) srcs))
  end.

End WithRefine.

(** ** Statements (package ast) *)

Record TableName : Type := mkTableName {
  Schema : string;
  Name : string
}.

(** What a TableSource wraps: a table name, or a derived table (a SELECT
    or UNION, whose content is not modelled). *)
Inductive SourceNode : Type :=
| SrcTableName (tn : TableName)
| SrcSelect.

(** Join and the nodes that can be its operands. *)
Inductive ResultSetNode : Type :=
| TableSource (Source : SourceNode)
| JoinNode (Left : ResultSetNode) (Right : option ResultSetNode)
           (On : option ExprNode).

Record SelectField : Type := mkSelectField {
  WildCard : option string;
  FieldExpr : option ExprNode
}.

(** The Join a FROM clause holds (TableRefsClause.TableRefs). *)
Record Join : Type := mkJoin {
  JoinLeft : ResultSetNode;
  JoinRight : option ResultSetNode;
  JoinOn : option ExprNode
}.

Definition joinNode (j : Join) : ResultSetNode :=
  JoinNode (JoinLeft j) (JoinRight j) (JoinOn j).

Record SelectStmt : Type := mkSelectStmt {
  Distinct : bool;
  From : option Join;
  Where : option ExprNode;
  FieldList : list SelectField;
  GroupBy : option (list ExprNode);
  Having : option ExprNode;
  OrderBy : option (list ExprNode);
  LimitOf : option (Z * Z);
  ForUpdate : bool
}.

(** A statement as the planner receives it. *)
Inductive StmtNode : Type :=
| SelectStmtNode (s : SelectStmt)
| InsertStmtNode
| UpdateStmtNode
| DeleteStmtNode.

(** The dynamic type and content of the node a visitor is handed. *)
Inductive Node : Type :=
| NodeExpr (e : ExprNode)
| NodeSelectStmt (s : SelectStmt)
| NodeTableRefsClause (j : Join)
| NodeJoin (Left : ResultSetNode) (Right : option ResultSetNode)
| NodeTableSource (Source : SourceNode)
| NodeTableName (tn : TableName)
| NodeFieldList (fl : list SelectField)
| NodeSelectField (f : SelectField)
| NodeGroupByClause
| NodeHavingClause
| NodeOrderByClause
| NodeByItem (e : ExprNode)
| NodeLimit
| NodeDerivedTable
| NodeOtherStmt.

(** *** The visitor protocol

    Package ast is not part of the sources at hand.
    Modelled from the spec: a visitor over the tagged-variant AST; Accept
    calls Enter, then (unless Enter asks to skip them) accepts the
    children in field order, giving up at the first child that reports
    not-ok, then calls Leave and returns its verdict.  The visitor's state
    is threaded through. *)

Record Visitor (S : Type) : Type := mkVisitor {
  Enter : S -> Node -> S * bool;
  Leave : S -> Node -> S * bool
}.

Section Accept.

Variable S : Type.
Variable v : Visitor S.

(** Accept on each element of a slice of children. *)
Definition acceptAll {A : Type} (accept : A -> S -> S * bool)
  : list A -> S -> S * bool :=
  fix go (l : list A) (st : S) : S * bool :=
    match l with
    | [] => (st, true)
    | x :: l' =>
        let '(st', ok) := accept x st in
        if ok then go l' st' else (st', false)
    end.

Definition acceptOpt {A : Type} (accept : A -> S -> S * bool)
           (o : option A) (st : S) : S * bool :=
  match o with
  | None => (st, true)
  | Some x => accept x st
  end.

(** Enter, children, Leave. *)
Definition visitNode (n : Node) (children : S -> S * bool) (st : S)
  : S * bool :=
  let '(st1, skipChildren) := Enter v st n in
  if skipChildren then Leave v st1 n
  else
    let '(st2, ok) := children st1 in
    if ok then Leave v st2 n else (st2, false).

(** One child after another. *)
Definition andThen (f g : S -> S * bool) (st : S) : S * bool :=
  let '(st', ok) := f st in
  if ok then g st' else (st', false).

Definition noChildren (st : S) : S * bool := (st, true).

(** ExprNode.Accept *)
Fixpoint acceptExpr (e : ExprNode) (st : S) {struct e} : S * bool :=
  visitNode (NodeExpr e)
    match e with
    | ValueExpr _ | ColumnNameExpr _ | SubqueryExpr _
    | ParamMarkerExpr => noChildren
    | BinaryOperationExpr _ L R => andThen (acceptExpr L) (acceptExpr R)
    | PatternInExpr x l _ =>
        andThen (acceptExpr x) (acceptAll acceptExpr l)
    | ParenthesesExpr x | IsNullExpr x _ | IsTruthExpr x _ _
    | UnaryOperationExpr _ x => acceptExpr x
    | BetweenExpr x lo hi _ =>
        andThen (acceptExpr x) (andThen (acceptExpr lo) (acceptExpr hi))
    | PatternLikeExpr x pat _ => andThen (acceptExpr x) (acceptExpr pat)
    | RowExpr l | FuncCallExpr _ l | AggregateFuncExpr _ l =>
        acceptAll acceptExpr l
    end st.

Definition acceptByItem (e : ExprNode) : S -> S * bool :=
  visitNode (NodeByItem e) (acceptExpr e).

Definition acceptSource (src : SourceNode) : S -> S * bool :=
  match src with
  | SrcTableName tn => visitNode (NodeTableName tn) noChildren
  | SrcSelect => visitNode NodeDerivedTable noChildren
  end.

(** Join.Accept and TableSource.Accept *)
Fixpoint acceptResultSet (n : ResultSetNode) : S -> S * bool :=
  match n with
  | TableSource src => visitNode (NodeTableSource src) (acceptSource src)
  | JoinNode l r on =>
      visitNode (NodeJoin l r)
        (andThen (acceptResultSet l)
           (andThen (acceptOpt acceptResultSet r)
                    (acceptOpt acceptExpr on)))
  end.

Definition acceptSelectField (f : SelectField) : S -> S * bool :=
  visitNode (NodeSelectField f) (acceptOpt acceptExpr (FieldExpr f)).

(** SelectStmt.Accept *)
Definition acceptSelect (s : SelectStmt) : S -> S * bool :=
  visitNode (NodeSelectStmt s)
    (andThen
       (acceptOpt
          (fun j => visitNode (NodeTableRefsClause j)
                              (acceptResultSet (joinNode j)))
          (From s))
    (andThen (acceptOpt acceptExpr (Where s))
    (andThen
       (visitNode (NodeFieldList (FieldList s))
                  (acceptAll acceptSelectField (FieldList s)))
    (andThen
       (acceptOpt
          (fun items =>
             visitNode NodeGroupByClause (acceptAll acceptByItem items))
          (GroupBy s))
    (andThen
       (acceptOpt (fun e => visitNode NodeHavingClause (acceptExpr e))
                  (Having s))
    (andThen
       (acceptOpt
          (fun items =>
             visitNode NodeOrderByClause (acceptAll acceptByItem items))
          (OrderBy s))
       (acceptOpt (fun _ => visitNode NodeLimit noChildren)
                  (LimitOf s)))))))).

(** Node.Accept on a statement. *)
Definition acceptStmt (n : StmtNode) : S -> S * bool :=
  match n with
  | SelectStmtNode s => acceptSelect s
  | _ => visitNode NodeOtherStmt noChildren
  end.

End Accept.

(** ** The support checker (package optimizer) *)

(** strings.EqualFold, on ASCII strings. *)
Definition toLowerByte (c : ascii) : ascii :=
  let n := N_of_ascii c in
  if ((65 <=? n) && (n <=? 90))%N then ascii_of_N (n + 32) else c.

Fixpoint EqualFold (a b : string) : bool :=
  match a, b with
  | EmptyString, EmptyString => true
  | String x a', String y b' =>
      Ascii.eqb (toLowerByte x) (toLowerByte y) && EqualFold a' b'
  | _, _ => false
  end.

(** infoschema.Name *)
Definition infoschema_Name : string := "INFORMATION_SCHEMA".

Record supportChecker : Type := mkSupportChecker { unsupported : bool }.

(** supportChecker.Enter *)
Definition supportChecker_Enter (c : supportChecker) (n : Node)
  : supportChecker * bool :=
  let u :=
    match n with
    | NodeExpr (SubqueryExpr _) | NodeExpr (AggregateFuncExpr _ _)
    | NodeGroupByClause | NodeHavingClause
    | NodeExpr ParamMarkerExpr => true
    | NodeJoin Left Right =>
        match Right with
        | Some _ => true
        | None =>
            match Left with
            | TableSource (SrcTableName tn) =>
                if EqualFold (Schema tn) infoschema_Name then true
                else unsupported c
            | _ => true
            end
        end
    | NodeSelectStmt x => if Distinct x then true else unsupported c
    | _ => unsupported c
    end in
  (mkSupportChecker u, u).

(** supportChecker.Leave *)
Definition supportChecker_Leave (c : supportChecker) (n : Node)
  : supportChecker * bool :=
  (c, negb (unsupported c)).

Definition supportVisitor : Visitor supportChecker :=
  mkVisitor supportChecker_Enter supportChecker_Leave.

(** Supported *)
Definition Supported (node : StmtNode) : bool :=
  match node with
  | SelectStmtNode _ =>
      let checker := mkSupportChecker false in
      negb (unsupported (fst (acceptStmt supportVisitor node checker)))
  | _ => false
  end.

(** ** The validator (package optimizer) *)

Record validator : Type := mkValidator {
  verr : option error;
  wildCardCount : Z
}.

Definition withErr (v : validator) (e : error) : validator :=
  mkValidator (Some e) (wildCardCount v).

(** validator.checkAllOneColumn *)
Fixpoint checkAllOneColumn (v : validator) (exprs : list ExprNode)
  : validator :=
  match exprs with
  | [] => v
  | expr :: rest =>
      let v' :=
        match expr with
        | RowExpr _ => withErr v ErrOneColumn
        | SubqueryExpr n =>
            if negb (Nat.eqb n 1) then withErr v ErrOneColumn else v
        | _ => v
        end in
      checkAllOneColumn v' rest
  end.

(** columnCount *)
Definition columnCount (ex : ExprNode) : nat :=
  match ex with
  | RowExpr Values => List.length Values
  | SubqueryExpr n => n
  | _ => 1%nat
  end.

(** validator.checkSameColumns *)
Definition checkSameColumns (v : validator) (exprs : list ExprNode)
  : validator :=
  match exprs with
  | [] => v
  | first :: rest =>
      let count := columnCount first in
      if forallb (fun e => Nat.eqb (columnCount e) count) rest then v
      else withErr v ErrSameColumns
  end.

(** validator.checkBinaryOperation *)
Definition checkBinaryOperation (v : validator) (op : opcode.Op)
           (L R : ExprNode) : validator :=
  match op with
  | opcode.LT | opcode.LE | opcode.GE | opcode.GT | opcode.EQ | opcode.NE
  | opcode.NullEQ => checkSameColumns v [L; R]
  | _ => checkAllOneColumn v [L; R]
  end.

Definition isSome {A : Type} (o : option A) : bool :=
  match o with Some _ => true | None => false end.

(** validator.checkFieldList; [hasWildCard] is the loop's local. *)
Fixpoint checkFieldListFrom (v : validator) (hasWildCard : bool)
         (fields : list SelectField) : validator :=
  match fields with
  | [] => v
  | val :: rest =>
      let unqualified :=
        match WildCard val with
        | Some table => String.eqb table EmptyString
        | None => false
        end in
      if unqualified && hasWildCard then withErr v ErrMultiWildCard
      else
        let v' :=
          match FieldExpr val with
          | Some e => checkAllOneColumn v [e]
          | None => v
          end in
        if isSome (verr v') then v'
        else checkFieldListFrom v' (hasWildCard || unqualified) rest
  end.

Definition checkFieldList (v : validator) (fields : list SelectField)
  : validator :=
  checkFieldListFrom v false fields.

(** validator.Enter *)
Definition validator_Enter (v : validator) (n : Node) : validator * bool :=
  (v, false).

(** validator.Leave *)
Definition validator_Leave (v : validator) (n : Node) : validator * bool :=
  let v' :=
    match n with
    | NodeExpr (IsNullExpr x _) => checkAllOneColumn v [x]
    | NodeExpr (IsTruthExpr x _ _) => checkAllOneColumn v [x]
    | NodeExpr (BetweenExpr x lo hi _) => checkAllOneColumn v [x; lo; hi]
    | NodeExpr (RowExpr Values) =>
        if (List.length Values <? 2)%nat then withErr v ErrRowColumns else v
    | NodeExpr (BinaryOperationExpr op L R) => checkBinaryOperation v op L R
    | NodeExpr (PatternInExpr x l _) => checkSameColumns v (l ++ [x])
    | NodeFieldList fl => checkFieldList v fl
    | NodeByItem x => checkAllOneColumn v [x]
    | _ => v
    end in
  (v', negb (isSome (verr v'))).

Definition validatorVisitor : Visitor validator :=
  mkVisitor validator_Enter validator_Leave.

(** validate *)
Definition validate (node : StmtNode) : option error :=
  verr (fst (acceptStmt validatorVisitor node (mkValidator None 0))).

(** ** Optimize (package optimizer) *)

Section WithPasses.

(** The passes Optimize calls after validation, the plan builder, the
    enumeration of alternatives, the refiner and the cost estimate are
    declared in files outside the sources at hand.  A pass that rewrites
    the statement in place gives the statement it leaves behind. *)
Variables InfoSchema Context cost : Type.
Variable bindInfo : StmtNode -> InfoSchema -> Context
                    -> StmtNode * option error.
Variable computeType : StmtNode -> StmtNode * option error.
Variable rewriteStatic : Context -> StmtNode -> StmtNode * option error.
Variable buildPlan : StmtNode -> Plan.
Variable alternatives : Plan -> list Plan.
Variable refine : Context -> Plan -> Plan.
Variable EstimateCost : Plan -> cost.
(** [cost < bestCost] *)
Variable costLt : cost -> cost -> bool.

(** One round of the loop over the alternatives. *)
Definition pickBest (ctx : Context) (best : cost * Plan) (alt : Plan)
  : cost * Plan :=
  let alt' := refine ctx alt in
  let c := EstimateCost alt' in
  if costLt c (fst best) then (c, alt') else best.

(** Optimize; a nil plan is [NilPlan], a nil error is [None]. *)
Definition Optimize (infos : InfoSchema) (ctx : Context) (node : StmtNode)
  : Plan * option error :=
  match validate node with
  | Some err => (NilPlan, Some err)
  | None =>
      let '(node1, e1) := bindInfo node infos ctx in
      match e1 with
      | Some err => (NilPlan, Some err)
      | None =>
          let '(node2, e2) := computeType node1 in
          match e2 with
          | Some err => (NilPlan, Some err)
          | None =>
              let '(node3, e3) := rewriteStatic ctx node2 in
              match e3 with
              | Some err => (NilPlan, Some err)
              | None =>
                  let p := buildPlan node3 in
                  let alts := alternatives p in
                  let p' := refine ctx p in
                  let best :=
                    fold_left (pickBest ctx) alts (EstimateCost p', p') in
                  (snd best, None)
              end
          end
      end
  end.

End WithPasses.

(** ** The evaluator (package evaluator) *)

Definition boolToInt64 (b : bool) : value := if b then Int64 1 else Int64 0.

Section WithEvaluator.

(** [types.Compare] and [types.ToBool] live outside the planner; [None]
    is their error. *)
Variable Compare : value -> value -> option comparison.
Variable ToBool : value -> option Z.

(** EvalBool, on the value Eval returned. *)
Definition EvalBool (val : value) : option bool :=
  if isNil val then Some false
  else match ToBool val with
       | Some i => Some (negb (i =? 0))
       | None => None
       end.

(** Evaluator.patternIn, on the values of its operands; the loop over
    the list carries [hasNull]. *)
Fixpoint patternInFrom (lhs : value) (Not : bool) (hasNull : bool)
         (vals : list value) : option value :=
  match vals with
  | [] => if hasNull then Some Nil else Some (Bool Not)
  | v :: rest =>
      if isNil v then patternInFrom lhs Not true rest
      else match Compare lhs v with
           | None => None
           | Some Eq => Some (Bool (negb Not))
           | Some _ => patternInFrom lhs Not hasNull rest
           end
  end.

Definition patternIn (lhs : value) (Not : bool) (vals : list value)
  : option value :=
  if isNil lhs then Some Nil else patternInFrom lhs Not false vals.

(** Evaluator.isNull *)
Definition isNull (val : value) (Not : bool) : value :=
  let boolVal := isNil val in
  Bool (if Not then negb boolVal else boolVal).

(** Evaluator.isTruth *)
Definition isTruth (val : value) (Not : bool) (True : Z) : option value :=
  let finish (boolVal : bool) :=
    Some (Bool (if Not then negb boolVal else boolVal)) in
  if negb (isNil val) then
    match ToBool val with
    | None => None
    | Some ival => finish (ival =? True)
    end
  else finish false.

(** The result of a comparison operator on the sign of the comparison. *)
Definition getCompResult (op : opcode.Op) (c : comparison) : bool :=
  match op, c with
  | opcode.EQ, Eq => true
  | opcode.NE, (Lt | Gt) => true
  | opcode.LT, Lt => true
  | opcode.LE, (Lt | Eq) => true
  | opcode.GT, Gt => true
  | opcode.GE, (Gt | Eq) => true
  | _, _ => false
  end.

Definition isFalse (v : value) : option bool :=
  if isNil v then Some false
  else match ToBool v with
       | Some x => Some (x =? 0)
       | None => None
       end.

Definition isTrue (v : value) : option bool :=
  if isNil v then Some false
  else match ToBool v with
       | Some x => Some (negb (x =? 0))
       | None => None
       end.

(** Evaluator.binaryOperation is declared in a file outside the sources
    at hand.
    Modelled from the spec: the comparison operators compare the two
    operand values with the domain comparator and give 1 or 0, NULL when
    an operand is NULL; AND gives 0 when an operand is false, else NULL
    when an operand is NULL, else 1; OR gives 1 when an operand is true,
    else NULL when an operand is NULL, else 0.  Other operators are not
    modelled ([None]). *)
Definition binaryOperation (op : opcode.Op) (l r : value) : option value :=
  match op with
  | opcode.EQ | opcode.NE | opcode.LT | opcode.LE | opcode.GT
  | opcode.GE =>
      if isNil l || isNil r then Some Nil
      else match Compare l r with
           | Some c => Some (boolToInt64 (getCompResult op c))
           | None => None
           end
  | opcode.AndAnd =>
      match isFalse l, isFalse r with
      | Some fl, Some fr =>
          if fl || fr then Some (Int64 0)
          else if isNil l || isNil r then Some Nil
          else Some (Int64 1)
      | _, _ => None
      end
  | opcode.OrOr =>
      match isTrue l, isTrue r with
      | Some tl, Some tr =>
          if tl || tr then Some (Int64 1)
          else if isNil l || isNil r then Some Nil
          else Some (Int64 0)
      | _, _ => None
      end
  | _ => None
  end.

(** Evaluator.between, on the values of its operands: it evaluates
    [v < lv || v > rv] or [v >= lv && v <= rv]. *)
Definition between (v lv rv : value) (Not : bool) : option value :=
  if Not then
    match binaryOperation opcode.LT v lv, binaryOperation opcode.GT v rv with
    | Some l, Some r => binaryOperation opcode.OrOr l r
    | _, _ => None
    end
  else
    match binaryOperation opcode.GE v lv, binaryOperation opcode.LE v rv with
    | Some l, Some r => binaryOperation opcode.AndAnd l r
    | _, _ => None
    end.

(** The values of a slice of operands, first to last; an error stops the
    walk. *)
Definition evalAll (eval : ExprNode -> option value)
  : list ExprNode -> option (list value) :=
  fix go (l : list ExprNode) : option (list value) :=
    match l with
    | [] => Some []
    | x :: l' =>
        match eval x, go l' with
        | Some v, Some vs => Some (v :: vs)
        | _, _ => None
        end
    end.

(** Eval: the value the evaluator leaves on [expr] when the column of
    the row at hand holds [col]; children are evaluated first, an error
    stops the walk.  Node types whose evaluation the range builder never
    meets are not modelled ([None]). *)
Fixpoint Eval (col : value) (expr : ExprNode) : option value :=
  match expr with
  | ValueExpr v => Some v
  | ColumnNameExpr _ => Some col
  | ParenthesesExpr x => Eval col x
  | BinaryOperationExpr op L R =>
      match Eval col L, Eval col R with
      | Some l, Some r => binaryOperation op l r
      | _, _ => None
      end
  | BetweenExpr x lo hi Not =>
      match Eval col x, Eval col lo, Eval col hi with
      | Some v, Some lv, Some rv => between v lv rv Not
      | _, _, _ => None
      end
  | PatternInExpr x l Not =>
      match Eval col x, evalAll (Eval col) l with
      | Some lhs, Some vals => patternIn lhs Not vals
      | _, _ => None
      end
  | IsNullExpr x Not =>
      match Eval col x with
      | Some v => Some (isNull v Not)
      | None => None
      end
  | IsTruthExpr x Not True =>
      match Eval col x with
      | Some v => isTruth v Not True
      | None => None
      end
  | _ => None
  end.

(** [e] evaluates to true on the column value [col]. *)
Definition evalTrue (col : value) (e : ExprNode) : Prop :=
  exists val, Eval col e = Some val /\ EvalBool val = Some true.

(** *** Membership of a column value in a range-point list *)

(** The order of the value domain: NULL, then MinNotNull, then the
    concrete values under the comparator, then MaxVal. *)
Definition vcmp (a b : value) : option comparison :=
  match a, b with
  | Nil, Nil => Some Eq
  | Nil, _ => Some Lt
  | _, Nil => Some Gt
  | MinNotNullVal, MinNotNullVal => Some Eq
  | MinNotNullVal, _ => Some Lt
  | _, MinNotNullVal => Some Gt
  | MaxVal, MaxVal => Some Eq
  | MaxVal, _ => Some Gt
  | _, MaxVal => Some Lt
  | _, _ => Compare a b
  end.

(** [v] is not below the lower bound [lo]. *)
Definition aboveLow (lo : rangePoint) (v : value) : bool :=
  match vcmp (pvalue lo) v with
  | Some Lt => true
  | Some Eq => negb (excl lo)
  | _ => false
  end.

(** [v] is not above the upper bound [hi]. *)
Definition belowHigh (hi : rangePoint) (v : value) : bool :=
  match vcmp v (pvalue hi) with
  | Some Lt => true
  | Some Eq => negb (excl hi)
  | _ => false
  end.

(** [v] lies in some interval of the range-point list: the intervals are
    the consecutive pairs, as buildIndexRanges reads them. *)
Definition covers (v : value) (pts : list rangePoint) : bool :=
  existsb (fun se => aboveLow (fst se) v && belowHigh (snd se) v)
          (pointPairs pts).

End WithEvaluator.

(** ** A concrete comparator

    [types.Compare] on the two kinds of data the tests use: int64 against
    int64 by numeric order, string against string byte by byte.  Any other
    pair is reported as not comparable. *)

Fixpoint compareBytes (a b : list ascii) : comparison :=
  match a, b with
  | [], [] => Eq
  | [], _ :: _ => Lt
  | _ :: _, [] => Gt
  | x :: a', y :: b' =>
      match N.compare (N_of_ascii x) (N_of_ascii y) with
      | Eq => compareBytes a' b'
      | c => c
      end
  end.

Definition CompareStd (a b : value) : option comparison :=
  match a, b with
  | Int64 x, Int64 y => Some (Z.compare x y)
  | Str x, Str y =>
      Some (compareBytes (list_ascii_of_string x) (list_ascii_of_string y))
  | _, _ => None
  end.

(** Nodes other than literals carry no value before evaluation. *)
Definition noSlot (e : ExprNode) : value := Nil.

Definition newBuilder : rangeBuilder := mkBuilder None.

(** [rb.build(expr)] on a fresh builder, keeping the points only. *)
Definition buildStd (e : ExprNode) : outcome (list rangePoint) :=
  r <- build CompareStd noSlot newBuilder e ;; Done (fst r).

(** [types.ToBool] on int64 and bool. *)
Definition ToBoolStd (v : value) : option Z :=
  match v with
  | Int64 i => Some (if i =? 0 then 0 else 1)
  | Bool b => Some (if b then 1 else 0)
  | _ => None
  end.

(** The column of the test suite and integer literals. *)
Definition colA : ExprNode := ColumnNameExpr "a".
Definition lit (i : Z) : ExprNode := ValueExpr (Int64 i).
Definition strLit (s : string) : ExprNode := ValueExpr (Str s).

(** *** Expression nodes the range builder has no rule for *)

(** The operators buildFromBinop has a case for. *)
Definition isRangeOp (op : opcode.Op) : bool :=
  match op with
  | opcode.AndAnd | opcode.OrOr | opcode.EQ | opcode.NE | opcode.LT
  | opcode.LE | opcode.GT | opcode.GE => true
  | _ => false
  end.

(** Node types that fall through the type switch of build. *)
Definition fallsThrough (e : ExprNode) : bool :=
  match e with
  | ValueExpr _ | RowExpr _ | UnaryOperationExpr _ _ | FuncCallExpr _ _
  | SubqueryExpr _ | AggregateFuncExpr _ _ | ParamMarkerExpr => true
  | _ => false
  end.

(** A binary operation whose operator buildFromBinop has no case for. *)
Definition isOtherBinop (e : ExprNode) : bool :=
  match e with
  | BinaryOperationExpr op _ _ => negb (isRangeOp op)
  | _ => false
  end.

(** *** Chains of plans *)

(** The leaf a chain of plans ends in. *)
Fixpoint leaf (p : Plan) : Plan :=
  match p with
  | Filter s _ | SelectLock s _ | SelectFields s _ | Sort s _
  | Limit s _ _ => leaf s
  | _ => p
  end.

(** The index and table of the leaf, when the leaf is an IndexScan. *)
Definition leafIndex (p : Plan) : option (IndexInfo * TableInfo) :=
  match leaf p with
  | IndexScan idx t _ _ => Some (idx, t)
  | _ => None
  end.

(** The range [nil, MaxVal] on the first index column. *)
Definition fullIndexRange : IndexRange :=
  mkIndexRange [Nil] false [MaxVal] false.

(** The alternative of the chain [p] that grows from [newLeaf]: the nodes
    of [p] are copied onto it from the leaf upwards, and the plan is
    refined at every level. *)
Fixpoint reparent (refine : Plan -> Plan) (p : Plan) (newLeaf : Plan)
  : Plan :=
  match p with
  | Filter s _ | SelectLock s _ | SelectFields s _ | Sort s _
  | Limit s _ _ => refine (SetSrc p (reparent refine s newLeaf))
  | _ => refine newLeaf
  end.

(** *** A catalog for binding *)

(** The part of the catalog snapshot binding needs. *)
Record Catalog : Type := mkCatalog {
  TableExists : string -> string -> bool
}.

(** [bindInfo] is declared outside the sources at hand.
    Modelled from the spec: binding errors (unknown schema, table, column
    or index) are surfaced with the MySQL-compatible code; an unknown
    table gives 1146 (NoSuchTable). *)
Definition bindInfoByCatalog (node : StmtNode) (infos : Catalog) (ctx : unit)
  : StmtNode * option error :=
  match node with
  | SelectStmtNode s =>
      match From s with
      | Some (mkJoin (TableSource (SrcTableName tn)) None _) =>
          if TableExists infos (Schema tn) (Name tn) then (node, None)
          else (node, Some (ErrBind 1146))
      | _ => (node, None)
      end
  | _ => (node, None)
  end.

(** [SELECT a FROM test.t WHERE <cond>] *)
Definition selectFromT (cond : option ExprNode) : StmtNode :=
  SelectStmtNode
    (mkSelectStmt false
       (Some (mkJoin (TableSource (SrcTableName (mkTableName "test" "t")))
                     None None))
       cond
       [mkSelectField None (Some colA)]
       None None None None false).

(** The table of the test suite, with single-column indices on a and b. *)
Definition tableT : TableInfo :=
  mkTableInfo "t" [mkIndexInfo "a" ["a"%string]; mkIndexInfo "b" ["b"%string]].

(** A catalog that knows test.t, and one that knows no table. *)
Definition catalogT : Catalog :=
  mkCatalog (fun schema table =>
               String.eqb schema "test" && String.eqb table "t").

Definition emptyCatalog : Catalog := mkCatalog (fun _ _ => false).

(** Stand-ins for the passes outside the sources, used to run Optimize on
    an example: passes that succeed and leave the statement alone, a plan
    builder for a SELECT without WHERE on [tableT], the enumeration of
    plan alternatives, a refiner that changes nothing, and a cost of 1 for
    an index scan against 10 for a table scan. *)
Definition idPass (node : StmtNode) : StmtNode * option error := (node, None).

Definition planOfT (node : StmtNode) : Plan :=
  SelectFields (TableScan tableT ["a"%string]) ["a"%string].

Definition alternativesOf (p : Plan) : list Plan :=
  match Alternatives (fun q => q) p with
  | Done alts => alts
  | Panic _ => []
  end.

Definition unitCost (p : Plan) : Z :=
  match leaf p with
  | IndexScan _ _ _ _ => 1
  | _ => 10
  end.

(** A pass that reports an error, and [SELECT *, * FROM test.t], which
    the validator turns down (two wildcards without a table name). *)
Definition failPass (node : StmtNode) : StmtNode * option error :=
  (node, Some ErrOther).

Definition selectStarStar : StmtNode :=
  SelectStmtNode
    (mkSelectStmt false
       (Some (mkJoin (TableSource (SrcTableName (mkTableName "test" "t")))
                     None None))
       None
       [mkSelectField (Some EmptyString) None;
        mkSelectField (Some EmptyString) None]
       None None None None false).

(** *** NOT IN and NOT LIKE *)

(** The expression with the Not flag of every IN and LIKE in it set to
    [b]. *)
Fixpoint setNot (b : bool) (e : ExprNode) : ExprNode :=
  match e with
  | ValueExpr _ | ColumnNameExpr _ | SubqueryExpr _ | ParamMarkerExpr => e
  | BinaryOperationExpr op L R =>
      BinaryOperationExpr op (setNot b L) (setNot b R)
  | PatternInExpr x l _ => PatternInExpr (setNot b x) (map (setNot b) l) b
  | ParenthesesExpr x => ParenthesesExpr (setNot b x)
  | BetweenExpr x lo hi n =>
      BetweenExpr (setNot b x) (setNot b lo) (setNot b hi) n
  | IsNullExpr x n => IsNullExpr (setNot b x) n
  | IsTruthExpr x n t => IsTruthExpr (setNot b x) n t
  | PatternLikeExpr x pat _ => PatternLikeExpr (setNot b x) (setNot b pat) b
  | RowExpr l => RowExpr (map (setNot b) l)
  | UnaryOperationExpr op x => UnaryOperationExpr op (setNot b x)
  | FuncCallExpr f l => FuncCallExpr f (map (setNot b) l)
  | AggregateFuncExpr f l => AggregateFuncExpr f (map (setNot b) l)
  end.

Fixpoint setNotResultSet (b : bool) (n : ResultSetNode) : ResultSetNode :=
  match n with
  | TableSource src => TableSource src
  | JoinNode l r on =>
      JoinNode (setNotResultSet b l) (option_map (setNotResultSet b) r)
               (option_map (setNot b) on)
  end.

Definition setNotJoin (b : bool) (j : Join) : Join :=
  mkJoin (setNotResultSet b (JoinLeft j))
         (option_map (setNotResultSet b) (JoinRight j))
         (option_map (setNot b) (JoinOn j)).

Definition setNotField (b : bool) (f : SelectField) : SelectField :=
  mkSelectField (WildCard f) (option_map (setNot b) (FieldExpr f)).

Definition setNotSelect (b : bool) (s : SelectStmt) : SelectStmt :=
  mkSelectStmt (Distinct s)
    (option_map (setNotJoin b) (From s))
    (option_map (setNot b) (Where s))
    (map (setNotField b) (FieldList s))
    (option_map (map (setNot b)) (GroupBy s))
    (option_map (setNot b) (Having s))
    (option_map (map (setNot b)) (OrderBy s))
    (LimitOf s) (ForUpdate s).

Definition setNotStmt (b : bool) (n : StmtNode) : StmtNode :=
  match n with
  | SelectStmtNode s => SelectStmtNode (setNotSelect b s)
  | _ => n
  end.

Definition isStr (v : value) : bool :=
  match v with Str _ => true | _ => false end.

(** build arrives at a panic: through AND, OR and parentheses it reaches
    an IN or LIKE with Not set, or a LIKE whose pattern value is not a
    string. *)
Fixpoint reachesPanic (slotOf : ExprNode -> value) (e : ExprNode) : bool :=
  match e with
  | BinaryOperationExpr opcode.OrOr L R
  | BinaryOperationExpr opcode.AndAnd L R =>
      reachesPanic slotOf L || reachesPanic slotOf R
  | ParenthesesExpr x => reachesPanic slotOf x
  | PatternInExpr _ _ Not => Not
  | PatternLikeExpr _ pat Not => Not || negb (isStr (GetValue slotOf pat))
  | _ => false
  end.

Definition isPanic {A : Type} (o : outcome A) : bool :=
  match o with Panic _ => true | Done _ => false end.

(** *** Counting the intervals that cover a value

    The notions the correctness argument of the sweep is stated with. *)

Section Counting.

Variable Compare : value -> value -> option comparison.

(** The column values of the domain at hand; NULL is a column value as
    well. *)
Variable dom : value -> bool.

(** A value a column can hold. *)
Definition probe (v : value) : bool := isNil v || dom v.

(** A value a range point can hold. *)
Definition okv (v : value) : bool :=
  isNil v || isMinNotNull v || isMaxVal v || dom v.

Definition okp (p : rangePoint) : bool := okv (pvalue p).

(** The point [p] lies to the left of the column value [v]: its value is
    smaller, or it is [v] and the point is a closed start or an open
    end. *)
Definition before (v : value) (p : rangePoint) : bool :=
  match vcmp Compare (pvalue p) v with
  | Some Lt => true
  | Some Eq => Bool.eqb (start p) (negb (excl p))
  | _ => false
  end.

(** What a point adds to inRangeCount. *)
Definition weight (p : rangePoint) : Z := if start p then 1 else -1.

Definition sumOf (f : rangePoint -> Z) (l : list rangePoint) : Z :=
  fold_right (fun p acc => f p + acc) 0 l.

(** inRangeCount after the whole list. *)
Definition delta (l : list rangePoint) : Z := sumOf weight l.

(** inRangeCount after the points to the left of [v]: the number of
    intervals of the list that are open at [v]. *)
Definition count (v : value) (l : list rangePoint) : Z :=
  sumOf (fun p => if before v p then weight p else 0) l.

(** A list in which the points that satisfy [bf] come first. *)
Fixpoint sortedBy (bf : rangePoint -> bool) (l : list rangePoint) : bool :=
  match l with
  | [] => true
  | p :: l' =>
      if bf p then sortedBy bf l'
      else forallb (fun q => negb (bf q)) l'
  end.

(** The same for a list held in reverse. *)
Fixpoint rsortedBy (bf : rangePoint -> bool) (rp : list rangePoint) : bool :=
  match rp with
  | [] => true
  | p :: rp' =>
      if bf p then forallb bf rp'
      else rsortedBy bf rp'
  end.

(** A set of points that is closed downwards under the sorter's Less: the
    points to the left of a column value are one, the points whose value
    is below a column value another. *)
Definition lowerSet (bf : rangePoint -> bool) : Prop :=
  forall x y, okp x = true -> okp y = true ->
    (less Compare x y = true -> bf y = true -> bf x = true) /\
    (less Compare x y = false -> bf x = true -> bf y = true).

(** The value of the point is below [v]; is [v] or below. *)
Definition valueBelow (v : value) (p : rangePoint) : bool :=
  match vcmp Compare (pvalue p) v with
  | Some Lt => true
  | _ => false
  end.

Definition valueAtMost (v : value) (p : rangePoint) : bool :=
  match vcmp Compare (pvalue p) v with
  | Some Lt | Some Eq => true
  | _ => false
  end.

(** 1 for true, 0 for false. *)
Definition ind (b : bool) : Z := if b then 1 else 0.

(** The rank of a value among NULL, MinNotNull, the data and MaxVal. *)
Definition cls (v : value) : Z :=
  match v with
  | Nil => 0
  | MinNotNullVal => 1
  | MaxVal => 3
  | _ => 2
  end.

(** Start and end points alternate, the first one having [start = b]. *)
Fixpoint altFrom (b : bool) (l : list rangePoint) : bool :=
  match l with
  | [] => true
  | p :: l' => Bool.eqb (start p) b && altFrom (negb b) l'
  end.

(** The comparator is a total order on the domain, and the domain holds
    concrete data only. *)
Record TotalOn : Prop := mkTotalOn {
  dom_concrete : forall a, dom a = true ->
    isNil a = false /\ isMinNotNull a = false /\ isMaxVal a = false;
  cmp_total : forall a b, dom a = true -> dom b = true ->
    Compare a b <> None;
  cmp_refl : forall a, dom a = true -> Compare a a = Some Eq;
  cmp_opp : forall a b, dom a = true -> dom b = true ->
    Compare b a = option_map CompOpp (Compare a b);
  cmp_eq : forall a b c, dom a = true -> dom b = true -> dom c = true ->
    Compare a b = Some Eq -> Compare a c = Compare b c;
  cmp_lt_trans : forall a b c, dom a = true -> dom b = true ->
    dom c = true ->
    Compare a b = Some Lt -> Compare b c = Some Lt -> Compare a c = Some Lt
}.

(** The value of the point is [v]. *)
Definition valueIs (v : value) (p : rangePoint) : bool :=
  match vcmp Compare (pvalue p) v with
  | Some Eq => true
  | _ => false
  end.

(** The points buildFromIn makes of the values of an IN list, before it
    sorts them. *)
Definition pointsOfList (vals : list value) : list rangePoint :=
  flat_map (fun c => [SIn c; EIn c]) vals.

(** A list of intervals in the plain sense: a start point followed by an
    end point that is not below it, pair after pair. *)
Fixpoint properPairs (l : list rangePoint) : bool :=
  match l with
  | [] => true
  | [_] => false
  | s :: e :: l' =>
      start s && negb (start e) && okp s && okp e &&
      match vcmp Compare (pvalue s) (pvalue e) with
      | Some Lt => true
      | Some Eq => negb (excl s)
      | _ => false
      end &&
      properPairs l'
  end.

(** What the planner may rely on for a range-point list: its values are
    sound, starts and ends balance, and at every column value the count of
    open intervals is not negative and is positive where the list covers
    the value. *)
Definition wellCounted (l : list rangePoint) : Prop :=
  forallb okp l = true /\
  delta l = 0 /\
  forall v, probe v = true ->
    0 <= count v l /\ (covers Compare v l = true -> 1 <= count v l).

(** *** The expressions the range builder is sound on *)

Definition isCompareOp (op : opcode.Op) : bool :=
  match op with
  | opcode.EQ | opcode.NE | opcode.LT | opcode.LE | opcode.GT
  | opcode.GE => true
  | _ => false
  end.

Definition inListItem (x : ExprNode) : bool :=
  match x with
  | ValueExpr c => isNil c || dom c
  | _ => false
  end.

(** Comparisons of the column with a non-NULL literal of the domain (on
    either side), IN lists of literals (NULL allowed), BETWEEN and NOT
    BETWEEN with non-NULL bounds in order, IS [NOT] NULL, IS [NOT] TRUE
    and IS [NOT] FALSE on the column, the bare column, and their
    combinations by parentheses, AND and OR. *)
Fixpoint rangeable (e : ExprNode) : bool :=
  match e with
  | ColumnNameExpr _ => true
  | ParenthesesExpr x => rangeable x
  | BinaryOperationExpr op L R =>
      match op with
      | opcode.AndAnd | opcode.OrOr => rangeable L && rangeable R
      | _ =>
          isCompareOp op &&
          match L, R with
          | ColumnNameExpr _, ValueExpr c => dom c
          | ValueExpr c, ColumnNameExpr _ => dom c
          | _, _ => false
          end
      end
  | PatternInExpr (ColumnNameExpr _) l false => forallb inListItem l
  | BetweenExpr (ColumnNameExpr _) (ValueExpr lo) (ValueExpr hi) _ =>
      dom lo && dom hi &&
      match Compare lo hi with
      | Some Lt | Some Eq => true
      | _ => false
      end
  | IsNullExpr (ColumnNameExpr _) _ => true
  | IsTruthExpr (ColumnNameExpr _) _ t => (t =? 0) || (t =? 1)
  | _ => false
  end.

(** No two values of the list compare equal. *)
Fixpoint distinctValues (vals : list value) : bool :=
  match vals with
  | [] => true
  | c :: rest =>
      forallb (fun d => match Compare c d with
                        | Some Eq => false
                        | _ => true
                        end) rest
      && distinctValues rest
  end.

Definition litValue (x : ExprNode) : value :=
  match x with
  | ValueExpr c => c
  | _ => Nil
  end.

Definition isDomLiteral (x : ExprNode) : bool :=
  match x with
  | ValueExpr c => dom c
  | _ => false
  end.

(** The rangeable expressions whose IN lists hold non-NULL literals that
    are pairwise different. *)
Fixpoint exactRangeable (e : ExprNode) : bool :=
  match e with
  | ParenthesesExpr x => exactRangeable x
  | BinaryOperationExpr op L R =>
      match op with
      | opcode.AndAnd | opcode.OrOr => exactRangeable L && exactRangeable R
      | _ => rangeable e
      end
  | PatternInExpr (ColumnNameExpr _) l false =>
      forallb isDomLiteral l && distinctValues (map litValue l)
  | _ => rangeable e
  end.

(** The number of values of the list that compare equal to [v]. *)
Definition countEq (v : value) (vals : list value) : Z :=
  fold_right (fun c acc => ind (valueIs v (SIn c)) + acc) 0 vals.

(** A well-counted list in which at most one interval is open at a
    column value, and that covers the values at which one is. *)
Definition exactlyCounted (l : list rangePoint) : Prop :=
  wellCounted l /\
  forall v, probe v = true ->
    count v l <= 1 /\ (1 <= count v l -> covers Compare v l = true).

(** The end point [e] of one interval and the start point [s] of the next
    leave no column value in both. *)
Definition separated (e s : rangePoint) : bool :=
  match vcmp Compare (pvalue e) (pvalue s) with
  | Some Lt => true
  | Some Eq => excl e || excl s
  | _ => false
  end.

(** [types.ToBool] agrees with the comparator: it gives 0 or 1, 0 exactly
    on the domain values that compare equal to int64 0, and it maps the
    results the evaluator stores (int64 0 and 1, Go bools) as expected. *)
Record ToBoolAgrees (ToBool : value -> option Z) : Prop := mkToBoolAgrees {
  zero_in_dom : dom (Int64 0) = true;
  toBool_zero : ToBool (Int64 0) = Some 0;
  toBool_one : ToBool (Int64 1) = Some 1;
  toBool_bool : forall b, ToBool (Bool b) = Some (if b then 1 else 0);
  toBool_dom : forall d, dom d = true ->
    ToBool d = Some (match Compare d (Int64 0) with
                     | Some Eq => 0
                     | _ => 1
                     end)
}.

End Counting.

(** The int64 values as a domain for [CompareStd]. *)
Definition isInt64 (v : value) : bool :=
  match v with Int64 _ => true | _ => false end.

(** ** Notions the further properties are stated with *)

(** An open start point; a closed end point. *)
Definition isOpenStart (p : rangePoint) : bool := start p && excl p.

Definition isClosedEnd (p : rangePoint) : bool :=
  negb (start p) && negb (excl p).

(** The index range buildIndexRanges makes of a pair of points, and the
    two points of an index range on one column. *)
Definition rangeOfPair (se : rangePoint * rangePoint) : IndexRange :=
  mkIndexRange [pvalue (fst se)] (excl (fst se))
               [pvalue (snd se)] (excl (snd se)).

Definition pointsOfRange (ir : IndexRange) : list rangePoint :=
  [mkPoint (hd Nil (LowVal ir)) (LowExclude ir) true;
   mkPoint (hd Nil (HighVal ir)) (HighExclude ir) false].

(** Every end point of the list is separated from the start point that
    follows it. *)
Fixpoint separatedPairs (Compare : value -> value -> option comparison)
         (l : list rangePoint) : bool :=
  match l with
  | _ :: e :: l' =>
      match l' with
      | s :: _ => separated Compare e s
      | [] => true
      end && separatedPairs Compare l'
  | _ => true
  end.

(** A list of intervals in increasing order no two of which share a
    value. *)
Definition disjointPairs (Compare : value -> value -> option comparison)
           (dom : value -> bool) (l : list rangePoint) : bool :=
  properPairs Compare dom l && separatedPairs Compare l.

(** A comparator that always reports an error. *)
Definition CompareNone (a b : value) : option comparison := None.

(** The byte 0xff, which the carry loop of buildFromPatternLike turns
    into 0. *)
Definition isFF (c : ascii) : bool := (N_of_ascii c =? 255)%N.

Definition isEmpty {A : Type} (l : list A) : bool :=
  match l with [] => true | _ :: _ => false end.

(** An operand that does not stand for one column: a row, or a subquery
    whose result does not have exactly one field. *)
Definition notOneColumn (e : ExprNode) : bool :=
  match e with
  | RowExpr _ => true
  | SubqueryExpr n => negb (Nat.eqb n 1)
  | _ => false
  end.

(** A field [*] without a table name. *)
Definition isUnqualifiedWildCard (f : SelectField) : bool :=
  match WildCard f with
  | Some table => String.eqb table EmptyString
  | None => false
  end.

Definition fieldNotOneColumn (f : SelectField) : bool :=
  match FieldExpr f with
  | Some e => notOneColumn e
  | None => false
  end.

Definition isNilPlan (p : Plan) : bool :=
  match p with NilPlan => true | _ => false end.

(** A FROM clause the support checker lets through: one table, given by
    name, whose schema is not INFORMATION_SCHEMA in any letter case. *)
Definition singleUserTable (j : Join) : bool :=
  match JoinRight j, JoinLeft j with
  | None, TableSource (SrcTableName tn) =>
      negb (EqualFold (Schema tn) infoschema_Name)
  | _, _ => false
  end.

(** From a supported state, a part of the walk reports ok exactly when it
    leaves the checker supported. *)
Definition good (f : supportChecker -> supportChecker * bool) : Prop :=
  forall st, unsupported st = false ->
             snd (f st) = negb (unsupported (fst (f st))).

(** From a supported state, a part of the walk leaves the checker
    unsupported. *)
Definition rejects (f : supportChecker -> supportChecker * bool) : Prop :=
  forall st, unsupported st = false -> unsupported (fst (f st)) = true.

(** A cost estimate that does not tell plans apart. *)
Definition flatCost (p : Plan) : Z := 5.

(** ** More of the evaluator (package evaluator) *)

(** SQL NOT on the result of a test: a Go bool is negated, NULL stays
    NULL. *)
Definition negValue (v : value) : value :=
  match v with
  | Bool b => Bool (negb b)
  | _ => v
  end.

Definition isEq (c : option comparison) : bool :=
  match c with Some Eq => true | _ => false end.

(** The loop of Evaluator.caseExpr over the WHEN clauses, each given by
    the value of its condition and the value of its result.  [None] is
    the comparison error; [Some None]: no clause matched. *)
Fixpoint caseWhen (Compare : value -> value -> option comparison)
         (target : value) (WhenClauses : list (value * value))
  : option (option value) :=
  match WhenClauses with
  | [] => Some None
  | val :: rest =>
      match Compare target (fst val) with
      | None => None
      | Some Eq => Some (Some (snd val))
      | Some _ => caseWhen Compare target rest
      end
  end.

(** Evaluator.caseExpr: the value the CASE node holds afterwards, [None]
    when the evaluator stores an error.  [Value] is the value of the
    operand of CASE when there is one, [ElseClause] the value of the ELSE
    expression when there is one, [slot] the value the node held
    before. *)
Definition caseExpr (Compare : value -> value -> option comparison)
           (Value : option value) (WhenClauses : list (value * value))
           (ElseClause : option value) (slot : value) : option value :=
  let target := match Value with
                | Some v => v
                | None => Bool true
                end in
  let otherwise := match ElseClause with
                   | Some e => Some e
                   | None => Some slot
                   end in
  if negb (isNil target) then
    match caseWhen Compare target WhenClauses with
    | None => None
    | Some (Some result) => Some result
    | Some None => otherwise
    end
  else otherwise.

(** Go's [int] on a 64-bit platform: arithmetic wraps around. *)
Definition wrapInt (z : Z) : Z := (z + 2 ^ 63) mod 2 ^ 64 - 2 ^ 63.

(** A slice expression [str[lo:hi]]: it panics unless
    [0 <= lo <= hi <= len(str)]. *)
Definition goSlice (str : list ascii) (lo hi : Z) : outcome (list ascii) :=
  if (0 <=? lo) && (lo <=? hi) && (hi <=? Z.of_nat (List.length str))
  then Done (firstn (Z.to_nat (hi - lo)) (skipn (Z.to_nat lo) str))
  else Panic "slice bounds out of range".

(** Evaluator.funcSubstring once its operands are converted: [str] is
    the string, [pos] the int64 position, [Len] the int64 length when the
    call has one. *)
Definition funcSubstring (str : list ascii) (pos : Z) (Len : option Z)
  : outcome (list ascii) :=
  let len := Z.of_nat (List.length str) in
  let length := match Len with
                | Some p => p
                | None => -1
                end in
  let pos1 := if pos <? 0 then wrapInt (len + pos) else wrapInt (pos - 1) in
  let pos2 := if (len <? pos1) || (pos1 <=? 0) then len else pos1 in
  let end1 := if negb (length =? -1) then wrapInt (pos2 + length)
              else len in
  let end2 := if len <? end1 then len else end1 in
  goSlice str pos2 end2.

(** strings.HasPrefix and strings.TrimPrefix of Go's library, on
    bytes. *)
Fixpoint HasPrefix (s prefix : list ascii) {struct prefix} : bool :=
  match prefix, s with
  | [], _ => true
  | c :: prefix', d :: s' => Ascii.eqb c d && HasPrefix s' prefix'
  | _ :: _, [] => false
  end.

Definition TrimPrefix (s prefix : list ascii) : list ascii :=
  if HasPrefix s prefix then skipn (List.length prefix) s else s.

(** strings.HasSuffix and strings.TrimSuffix. *)
Definition HasSuffix (s suffix : list ascii) : bool :=
  HasPrefix (rev s) (rev suffix).

Definition TrimSuffix (s suffix : list ascii) : list ascii :=
  if HasSuffix s suffix
  then firstn (List.length s - List.length suffix) s
  else s.

(** The loop of trimLeft; [None] when [fuel] rounds were not enough. *)
Fixpoint trimLeftLoop (fuel : nat) (str remstr : list ascii)
  : option (list ascii) :=
  match fuel with
  | O => None
  | S fuel' =>
      let x := TrimPrefix str remstr in
      if Nat.eqb (List.length x) (List.length str) then Some x
      else trimLeftLoop fuel' x remstr
  end.

(** trimLeft; every round but the last shortens the string. *)
Definition trimLeft (str remstr : list ascii) : option (list ascii) :=
  trimLeftLoop (S (List.length str)) str remstr.

Fixpoint trimRightLoop (fuel : nat) (str remstr : list ascii)
  : option (list ascii) :=
  match fuel with
  | O => None
  | S fuel' =>
      let x := TrimSuffix str remstr in
      if Nat.eqb (List.length x) (List.length str) then Some x
      else trimRightLoop fuel' x remstr
  end.

(** trimRight *)
Definition trimRight (str remstr : list ascii) : option (list ascii) :=
  trimRightLoop (S (List.length str)) str remstr.

(** [k] copies of a string, one after the other. *)
Fixpoint copies (k : nat) (s : list ascii) : list ascii :=
  match k with
  | O => []
  | S k' => s ++ copies k' s
  end.

(** The index at which the substring of funcSubstring starts, for a
    string of [len] bytes. *)
Definition substringStart (len pos : Z) : Z :=
  if (2 <=? pos) && (pos <=? len) then pos - 1
  else if (pos <? 0) && (0 <? len + pos) then len + pos
  else len.

(** * Properties *)

Unset Implicit Arguments.

(** ** The order of range points *)

(** Sentinels: NULL sorts before MinNotNull, MinNotNull before every other
    non-NULL value, and every value that is not MaxVal before MaxVal,
    whatever the flags of the two points. *)
Lemma Less_sentinels (Compare : value -> value -> option comparison)
      (a b : rangePoint) :
  (pvalue a = Nil -> pvalue b <> Nil ->
   less Compare a b = true /\ less Compare b a = false) /\
  (pvalue a = MinNotNullVal -> pvalue b <> Nil ->
   pvalue b <> MinNotNullVal ->
   less Compare a b = true /\ less Compare b a = false) /\
  (pvalue b = MaxVal -> pvalue a <> MaxVal ->
   less Compare a b = true /\ less Compare b a = false).
Proof.
  unfold less, Less.
  repeat split; intros; destruct a as [va ea sa], b as [vb eb sb];
    simpl in *; subst;
    try (destruct vb; simpl; congruence);
    try (destruct va; simpl; congruence).
Qed.

(** Ties on one value: a closed start precedes an open start, an open end
    precedes a closed end, and an end precedes a start when either of the
    two is exclusive. *)
Lemma equalValueLess_ties (v : value) :
  equalValueLess (SIn v) (SEx v) = true /\
  equalValueLess (SEx v) (SIn v) = false /\
  equalValueLess (EEx v) (EIn v) = true /\
  equalValueLess (EIn v) (EEx v) = false /\
  equalValueLess (EEx v) (SIn v) = true /\
  equalValueLess (EEx v) (SEx v) = true /\
  equalValueLess (EIn v) (SEx v) = true.
Proof. repeat split. Qed.

(** C8 (the code departs from the claim): on one value, an open start and
    a closed end each sort before the other, so the comparison of
    rangePointSorter.Less is not asymmetric and is no total order.  The
    branch for (end, start) answers [a.excl || b.excl]; the mirror branch
    for (start, end) answers [!b.excl] and forgets [a.excl]. *)
Theorem Less_open_start_closed_end_both_ways :
  less CompareStd (SEx (Int64 1)) (EIn (Int64 1)) = true /\
  less CompareStd (EIn (Int64 1)) (SEx (Int64 1)) = true.
Proof. split; reflexivity. Qed.

(** ** Merge *)

(** C7 (the code departs from the claim): the union of (1, 2] and [0, 1]
    is [0, 1] (1, 2], which the sorter does not regard as sorted (the open
    start at 1 is Less than the closed end at 1 before it), and merging
    this output with the empty list gives [0, 2]: the output is no fixed
    point. *)
Theorem merge_union_output_not_fixed_point :
  let out := fst (merge CompareStd newBuilder
                        [SEx (Int64 1); EIn (Int64 2)]
                        [SIn (Int64 0); EIn (Int64 1)] true) in
  out = [SIn (Int64 0); EIn (Int64 1); SEx (Int64 1); EIn (Int64 2)] /\
  less CompareStd (SEx (Int64 1)) (EIn (Int64 1)) = true /\
  fst (merge CompareStd newBuilder out [] true)
  = [SIn (Int64 0); EIn (Int64 2)] /\
  fst (merge CompareStd newBuilder out [] true) <> out.
Proof. repeat split; try reflexivity. discriminate. Qed.

(** ** The range builder on single constructs *)

(** C6 (the code departs from the claim): for [a NOT BETWEEN 2 AND 1] the
    builder returns [-inf, 2) (1, +inf] as it stands: the start point at 1
    follows the end point at 2 although it is Less, and the two intervals
    overlap on (1, 2).  The test suite expects [[-inf +inf]]. *)
Theorem build_not_between_swapped_unsorted :
  buildStd (BetweenExpr colA (lit 2) (lit 1) true)
  = Done [SIn MinNotNullVal; EEx (Int64 2); SEx (Int64 1); EIn MaxVal] /\
  less CompareStd (SEx (Int64 1)) (EEx (Int64 2)) = true /\
  fst (sortPoints CompareStd
         [SIn MinNotNullVal; EEx (Int64 2); SEx (Int64 1); EIn MaxVal])
  = [SIn MinNotNullVal; SEx (Int64 1); EEx (Int64 2); EIn MaxVal].
Proof. repeat split. Qed.

(** Duplicates in an IN list: the sorted points are start, start, end, end,
    not an alternation of start and end. *)
Lemma build_in_duplicates :
  buildStd (PatternInExpr colA [lit 1; lit 1] false)
  = Done [SIn (Int64 1); SIn (Int64 1); EIn (Int64 1); EIn (Int64 1)].
Proof. reflexivity. Qed.

(** C4 (the code departs from the claim): for [a LIKE 'abc_'] the builder
    returns [abc_, abc`), a closed start at the whole pattern: the
    unescape loop tests the byte '.' where the single-character wildcard
    is '_'.  The test suite expects (abc, abd). *)
Theorem build_like_underscore :
  buildStd (PatternLikeExpr colA (strLit "abc_") false)
  = Done [SIn (Str "abc_"); EEx (Str "abc`")] /\
  buildStd (PatternLikeExpr colA (strLit "abc.") false)
  = Done [SEx (Str "abc"); EEx (Str "abd")].
Proof. split; reflexivity. Qed.

(** The LIKE rows of the test suite that the builder does meet. *)
Lemma build_like_tests :
  buildStd (PatternLikeExpr colA (strLit "abc%") false)
  = Done [SIn (Str "abc"); EEx (Str "abd")] /\
  buildStd (PatternLikeExpr colA (strLit "%") false)
  = Done [SIn MinNotNullVal; EIn MaxVal] /\
  buildStd (PatternLikeExpr colA (strLit "\%a") false)
  = Done [SIn (Str "%a"); EEx (Str "%b")] /\
  buildStd (PatternLikeExpr colA (strLit "\") false)
  = Done [SIn (Str "\"); EEx (Str "]")].
Proof. repeat split. Qed.

(** C5, as the claim states it, fails: a binary operation with operator
    [+] gets the empty list, not the universal range. *)
Lemma build_plus_is_empty :
  buildStd (BinaryOperationExpr opcode.Plus colA (lit 1)) = Done [] /\
  buildStd (BinaryOperationExpr opcode.Plus colA (lit 1)) <> Done fullRange.
Proof. split; [reflexivity | discriminate]. Qed.

(** C5 (amended): a node whose type the builder has no case for gets the
    universal range [MinNotNull, MaxVal]; a binary operation whose
    operator is none of AND, OR, =, !=, <, <=, >, >= gets the empty (nil)
    list.  Neither touches the builder's error. *)
Theorem build_unsupported_node
        (Compare : value -> value -> option comparison)
        (slotOf : ExprNode -> value) (r : rangeBuilder) (e : ExprNode)
        (H : fallsThrough e || isOtherBinop e = true) :
  build Compare slotOf r e
  = Done (if isOtherBinop e then [] else fullRange, r).
Proof.
  destruct e; simpl in *; try discriminate; try reflexivity.
  destruct op; simpl in *; try discriminate;
    destruct (isValueExpr e1); reflexivity.
Qed.

Lemma build_unsupported_node_witness :
  build CompareStd noSlot newBuilder (lit 7) = Done (fullRange, newBuilder)
  /\ build CompareStd noSlot newBuilder
            (BinaryOperationExpr opcode.NullEQ colA (lit 1))
      = Done ([], newBuilder).
Proof.
  split.
  - apply (build_unsupported_node CompareStd noSlot newBuilder (lit 7)).
    reflexivity.
  - apply (build_unsupported_node CompareStd noSlot newBuilder
             (BinaryOperationExpr opcode.NullEQ colA (lit 1))).
    reflexivity.
Defined.

(** ** Index ranges of a multi-column index *)

(** Induction over a list two elements at a time. *)
Lemma list_pair_ind (A : Type) (P : list A -> Prop) :
  P [] -> (forall x, P [x]) ->
  (forall x y l, P l -> P (x :: y :: l)) ->
  forall l, P l.
Proof.
  intros Hnil Hone Hstep l.
  assert (H : P l /\ forall x, P (x :: l)).
  { induction l as [|a l [IH1 IH2]]; split; auto. }
  exact (proj1 H).
Qed.

Lemma even_length_cons2 (A : Type) (x y : A) (l : list A) :
  Nat.Even (List.length (x :: y :: l)) -> Nat.Even (List.length l).
Proof.
  simpl. intros [k Hk]. exists (k - 1)%nat. lia.
Qed.

Lemma not_even_length_one (A : Type) (x : A) :
  ~ Nat.Even (List.length [x]).
Proof. simpl. intros [k Hk]. lia. Qed.

(** On an even-length point list appendIndexRange returns one extended
    range per point pair. *)
Lemma appendIndexRange_pairs (origin : IndexRange) (pts : list rangePoint) :
  Nat.Even (List.length pts) ->
  appendIndexRange origin pts
  = Done (map (extendRange origin) (pointPairs pts)).
Proof.
  induction pts as [|x|x y l IH] using list_pair_ind; intros Hev.
  - reflexivity.
  - destruct (not_even_length_one _ x Hev).
  - apply even_length_cons2 in Hev.
    cbn [appendIndexRange pointPairs map].
    rewrite (IH Hev). reflexivity.
Qed.

(** C10: on an even-length point list for the next index column,
    appendIndexRanges keeps every range that is not a point where it was,
    and puts in the place of every point range one extended range per
    point pair, which appends the pair's start and end values to the
    bounds of the point range and takes the pair's exclusivity flags. *)
Theorem appendIndexRanges_extends_point_ranges
        (isPoint : IndexRange -> bool) (origin : list IndexRange)
        (pts : list rangePoint)
        (Heven : Nat.Even (List.length pts)) :
  appendIndexRanges isPoint origin pts
  = Done (flat_map
            (fun o => if isPoint o
                      then map (extendRange o) (pointPairs pts)
                      else [o])
            origin).
Proof.
  induction origin as [|o rest IH]; [reflexivity|].
  cbn [appendIndexRanges flat_map].
  rewrite IH.
  destruct (isPoint o); cbn [negb].
  - rewrite (appendIndexRange_pairs o pts Heven). reflexivity.
  - reflexivity.
Qed.

Lemma appendIndexRanges_extends_point_ranges_witness :
  appendIndexRanges IsPoint
    [mkIndexRange [Int64 0] false [Int64 0] false;
     mkIndexRange [Int64 1] true [MaxVal] false]
    [SIn (Int64 2); EIn (Int64 2); SEx (Int64 5); EIn MaxVal]
  = Done [mkIndexRange [Int64 0; Int64 2] false [Int64 0; Int64 2] false;
          mkIndexRange [Int64 0; Int64 5] true [Int64 0; MaxVal] false;
          mkIndexRange [Int64 1] true [MaxVal] false].
Proof.
  apply (appendIndexRanges_extends_point_ranges IsPoint
           [mkIndexRange [Int64 0] false [Int64 0] false;
            mkIndexRange [Int64 1] true [MaxVal] false]
           [SIn (Int64 2); EIn (Int64 2); SEx (Int64 5); EIn MaxVal]).
  exists 2%nat. reflexivity.
Defined.

(** ** Alternatives *)

Lemma leaf_SetSrc (p s : Plan) :
  leaf p <> p -> leaf (SetSrc p s) = leaf s.
Proof. destruct p; simpl; congruence. Qed.

Lemma leafIndex_reparent (refine : Plan -> Plan)
      (Href : forall q, leafIndex (refine q) = leafIndex q)
      (p newLeaf : Plan) :
  leafIndex (reparent refine p newLeaf) = leafIndex newLeaf.
Proof.
  induction p; simpl; rewrite Href; try reflexivity;
    unfold leafIndex in *; simpl; exact IHp.
Qed.

Lemma Alternatives_reparent (refine : Plan -> Plan) (p : Plan)
      (T : TableInfo) (f : list string) :
  leaf p = TableScan T f ->
  Alternatives refine p
  = Done (map (fun idx =>
                 reparent refine p (IndexScan idx T [fullIndexRange] f))
              (Indices T)).
Proof.
  induction p; simpl; intros Hleaf; try discriminate;
    try (rewrite (IHp Hleaf); simpl; rewrite !map_map; reflexivity).
  injection Hleaf as -> ->.
  unfold tableScanAlternatives. rewrite map_map. reflexivity.
Qed.

(** C9: for a chain of plans that ends in a TableScan on table T,
    Alternatives returns one plan per index of T, in the order of the
    indices: the plan grown from an IndexScan on that index initialised
    with the single range [nil, MaxVal].  With a refiner that leaves the
    leaf's index alone, the leaf of the i-th plan is an IndexScan on the
    i-th index, and the table-scan plan itself is not returned. *)
Theorem Alternatives_one_per_index
        (refine : Plan -> Plan) (p : Plan) (T : TableInfo) (f : list string)
        (Hleaf : leaf p = TableScan T f)
        (Href : forall q, leafIndex (refine q) = leafIndex q) :
  exists alts,
    Alternatives refine p = Done alts /\
    alts = map (fun idx =>
                  reparent refine p (IndexScan idx T [fullIndexRange] f))
               (Indices T) /\
    List.length alts = List.length (Indices T) /\
    map leafIndex alts = map (fun idx => Some (idx, T)) (Indices T) /\
    ~ In p alts.
Proof.
  eexists. split; [apply (Alternatives_reparent refine p T f Hleaf)|].
  split; [reflexivity|].
  split; [apply length_map|].
  split.
  - rewrite map_map. apply map_ext. intros idx.
    rewrite (leafIndex_reparent refine Href). reflexivity.
  - intros Hin. apply in_map_iff in Hin. destruct Hin as [idx [Heq _]].
    assert (Hidx : leafIndex p = Some (idx, T)).
    { rewrite <- Heq. rewrite (leafIndex_reparent refine Href). reflexivity. }
    unfold leafIndex in Hidx. rewrite Hleaf in Hidx. discriminate.
Qed.

Lemma Alternatives_one_per_index_witness :
  let T := mkTableInfo "t" [mkIndexInfo "a" ["a"%string]; mkIndexInfo "b" ["b"%string]] in
  let cond := BinaryOperationExpr opcode.EQ colA (lit 1) in
  let p := SelectFields (Filter (TableScan T ["a"%string]) [cond]) ["a"%string] in
  exists alts,
    Alternatives (fun q => q) p = Done alts /\
    alts = [SelectFields
              (Filter (IndexScan (mkIndexInfo "a" ["a"%string]) T
                                 [fullIndexRange] ["a"%string]) [cond]) ["a"%string];
            SelectFields
              (Filter (IndexScan (mkIndexInfo "b" ["b"%string]) T
                                 [fullIndexRange] ["a"%string]) [cond]) ["a"%string]] /\
    List.length alts = 2%nat /\
    map leafIndex alts
    = [Some (mkIndexInfo "a" ["a"%string], T); Some (mkIndexInfo "b" ["b"%string], T)] /\
    ~ In p alts.
Proof.
  intros T cond p.
  exact (Alternatives_one_per_index (fun q => q) p T ["a"%string]
           eq_refl (fun q => eq_refl)).
Defined.

(** ** Optimize *)

Section OptimizeFacts.

Variables InfoSchema Context cost : Type.
Variable bindInfo : StmtNode -> InfoSchema -> Context
                    -> StmtNode * option error.
Variable computeType : StmtNode -> StmtNode * option error.
Variable rewriteStatic : Context -> StmtNode -> StmtNode * option error.
Variable buildPlan : StmtNode -> Plan.
Variable alternatives : Plan -> list Plan.
Variable refine : Context -> Plan -> Plan.
Variable EstimateCost : Plan -> cost.
Variable costLt : cost -> cost -> bool.

Hypothesis costLt_irrefl : forall c, costLt c c = false.
Hypothesis costLt_trans :
  forall a b c, costLt a b = true -> costLt b c = true -> costLt a c = true.

Variable ctx : Context.

Let step := pickBest refine EstimateCost costLt ctx.

(** A cost that is not below the best so far is not below the final
    best either. *)
Lemma pickBest_keeps_bound (alts : list Plan) (best : cost * Plan)
      (x : cost) :
  costLt x (fst best) = false ->
  costLt x (fst (fold_left step alts best)) = false.
Proof.
  revert best. induction alts as [|alt alts IH]; intros best Hx; [exact Hx|].
  simpl. apply IH. unfold step, pickBest.
  destruct (costLt (EstimateCost (refine ctx alt)) (fst best)) eqn:Hlt;
    [|exact Hx].
  simpl. destruct (costLt x (EstimateCost (refine ctx alt))) eqn:Hx';
    [|reflexivity].
  rewrite (costLt_trans _ _ _ Hx' Hlt) in Hx. discriminate.
Qed.

(** No alternative of the list is cheaper than the final best. *)
Lemma pickBest_below_all (alts : list Plan) (best : cost * Plan)
      (alt : Plan) :
  In alt alts ->
  costLt (EstimateCost (refine ctx alt)) (fst (fold_left step alts best))
  = false.
Proof.
  revert best. induction alts as [|a alts IH]; intros best Hin;
    [destruct Hin | destruct Hin as [Heq|Hin]].
  - subst a. simpl. apply pickBest_keeps_bound. unfold step, pickBest.
    destruct (costLt (EstimateCost (refine ctx alt)) (fst best)) eqn:Hlt.
    + simpl. apply costLt_irrefl.
    + exact Hlt.
  - simpl. apply IH. exact Hin.
Qed.

(** The final best is the first plan or a refined alternative, and its
    cost is the recorded cost. *)
Lemma pickBest_is_candidate (alts : list Plan) (best : cost * Plan) :
  fst best = EstimateCost (snd best) ->
  let res := fold_left step alts best in
  fst res = EstimateCost (snd res) /\
  (snd res = snd best \/
   exists alt, In alt alts /\ snd res = refine ctx alt).
Proof.
  revert best. induction alts as [|a alts IH]; intros best Hbest; simpl.
  - split; [exact Hbest | left; reflexivity].
  - assert (Hstep : fst (step best a) = EstimateCost (snd (step best a))).
    { unfold step, pickBest.
      destruct (costLt (EstimateCost (refine ctx a)) (fst best));
        [reflexivity | exact Hbest]. }
    destruct (IH (step best a) Hstep) as [Hc [Hsame | [alt [Hin Halt]]]].
    + split; [exact Hc|]. rewrite Hsame. unfold step, pickBest.
      destruct (costLt (EstimateCost (refine ctx a)) (fst best)).
      * right. exists a. split; [left; reflexivity | reflexivity].
      * left. reflexivity.
    + split; [exact Hc|]. right. exists alt.
      split; [right; exact Hin | exact Halt].
Qed.

(** When a pass reports an error Optimize returns no plan and that
    error. *)
Lemma Optimize_bind_error (infos : InfoSchema) (node node1 : StmtNode)
      (err : error) :
  validate node = None ->
  bindInfo node infos ctx = (node1, Some err) ->
  Optimize bindInfo computeType rewriteStatic buildPlan alternatives
           refine EstimateCost costLt infos ctx node
  = (NilPlan, Some err).
Proof.
  intros Hv Hb. unfold Optimize. rewrite Hv, Hb. reflexivity.
Qed.

(** C2 (amended): for every statement, whether or not the support checker
    accepts it (Optimize does not consult it).  When validate, bindInfo,
    computeType or rewriteStatic reports an error, Optimize returns a nil
    plan and that error, the error of the first of the four that fails.
    When all four succeed, and the cost comparison is a strict order,
    Optimize returns a nil error and a plan that is the refined original
    plan or a refined alternative; neither the refined original plan nor
    any refined alternative has a smaller estimated cost. *)
Theorem Optimize_returns_cheapest (infos : InfoSchema) (node : StmtNode) :
  let res := Optimize bindInfo computeType rewriteStatic buildPlan
                      alternatives refine EstimateCost costLt
                      infos ctx node in
  (forall err,
     validate node = Some err ->
     res = (NilPlan, Some err)) /\
  (forall node1 err,
     validate node = None ->
     bindInfo node infos ctx = (node1, Some err) ->
     res = (NilPlan, Some err)) /\
  (forall node1 node2 err,
     validate node = None ->
     bindInfo node infos ctx = (node1, None) ->
     computeType node1 = (node2, Some err) ->
     res = (NilPlan, Some err)) /\
  (forall node1 node2 node3 err,
     validate node = None ->
     bindInfo node infos ctx = (node1, None) ->
     computeType node1 = (node2, None) ->
     rewriteStatic ctx node2 = (node3, Some err) ->
     res = (NilPlan, Some err)) /\
  (forall node1 node2 node3,
     validate node = None ->
     bindInfo node infos ctx = (node1, None) ->
     computeType node1 = (node2, None) ->
     rewriteStatic ctx node2 = (node3, None) ->
     let p := buildPlan node3 in
     snd res = None /\
     (fst res = refine ctx p \/
      exists alt, In alt (alternatives p) /\ fst res = refine ctx alt) /\
     costLt (EstimateCost (refine ctx p)) (EstimateCost (fst res)) = false /\
     forall alt, In alt (alternatives p) ->
       costLt (EstimateCost (refine ctx alt)) (EstimateCost (fst res))
       = false).
Proof.
  intros res. unfold res, Optimize. clear res.
  split; [|split; [|split; [|split]]].
  - intros err Hv. rewrite Hv. reflexivity.
  - intros node1 err Hv Hb. rewrite Hv, Hb. reflexivity.
  - intros node1 node2 err Hv Hb Ht. rewrite Hv, Hb, Ht. reflexivity.
  - intros node1 node2 node3 err Hv Hb Ht Hr.
    rewrite Hv, Hb, Ht, Hr. reflexivity.
  - intros node1 node2 node3 Hv Hb Ht Hr.
    rewrite Hv, Hb, Ht, Hr. set (p := buildPlan node3). cbn [fst snd].
    set (best := (EstimateCost (refine ctx p), refine ctx p)).
    destruct (pickBest_is_candidate (alternatives p) best eq_refl)
      as [Hcost Hcand].
    fold step. split; [reflexivity|]. split; [exact Hcand|].
    rewrite <- Hcost. split.
    + apply (pickBest_keeps_bound (alternatives p) best).
      apply costLt_irrefl.
    + intros alt Hin. apply pickBest_below_all. exact Hin.
Qed.

End OptimizeFacts.

Lemma Zltb_trans (a b c : Z) :
  (a <? b) = true -> (b <? c) = true -> (a <? c) = true.
Proof. rewrite !Z.ltb_lt. lia. Qed.

Lemma Optimize_returns_cheapest_witness :
  (let p := planOfT (selectFromT None) in
   let res := Optimize bindInfoByCatalog idPass (fun _ => idPass) planOfT
                       alternativesOf (fun _ q => q) unitCost Z.ltb
                       catalogT tt (selectFromT None) in
   snd res = None /\
   (fst res = p \/ exists alt, In alt (alternativesOf p) /\ fst res = alt) /\
   (unitCost p <? unitCost (fst res)) = false /\
   forall alt, In alt (alternativesOf p) ->
     (unitCost alt <? unitCost (fst res)) = false) /\
  Optimize bindInfoByCatalog idPass (fun _ => idPass) planOfT
           alternativesOf (fun _ q => q) unitCost Z.ltb
           catalogT tt selectStarStar
  = (NilPlan, Some ErrMultiWildCard) /\
  Optimize bindInfoByCatalog idPass (fun _ => idPass) planOfT
           alternativesOf (fun _ q => q) unitCost Z.ltb
           emptyCatalog tt (selectFromT None)
  = (NilPlan, Some (ErrBind 1146)) /\
  Optimize bindInfoByCatalog failPass (fun _ => idPass) planOfT
           alternativesOf (fun _ q => q) unitCost Z.ltb
           catalogT tt (selectFromT None)
  = (NilPlan, Some ErrOther) /\
  Optimize bindInfoByCatalog idPass (fun _ => failPass) planOfT
           alternativesOf (fun _ q => q) unitCost Z.ltb
           catalogT tt (selectFromT None)
  = (NilPlan, Some ErrOther).
Proof.
  split; [|split; [|split; [|split]]].
  - exact (proj2 (proj2 (proj2 (proj2
             (Optimize_returns_cheapest Catalog unit Z
                bindInfoByCatalog idPass (fun _ => idPass) planOfT
                alternativesOf (fun _ q => q) unitCost Z.ltb
                Z.ltb_irrefl Zltb_trans tt catalogT (selectFromT None)))))
             (selectFromT None) (selectFromT None) (selectFromT None)
             eq_refl eq_refl eq_refl eq_refl).
  - exact (proj1
             (Optimize_returns_cheapest Catalog unit Z
                bindInfoByCatalog idPass (fun _ => idPass) planOfT
                alternativesOf (fun _ q => q) unitCost Z.ltb
                Z.ltb_irrefl Zltb_trans tt catalogT selectStarStar)
             ErrMultiWildCard eq_refl).
  - exact (proj1 (proj2
             (Optimize_returns_cheapest Catalog unit Z
                bindInfoByCatalog idPass (fun _ => idPass) planOfT
                alternativesOf (fun _ q => q) unitCost Z.ltb
                Z.ltb_irrefl Zltb_trans tt emptyCatalog (selectFromT None)))
             (selectFromT None) (ErrBind 1146) eq_refl eq_refl).
  - exact (proj1 (proj2 (proj2
             (Optimize_returns_cheapest Catalog unit Z
                bindInfoByCatalog failPass (fun _ => idPass) planOfT
                alternativesOf (fun _ q => q) unitCost Z.ltb
                Z.ltb_irrefl Zltb_trans tt catalogT (selectFromT None))))
             (selectFromT None) (selectFromT None) ErrOther
             eq_refl eq_refl eq_refl).
  - exact (proj1 (proj2 (proj2 (proj2
             (Optimize_returns_cheapest Catalog unit Z
                bindInfoByCatalog idPass (fun _ => failPass) planOfT
                alternativesOf (fun _ q => q) unitCost Z.ltb
                Z.ltb_irrefl Zltb_trans tt catalogT (selectFromT None)))))
             (selectFromT None) (selectFromT None) (selectFromT None)
             ErrOther eq_refl eq_refl eq_refl eq_refl).
Defined.

(** C2, as the claim states it, fails: [SELECT a FROM test.t] passes the
    support checker and the validator, and Optimize returns no plan and
    error 1146 when the catalog has no such table.  Optimize does not call
    Supported; it gives up on the first pass that reports an error. *)
Lemma Optimize_unknown_table_error :
  Supported (selectFromT None) = true /\
  validate (selectFromT None) = None /\
  Optimize bindInfoByCatalog idPass (fun _ => idPass) planOfT
           alternativesOf (fun _ q => q) unitCost Z.ltb
           emptyCatalog tt (selectFromT None)
  = (NilPlan, Some (ErrBind 1146)).
Proof. repeat split. Qed.

(** ** The support checker and the panic branches of the range builder *)

(** Induction over expressions that reaches into the lists of operands. *)
Lemma ExprNode_list_ind (P : ExprNode -> Prop) :
  (forall v, P (ValueExpr v)) ->
  (forall n, P (ColumnNameExpr n)) ->
  (forall op L R, P L -> P R -> P (BinaryOperationExpr op L R)) ->
  (forall x l n, P x -> Forall P l -> P (PatternInExpr x l n)) ->
  (forall x, P x -> P (ParenthesesExpr x)) ->
  (forall x lo hi n, P x -> P lo -> P hi -> P (BetweenExpr x lo hi n)) ->
  (forall x n, P x -> P (IsNullExpr x n)) ->
  (forall x n t, P x -> P (IsTruthExpr x n t)) ->
  (forall x pat n, P x -> P pat -> P (PatternLikeExpr x pat n)) ->
  (forall l, Forall P l -> P (RowExpr l)) ->
  (forall op x, P x -> P (UnaryOperationExpr op x)) ->
  (forall f l, Forall P l -> P (FuncCallExpr f l)) ->
  (forall n, P (SubqueryExpr n)) ->
  (forall f l, Forall P l -> P (AggregateFuncExpr f l)) ->
  P ParamMarkerExpr ->
  forall e, P e.
Proof.
  intros Hv Hc Hb Hin Hp Hbt Hn Ht Hl Hr Hu Hf Hs Ha Hpm.
  fix IH 1. intros e.
  pose (all := fix all (l : list ExprNode) : Forall P l :=
          match l with
          | [] => Forall_nil P
          | x :: l' => Forall_cons x (IH x) (all l')
          end).
  destruct e.
  - apply Hv.
  - apply Hc.
  - apply Hb; apply IH.
  - apply Hin; [apply IH | apply all].
  - apply Hp; apply IH.
  - apply Hbt; apply IH.
  - apply Hn; apply IH.
  - apply Ht; apply IH.
  - apply Hl; apply IH.
  - apply Hr; apply all.
  - apply Hu; apply IH.
  - apply Hf; apply all.
  - apply Hs.
  - apply Ha; apply all.
  - apply Hpm.
Qed.

Section AcceptFacts.

Variable S : Type.
Variable v : Visitor S.

Lemma visitNode_ext (n1 n2 : Node) (c1 c2 : S -> S * bool) (st : S) :
  (forall s, Enter v s n1 = Enter v s n2) ->
  (forall s, Leave v s n1 = Leave v s n2) ->
  (forall s, c1 s = c2 s) ->
  visitNode v n1 c1 st = visitNode v n2 c2 st.
Proof.
  intros He Hl Hc. unfold visitNode. rewrite He.
  destruct (Enter v st n2) as [st1 skip]. destruct skip; [apply Hl|].
  rewrite Hc. destruct (c2 st1) as [st2 ok]. destruct ok; [apply Hl|].
  reflexivity.
Qed.

Lemma andThen_ext (f1 f2 g1 g2 : S -> S * bool) (st : S) :
  (forall s, f1 s = f2 s) -> (forall s, g1 s = g2 s) ->
  andThen f1 g1 st = andThen f2 g2 st.
Proof.
  intros Hf Hg. unfold andThen. rewrite Hf.
  destruct (f2 st) as [st' ok]. destruct ok; [apply Hg | reflexivity].
Qed.

Lemma acceptAll_map (A : Type) (acc : A -> S -> S * bool) (g : A -> A)
      (l : list A) :
  Forall (fun x => forall s, acc (g x) s = acc x s) l ->
  forall st, acceptAll acc (map g l) st = acceptAll acc l st.
Proof.
  induction 1 as [|x l Hx _ IH]; intros st; [reflexivity|].
  simpl. rewrite Hx. destruct (acc x st) as [st' ok].
  destruct ok; [apply IH | reflexivity].
Qed.

Lemma acceptOpt_map (A : Type) (acc : A -> S -> S * bool) (g : A -> A)
      (o : option A) :
  (forall x s, acc (g x) s = acc x s) ->
  forall st, acceptOpt acc (option_map g o) st = acceptOpt acc o st.
Proof. intros H st. destruct o; simpl; [apply H | reflexivity]. Qed.

End AcceptFacts.

(** The support checker reads the type of an expression node, nothing
    else. *)
Lemma supportChecker_Enter_setNot (b : bool) (e : ExprNode)
      (c : supportChecker) :
  supportChecker_Enter c (NodeExpr (setNot b e))
  = supportChecker_Enter c (NodeExpr e).
Proof. destruct e; reflexivity. Qed.

Lemma acceptExpr_setNot (b : bool) (e : ExprNode) :
  forall c, acceptExpr supportVisitor (setNot b e) c
            = acceptExpr supportVisitor e c.
Proof.
  induction e using ExprNode_list_ind; intros c; simpl;
    try reflexivity;
    (apply visitNode_ext;
     [ intros s; simpl; reflexivity
     | intros s; reflexivity
     | intros s ]);
    repeat (apply andThen_ext; intros);
    auto using acceptAll_map.
Qed.

(** Induction over the operands of a join, the optional right operand
    included. *)
Lemma ResultSetNode_opt_ind (P : ResultSetNode -> Prop) :
  (forall src, P (TableSource src)) ->
  (forall l r on, P l -> (forall r', r = Some r' -> P r') ->
                  P (JoinNode l r on)) ->
  forall n, P n.
Proof.
  intros Hts Hj. fix IH 1. intros n. destruct n as [src | l r on].
  - apply Hts.
  - apply Hj; [apply IH|].
    destruct r as [r|]; intros r' Hr; [|discriminate].
    injection Hr as <-. apply IH.
Qed.

Lemma acceptResultSet_setNot (b : bool) (n : ResultSetNode) :
  forall c, acceptResultSet supportVisitor (setNotResultSet b n) c
            = acceptResultSet supportVisitor n c.
Proof.
  induction n as [src | l r on IHl IHr] using ResultSetNode_opt_ind;
    intros c; [reflexivity|].
  simpl. apply visitNode_ext.
  - intros s. simpl. destruct r; simpl; [reflexivity|].
    destruct l; reflexivity.
  - intros s. reflexivity.
  - intros s. apply andThen_ext; [exact IHl|].
    intros s'. apply andThen_ext.
    + intros s''. destruct r as [r|]; simpl; [|reflexivity].
      apply (IHr r eq_refl).
    + apply acceptOpt_map. intros x. apply acceptExpr_setNot.
Qed.

Lemma acceptByItems_setNot (b : bool) (items : list ExprNode) :
  forall c, acceptAll (acceptByItem supportVisitor) (map (setNot b) items) c
            = acceptAll (acceptByItem supportVisitor) items c.
Proof.
  apply acceptAll_map. apply Forall_forall. intros x _ s.
  unfold acceptByItem. apply visitNode_ext; try reflexivity.
  apply acceptExpr_setNot.
Qed.

Lemma acceptSelect_setNot (b : bool) (s : SelectStmt) :
  forall c, acceptSelect supportVisitor (setNotSelect b s) c
            = acceptSelect supportVisitor s c.
Proof.
  intros c. unfold acceptSelect. destruct s as [d fr wh fl gb hv ob lm fu].
  cbn [Distinct From Where FieldList GroupBy Having OrderBy LimitOf
       ForUpdate setNotSelect].
  apply visitNode_ext; try reflexivity. intros s0.
  apply andThen_ext.
  { intros s1. destruct fr as [j|]; simpl; [|reflexivity].
    apply visitNode_ext; try reflexivity.
    intros s2. apply (acceptResultSet_setNot b (joinNode j)). }
  intros s1. apply andThen_ext.
  { apply acceptOpt_map. intros x. apply acceptExpr_setNot. }
  intros s2. apply andThen_ext.
  { intros s3. apply visitNode_ext; try reflexivity.
    apply acceptAll_map. apply Forall_forall. intros f _ s4.
    unfold acceptSelectField. apply visitNode_ext; try reflexivity.
    intros s5. destruct f as [w [e|]]; simpl; [|reflexivity].
    apply acceptExpr_setNot. }
  intros s3. apply andThen_ext.
  { intros s4. destruct gb as [items|]; simpl; [|reflexivity].
    apply visitNode_ext; try reflexivity. apply acceptByItems_setNot. }
  intros s4. apply andThen_ext.
  { intros s5. destruct hv as [e|]; simpl; [|reflexivity].
    apply visitNode_ext; try reflexivity. apply acceptExpr_setNot. }
  intros s5. apply andThen_ext.
  { intros s6. destruct ob as [items|]; simpl; [|reflexivity].
    apply visitNode_ext; try reflexivity. apply acceptByItems_setNot. }
  reflexivity.
Qed.

(** The verdict of the support checker does not depend on the Not flags
    of the IN and LIKE expressions of the statement. *)
Lemma Supported_setNot (b : bool) (n : StmtNode) :
  Supported (setNotStmt b n) = Supported n.
Proof.
  destruct n as [s| | |]; try reflexivity.
  unfold Supported. simpl. rewrite acceptSelect_setNot. reflexivity.
Qed.

(** build panics exactly when it reaches a panic branch. *)
Lemma build_panics_iff (Compare : value -> value -> option comparison)
      (slotOf : ExprNode -> value) (e : ExprNode) :
  forall r, isPanic (build Compare slotOf r e) = reachesPanic slotOf e.
Proof.
  induction e; intros r; try reflexivity.
  - (* binary operation *)
    destruct op; try (simpl; destruct (isValueExpr e1); reflexivity).
    + simpl. specialize (IHe1 r).
      destruct (build Compare slotOf r e1) as [[a r1]|] eqn:H1; simpl in *.
      * rewrite <- IHe1. simpl. specialize (IHe2 r1).
        destruct (build Compare slotOf r1 e2) as [[b0 r2]|]; simpl in *.
        -- rewrite <- IHe2. unfold intersection, merge.
           destruct (sortPoints Compare (a ++ b0)) as [pts [err|]];
             reflexivity.
        -- exact IHe2.
      * rewrite <- IHe1. reflexivity.
    + simpl. specialize (IHe1 r).
      destruct (build Compare slotOf r e1) as [[a r1]|] eqn:H1; simpl in *.
      * rewrite <- IHe1. simpl. specialize (IHe2 r1).
        destruct (build Compare slotOf r1 e2) as [[b0 r2]|]; simpl in *.
        -- rewrite <- IHe2. unfold union, merge.
           destruct (sortPoints Compare (a ++ b0)) as [pts [err|]];
             reflexivity.
        -- exact IHe2.
      * rewrite <- IHe1. reflexivity.
  - (* IN *)
    simpl. destruct Not; reflexivity.
  - (* parentheses *)
    simpl. apply IHe.
  - (* LIKE *)
    simpl. destruct Not; [reflexivity|]. simpl.
    unfold buildFromPatternLike.
    destruct (GetValue slotOf e2); try reflexivity.
    simpl. destruct (likePrefix (list_ascii_of_string s)) as [[|c low] ex];
      reflexivity.
Qed.

(** C3, as the claim states it, fails: [SELECT a FROM test.t WHERE a NOT
    IN (1)] passes the support checker, and build panics on its WHERE
    clause. *)
Lemma Supported_accepts_not_in :
  Supported (selectFromT (Some (PatternInExpr colA [lit 1] true))) = true /\
  buildStd (PatternInExpr colA [lit 1] true) = Panic "Should not happen".
Proof. split; reflexivity. Qed.

(** C3 (amended): the support checker does not look at NOT IN and NOT
    LIKE: its verdict on a statement is the same whatever the Not flags
    of the IN and LIKE expressions in it.  The range builder panics
    exactly when, through AND, OR and parentheses, it arrives at an IN or
    LIKE with Not set (or at a LIKE whose pattern is not a string), so
    keeping such expressions away from build is left to its caller. *)
Theorem Supported_ignores_Not_build_panics_on_it
        (Compare : value -> value -> option comparison)
        (slotOf : ExprNode -> value) (b : bool) (n : StmtNode)
        (r : rangeBuilder) (e : ExprNode) :
  Supported (setNotStmt b n) = Supported n /\
  isPanic (build Compare slotOf r e) = reachesPanic slotOf e.
Proof.
  split; [apply Supported_setNot | apply build_panics_iff].
Qed.

(** ** The range builder covers the values an expression is true on *)

Section RangeSoundness.

Variable Compare : value -> value -> option comparison.
Variable dom : value -> bool.
Hypothesis Htot : TotalOn Compare dom.

Lemma vcmp_cls (a b : value) :
  vcmp Compare a b
  = if cls a <? cls b then Some Lt
    else if cls b <? cls a then Some Gt
    else if cls a =? 2 then Compare a b
    else Some Eq.
Proof. destruct a, b; reflexivity. Qed.

Lemma okv_cls (a : value) :
  okv dom a = true -> cls a = 2 -> dom a = true.
Proof.
  unfold okv. destruct a; simpl; try discriminate; auto.
Qed.

Lemma dom_cls (a : value) : dom a = true -> cls a = 2.
Proof.
  intros H. destruct (dom_concrete Htot a H) as [H1 [H2 H3]].
  destruct a; simpl in *; try discriminate; reflexivity.
Qed.

Lemma probe_okv (v : value) : probe dom v = true -> okv dom v = true.
Proof.
  unfold probe, okv. destruct (isNil v); simpl; [reflexivity|].
  intros ->. apply orb_true_r.
Qed.

Lemma vcmp_total (a b : value) :
  okv dom a = true -> okv dom b = true -> vcmp Compare a b <> None.
Proof.
  intros Ha Hb. rewrite vcmp_cls.
  destruct (cls a <? cls b) eqn:H1; [discriminate|].
  destruct (cls b <? cls a) eqn:H2; [discriminate|].
  destruct (cls a =? 2) eqn:H3; [|discriminate].
  apply Z.ltb_ge in H1, H2. apply Z.eqb_eq in H3.
  apply (cmp_total Htot); apply okv_cls; auto; lia.
Qed.

Lemma vcmp_refl (a : value) : okv dom a = true -> vcmp Compare a a = Some Eq.
Proof.
  intros Ha. rewrite vcmp_cls. rewrite Z.ltb_irrefl.
  destruct (cls a =? 2) eqn:H3; [|reflexivity].
  apply Z.eqb_eq in H3. apply (cmp_refl Htot). apply okv_cls; auto.
Qed.

Lemma vcmp_opp (a b : value) :
  okv dom a = true -> okv dom b = true ->
  vcmp Compare b a = option_map CompOpp (vcmp Compare a b).
Proof.
  intros Ha Hb. rewrite !vcmp_cls.
  destruct (cls a <? cls b) eqn:H1; destruct (cls b <? cls a) eqn:H2;
    try reflexivity.
  - apply Z.ltb_lt in H1, H2. lia.
  - apply Z.ltb_ge in H1, H2. assert (Heq : cls a = cls b) by lia.
    rewrite Heq. destruct (cls b =? 2) eqn:H3; [|reflexivity].
    apply Z.eqb_eq in H3.
    apply (cmp_opp Htot); apply okv_cls; auto; lia.
Qed.

Lemma vcmp_eq (a b c : value) :
  okv dom a = true -> okv dom b = true -> okv dom c = true ->
  vcmp Compare a b = Some Eq -> vcmp Compare a c = vcmp Compare b c.
Proof.
  intros Ha Hb Hc. rewrite !vcmp_cls.
  destruct (cls a <? cls b) eqn:H1; [discriminate|].
  destruct (cls b <? cls a) eqn:H2; [discriminate|].
  apply Z.ltb_ge in H1, H2. assert (Heq : cls a = cls b) by lia.
  rewrite Heq. intros Hab.
  destruct (cls b <? cls c) eqn:H4; [reflexivity|].
  destruct (cls c <? cls b) eqn:H5; [reflexivity|].
  destruct (cls b =? 2) eqn:H3; [|reflexivity].
  apply Z.ltb_ge in H4, H5. apply Z.eqb_eq in H3.
  apply (cmp_eq Htot); try (apply okv_cls; auto; lia). exact Hab.
Qed.

Lemma vcmp_lt_trans (a b c : value) :
  okv dom a = true -> okv dom b = true -> okv dom c = true ->
  vcmp Compare a b = Some Lt -> vcmp Compare b c = Some Lt ->
  vcmp Compare a c = Some Lt.
Proof.
  intros Ha Hb Hc. rewrite !vcmp_cls.
  destruct (cls a <? cls b) eqn:H1.
  - intros _. destruct (cls b <? cls c) eqn:H2.
    + intros _. apply Z.ltb_lt in H1, H2.
      assert (H : (cls a <? cls c) = true) by (apply Z.ltb_lt; lia).
      rewrite H. reflexivity.
    + destruct (cls c <? cls b) eqn:H3; [discriminate|].
      apply Z.ltb_lt in H1. apply Z.ltb_ge in H2, H3.
      assert (H : (cls a <? cls c) = true) by (apply Z.ltb_lt; lia).
      rewrite H. reflexivity.
  - destruct (cls b <? cls a) eqn:H2; [discriminate|].
    apply Z.ltb_ge in H1, H2. assert (Heq : cls a = cls b) by lia.
    rewrite Heq.
    destruct (cls b =? 2) eqn:H3; [|discriminate].
    intros Hab.
    destruct (cls b <? cls c) eqn:H4; [reflexivity|].
    destruct (cls c <? cls b) eqn:H5; [discriminate|].
    apply Z.eqb_eq in H3. apply Z.ltb_ge in H4, H5.
    apply (cmp_lt_trans Htot); try (apply okv_cls; auto; lia).
    exact Hab.
Qed.


(** *** The sorter against the left-of relation *)

Lemma Less_vcmp (x y : rangePoint) :
  Less Compare x y
  = match vcmp Compare (pvalue x) (pvalue y) with
    | Some Lt => (true, None)
    | Some Eq => (equalValueLess x y, None)
    | Some Gt => (false, None)
    | None => (true, Some ErrCompare)
    end.
Proof.
  unfold Less. destruct (pvalue x), (pvalue y); simpl; try reflexivity.
Qed.

Lemma Less_no_error (x y : rangePoint) :
  okp dom x = true -> okp dom y = true -> snd (Less Compare x y) = None.
Proof.
  intros Hx Hy. rewrite Less_vcmp.
  pose proof (vcmp_total _ _ Hx Hy) as Ht.
  destruct (vcmp Compare (pvalue x) (pvalue y)) as [[| |]|];
    try reflexivity. congruence.
Qed.

(** When [x] is Less than [y], every column value that has [y] on its
    left has [x] on its left. *)
Lemma less_before (x y : rangePoint) (v : value) :
  okp dom x = true -> okp dom y = true -> probe dom v = true ->
  less Compare x y = true ->
  before Compare v y = true -> before Compare v x = true.
Proof.
  intros Hx Hy Hv. apply probe_okv in Hv.
  unfold less. rewrite Less_vcmp. unfold before.
  destruct (vcmp Compare (pvalue x) (pvalue y)) as [[| |]|] eqn:Hxy; simpl.
  - rewrite (vcmp_eq _ _ v Hx Hy Hv Hxy).
    destruct (vcmp Compare (pvalue y) v) as [[| |]|]; try discriminate; auto.
    unfold equalValueLess.
    destruct (start x), (excl x), (start y), (excl y); simpl; congruence.
  - intros _.
    destruct (vcmp Compare (pvalue y) v) as [[| |]|] eqn:Hyv;
      try discriminate; intros _.
    + assert (H : vcmp Compare (pvalue y) (pvalue x) = Some Gt).
      { rewrite (vcmp_opp _ _ Hx Hy), Hxy. reflexivity. }
      assert (H2 : vcmp Compare (pvalue x) v = Some Lt).
      { pose proof (vcmp_eq _ _ (pvalue x) Hy Hv Hx Hyv) as He.
        rewrite H in He.
        rewrite (vcmp_opp _ _ Hv Hx), <- He. reflexivity. }
      rewrite H2. reflexivity.
    + rewrite (vcmp_lt_trans _ _ _ Hx Hy Hv Hxy Hyv). reflexivity.
  - discriminate.
  - elim (vcmp_total _ _ Hx Hy Hxy).
Qed.

(** When [x] is not Less than [y], every column value that has [x] on its
    left has [y] on its left. *)
Lemma not_less_before (x y : rangePoint) (v : value) :
  okp dom x = true -> okp dom y = true -> probe dom v = true ->
  less Compare x y = false ->
  before Compare v x = true -> before Compare v y = true.
Proof.
  intros Hx Hy Hv. apply probe_okv in Hv.
  unfold less. rewrite Less_vcmp. unfold before.
  destruct (vcmp Compare (pvalue x) (pvalue y)) as [[| |]|] eqn:Hxy; simpl.
  - rewrite (vcmp_eq _ _ v Hx Hy Hv Hxy).
    destruct (vcmp Compare (pvalue y) v) as [[| |]|]; try discriminate; auto.
    unfold equalValueLess.
    destruct (start x), (excl x), (start y), (excl y); simpl; congruence.
  - discriminate.
  - intros _.
    assert (Hyx : vcmp Compare (pvalue y) (pvalue x) = Some Lt).
    { rewrite (vcmp_opp _ _ Hx Hy), Hxy. reflexivity. }
    destruct (vcmp Compare (pvalue x) v) as [[| |]|] eqn:Hxv;
      try discriminate; intros _.
    + assert (H2 : vcmp Compare (pvalue y) v = Some Lt).
      { assert (Hvx : vcmp Compare v (pvalue x) = Some Eq).
        { rewrite (vcmp_opp _ _ Hx Hv), Hxv. reflexivity. }
        pose proof (vcmp_eq _ _ (pvalue y) Hv Hx Hy Hvx) as He.
        assert (Hxy' : vcmp Compare (pvalue x) (pvalue y) = Some Gt)
          by exact Hxy.
        rewrite Hxy' in He.
        rewrite (vcmp_opp _ _ Hv Hy), He. reflexivity. }
      rewrite H2. reflexivity.
    + rewrite (vcmp_lt_trans _ _ _ Hy Hx Hv Hyx Hxv). reflexivity.
  - discriminate.
Qed.


(** *** The insertion sort *)

Lemma insertPoint_sum (f : rangePoint -> Z) (x : rangePoint)
      (rp : list rangePoint) :
  forall err, sumOf f (fst (insertPoint Compare x rp err)) = f x + sumOf f rp.
Proof.
  induction rp as [|y rest IH]; intros err; simpl; [reflexivity|].
  destruct (Less Compare x y) as [b e]. destruct b; simpl; [|reflexivity].
  specialize (IH (setErr err e)).
  destruct (insertPoint Compare x rest (setErr err e)) as [rest' err'].
  simpl in *. rewrite IH. lia.
Qed.

Lemma insertPoint_forallb (g : rangePoint -> bool) (x : rangePoint)
      (rp : list rangePoint) :
  forall err, forallb g (fst (insertPoint Compare x rp err))
              = g x && forallb g rp.
Proof.
  induction rp as [|y rest IH]; intros err; simpl; [reflexivity|].
  destruct (Less Compare x y) as [b e]. destruct b; simpl; [|reflexivity].
  specialize (IH (setErr err e)).
  destruct (insertPoint Compare x rest (setErr err e)) as [rest' err'].
  simpl in *. rewrite IH.
  destruct (g x), (g y); reflexivity.
Qed.

Lemma insertPoint_no_error (x : rangePoint) (rp : list rangePoint) :
  okp dom x = true -> forallb (okp dom) rp = true ->
  forall err, snd (insertPoint Compare x rp err) = err.
Proof.
  intros Hx. induction rp as [|y rest IH]; intros Hrp err; simpl;
    [reflexivity|].
  simpl in Hrp. apply andb_true_iff in Hrp. destruct Hrp as [Hy Hrest].
  pose proof (Less_no_error x y Hx Hy) as He.
  destruct (Less Compare x y) as [b e]. simpl in He. subst e.
  destruct b; simpl; [|reflexivity].
  specialize (IH Hrest err). simpl.
  destruct (insertPoint Compare x rest err) as [rest' err'].
  exact IH.
Qed.

Lemma lowerSet_before (v : value) :
  probe dom v = true -> lowerSet Compare dom (before Compare v).
Proof.
  intros Hv x y Hx Hy. split.
  - apply less_before; assumption.
  - apply not_less_before; assumption.
Qed.

Lemma insertPoint_rsorted (bf : rangePoint -> bool) (x : rangePoint)
      (rp : list rangePoint) :
  lowerSet Compare dom bf ->
  okp dom x = true -> forallb (okp dom) rp = true ->
  rsortedBy bf rp = true ->
  forall err, rsortedBy bf (fst (insertPoint Compare x rp err)) = true.
Proof.
  intros Hbf Hx. induction rp as [|y rest IH]; intros Hrp Hs err; simpl.
  - destruct (bf x); reflexivity.
  - simpl in Hrp. apply andb_true_iff in Hrp. destruct Hrp as [Hy Hrest].
    destruct (Hbf x y Hx Hy) as [Hl Hnl].
    unfold less in Hl, Hnl.
    destruct (Less Compare x y) as [b e]. simpl in Hl, Hnl.
    destruct b.
    + pose proof (insertPoint_forallb bf x rest (setErr err e)) as Hall.
      specialize (IH Hrest).
      destruct (insertPoint Compare x rest (setErr err e))
        as [rest' err'] eqn:Hi.
      simpl in *.
      destruct (bf y) eqn:Hby.
      * rewrite Hall, Hs, (Hl eq_refl eq_refl). reflexivity.
      * specialize (IH Hs (setErr err e)). rewrite Hi in IH. exact IH.
    + simpl. destruct (bf x) eqn:Hbx.
      * rewrite (Hnl eq_refl eq_refl). simpl.
        simpl in Hs. rewrite (Hnl eq_refl eq_refl) in Hs. exact Hs.
      * exact Hs.
Qed.

Lemma sumOf_app (f : rangePoint -> Z) (l1 l2 : list rangePoint) :
  sumOf f (l1 ++ l2) = sumOf f l1 + sumOf f l2.
Proof.
  induction l1 as [|x l1 IH]; simpl; [reflexivity|]. rewrite IH. lia.
Qed.

Lemma sumOf_rev (f : rangePoint -> Z) (l : list rangePoint) :
  sumOf f (rev l) = sumOf f l.
Proof.
  induction l as [|x l IH]; simpl; [reflexivity|].
  rewrite sumOf_app, IH. simpl. lia.
Qed.

Lemma forallb_rev (g : rangePoint -> bool) (l : list rangePoint) :
  forallb g (rev l) = forallb g l.
Proof.
  induction l as [|x l IH]; simpl; [reflexivity|].
  rewrite forallb_app, IH. simpl. destruct (g x), (forallb g l); reflexivity.
Qed.

Lemma sortedBy_all (bf : rangePoint -> bool) (l : list rangePoint) :
  forallb bf l = true -> sortedBy bf l = true.
Proof.
  induction l as [|x l IH]; simpl; [reflexivity|].
  intros H. apply andb_true_iff in H. destruct H as [Hx Hl].
  rewrite Hx. apply IH. exact Hl.
Qed.

Lemma sortedBy_snoc (bf : rangePoint -> bool) (l : list rangePoint)
      (p : rangePoint) :
  sortedBy bf l = true -> bf p = false -> sortedBy bf (l ++ [p]) = true.
Proof.
  intros Hl Hp. induction l as [|x l IH]; simpl.
  - rewrite Hp. reflexivity.
  - simpl in Hl. destruct (bf x); [apply IH; exact Hl|].
    rewrite forallb_app, Hl. simpl. rewrite Hp. reflexivity.
Qed.

Lemma rsortedBy_rev (bf : rangePoint -> bool) (rp : list rangePoint) :
  rsortedBy bf rp = true -> sortedBy bf (rev rp) = true.
Proof.
  induction rp as [|p rp IH]; simpl; [reflexivity|].
  destruct (bf p) eqn:Hp; intros H.
  - apply sortedBy_all. rewrite forallb_app, forallb_rev, H.
    simpl. rewrite Hp. reflexivity.
  - apply sortedBy_snoc; [apply IH; exact H | exact Hp].
Qed.

Lemma sortLoop_sum (f : rangePoint -> Z) (todo : list rangePoint) :
  forall rp err,
    sumOf f (fst (sortLoop Compare todo rp err)) = sumOf f todo + sumOf f rp.
Proof.
  induction todo as [|x todo IH]; intros rp err; simpl.
  - apply sumOf_rev.
  - pose proof (insertPoint_sum f x rp err) as Hi.
    destruct (insertPoint Compare x rp err) as [rp' err'].
    rewrite IH. simpl in Hi. lia.
Qed.

Lemma sortLoop_forallb (g : rangePoint -> bool) (todo : list rangePoint) :
  forall rp err,
    forallb g (fst (sortLoop Compare todo rp err))
    = forallb g todo && forallb g rp.
Proof.
  induction todo as [|x todo IH]; intros rp err; simpl.
  - apply forallb_rev.
  - pose proof (insertPoint_forallb g x rp err) as Hi.
    destruct (insertPoint Compare x rp err) as [rp' err'].
    rewrite IH. simpl in Hi. rewrite Hi.
    destruct (g x), (forallb g todo); reflexivity.
Qed.

Lemma sortLoop_no_error (todo : list rangePoint) :
  forall rp err,
    forallb (okp dom) todo = true -> forallb (okp dom) rp = true ->
    snd (sortLoop Compare todo rp err) = err.
Proof.
  induction todo as [|x todo IH]; intros rp err Ht Hrp; simpl;
    [reflexivity|].
  simpl in Ht. apply andb_true_iff in Ht. destruct Ht as [Hx Ht].
  pose proof (insertPoint_no_error x rp Hx Hrp err) as He.
  pose proof (insertPoint_forallb (okp dom) x rp err) as Ha.
  destruct (insertPoint Compare x rp err) as [rp' err'].
  simpl in He, Ha. subst err'. apply IH; [exact Ht|].
  rewrite Ha, Hx, Hrp. reflexivity.
Qed.

Lemma sortLoop_sorted (bf : rangePoint -> bool) (todo : list rangePoint) :
  lowerSet Compare dom bf ->
  forall rp err,
    forallb (okp dom) todo = true -> forallb (okp dom) rp = true ->
    rsortedBy bf rp = true ->
    sortedBy bf (fst (sortLoop Compare todo rp err)) = true.
Proof.
  intros Hbf.
  induction todo as [|x todo IH]; intros rp err Ht Hrp Hs; simpl.
  - apply rsortedBy_rev. exact Hs.
  - simpl in Ht. apply andb_true_iff in Ht. destruct Ht as [Hx Ht].
    pose proof (insertPoint_rsorted bf x rp Hbf Hx Hrp Hs err) as Hr.
    pose proof (insertPoint_forallb (okp dom) x rp err) as Ha.
    destruct (insertPoint Compare x rp err) as [rp' err'].
    simpl in Hr, Ha. apply IH; [exact Ht| |exact Hr].
    rewrite Ha, Hx, Hrp. reflexivity.
Qed.

(** What sort.Sort does to a list of sound points: no error, the same
    points, and every set that is closed downwards under Less comes
    first. *)
Lemma sortPoints_spec (l : list rangePoint) :
  forallb (okp dom) l = true ->
  exists s,
    sortPoints Compare l = (s, None) /\
    (forall g, forallb g s = forallb g l) /\
    (forall f, sumOf f s = sumOf f l) /\
    (forall bf, lowerSet Compare dom bf -> sortedBy bf s = true).
Proof.
  intros Hl. unfold sortPoints.
  exists (fst (sortLoop Compare l [] None)). repeat split.
  - pose proof (sortLoop_no_error l [] None Hl eq_refl) as He.
    destruct (sortLoop Compare l [] None) as [s e]. simpl in *.
    subst e. reflexivity.
  - intros g. rewrite sortLoop_forallb. simpl. apply andb_true_r.
  - intros f. rewrite sortLoop_sum. simpl. lia.
  - intros bf Hbf. apply sortLoop_sorted; auto.
Qed.

(** *** The sweep *)

Ltac zbool_cases :=
  repeat match goal with
         | |- context [?a <=? ?b] => destruct (Z.leb_spec a b)
         | |- context [?a =? ?b] => destruct (Z.eqb_spec a b)
         end.

Lemma delta_cons (x : rangePoint) (l : list rangePoint) :
  delta (x :: l) = weight x + delta l.
Proof. reflexivity. Qed.

Lemma delta_app (l1 l2 : list rangePoint) :
  delta (l1 ++ l2) = delta l1 + delta l2.
Proof. apply sumOf_app. Qed.

Lemma sweep_cons (t c : Z) (x : rangePoint) (l : list rangePoint) :
  sweep t c (x :: l)
  = (if (if start x then c + 1 else c) =? t then [x] else [])
    ++ sweep t (c + weight x) l.
Proof.
  simpl. unfold weight. destruct (start x).
  - destruct (c + 1 =? t); reflexivity.
  - replace (c + -1) with (c - 1) by lia.
    destruct (c =? t); reflexivity.
Qed.

Lemma sweep_app (t : Z) (l1 l2 : list rangePoint) :
  forall c, sweep t c (l1 ++ l2)
            = sweep t c l1 ++ sweep t (c + delta l1) l2.
Proof.
  induction l1 as [|x l1 IH]; intros c.
  - simpl. f_equal. unfold delta. simpl. lia.
  - rewrite <- app_comm_cons, !sweep_cons, IH, delta_cons.
    rewrite <- app_assoc. do 3 f_equal. lia.
Qed.

(** The emitted points balance exactly when the sweep ends on the side of
    the threshold it started on. *)
Lemma delta_if (b : bool) (x : rangePoint) :
  delta (if b then [x] else []) = if b then weight x else 0.
Proof. destruct b; unfold delta; simpl; lia. Qed.

Lemma delta_sweep (t : Z) (l : list rangePoint) :
  forall c, delta (sweep t c l)
            = ind (t <=? c + delta l) - ind (t <=? c).
Proof.
  induction l as [|x l IH]; intros c.
  - simpl. unfold delta. simpl. replace (c + 0) with c by lia. lia.
  - rewrite sweep_cons, delta_app, IH, delta_cons, delta_if.
    generalize (delta l) as d. intros d.
    unfold weight, ind. destruct (start x); zbool_cases; lia.
Qed.

(** The emitted points alternate, and the first one is a start exactly
    when the sweep begins below the threshold. *)
Lemma altFrom_sweep (t : Z) (l : list rangePoint) :
  forall c, altFrom (negb (t <=? c)) (sweep t c l) = true.
Proof.
  induction l as [|x l IH]; intros c; [reflexivity|].
  rewrite sweep_cons. specialize (IH (c + weight x)). revert IH.
  unfold weight. destruct (start x) eqn:Hs.
  - destruct (Z.eqb_spec (c + 1) t) as [He|He];
      cbn [app altFrom]; try rewrite Hs;
      destruct (Z.leb_spec t (c + 1)); destruct (Z.leb_spec t c);
      cbn [negb Bool.eqb andb]; try lia; auto.
  - destruct (Z.eqb_spec c t) as [He|He];
      cbn [app altFrom]; try rewrite Hs;
      destruct (Z.leb_spec t (c + -1)); destruct (Z.leb_spec t c);
      cbn [negb Bool.eqb andb]; try lia; auto.
Qed.

Lemma forallb_sweep (g : rangePoint -> bool) (t : Z) (l : list rangePoint) :
  forallb g l = true -> forall c, forallb g (sweep t c l) = true.
Proof.
  induction l as [|x l IH]; intros H c; [reflexivity|].
  simpl in H. apply andb_true_iff in H. destruct H as [Hx Hl].
  rewrite sweep_cons, forallb_app, (IH Hl).
  destruct (_ =? t); simpl; [rewrite Hx|]; reflexivity.
Qed.


(** *** Covering and counting *)

Lemma aboveLow_start (p : rangePoint) (v : value) :
  start p = true -> aboveLow Compare p v = before Compare v p.
Proof.
  intros Hs. unfold aboveLow, before. rewrite Hs.
  destruct (vcmp Compare (pvalue p) v) as [[| |]|]; try reflexivity.
  destruct (excl p); reflexivity.
Qed.

Lemma belowHigh_end (p : rangePoint) (v : value) :
  okp dom p = true -> probe dom v = true -> start p = false ->
  belowHigh Compare p v = negb (before Compare v p).
Proof.
  intros Hp Hv Hs. apply probe_okv in Hv.
  unfold belowHigh, before. rewrite Hs, (vcmp_opp _ _ Hp Hv).
  pose proof (vcmp_total _ _ Hp Hv) as Ht.
  destruct (vcmp Compare (pvalue p) v) as [[| |]|]; simpl;
    try reflexivity; try congruence.
  destruct (excl p); reflexivity.
Qed.

Lemma covers_cons2 (v : value) (s e : rangePoint) (l : list rangePoint) :
  covers Compare v (s :: e :: l)
  = aboveLow Compare s v && belowHigh Compare e v || covers Compare v l.
Proof. reflexivity. Qed.

(** An odd run of alternating points left of [v], followed by an end
    point right of [v]: the last pair covers [v]. *)
Lemma covers_open (v : value) (e : rangePoint) (r : list rangePoint)
      (l : list rangePoint) :
  probe dom v = true -> okp dom e = true ->
  start e = false -> before Compare v e = false ->
  altFrom true l = true -> delta l = 1 ->
  forallb (before Compare v) l = true ->
  covers Compare v (l ++ e :: r) = true.
Proof.
  intros Hv He Hse Hbe.
  induction l as [|s|s e' l IH] using list_pair_ind; intros Halt Hd Hb.
  - discriminate.
  - simpl in Halt, Hb. rewrite andb_true_r in Halt, Hb.
    apply eqb_prop in Halt.
    cbn [app]. rewrite covers_cons2, (aboveLow_start _ _ Halt), Hb.
    rewrite (belowHigh_end _ _ He Hv Hse), Hbe. reflexivity.
  - cbn [altFrom negb] in Halt.
    apply andb_true_iff in Halt. destruct Halt as [Hs Halt].
    apply andb_true_iff in Halt. destruct Halt as [He' Halt].
    apply eqb_prop in Hs, He'.
    rewrite !delta_cons in Hd. unfold weight in Hd. rewrite Hs, He' in Hd.
    cbn [forallb] in Hb.
    apply andb_true_iff in Hb. destruct Hb as [_ Hb].
    apply andb_true_iff in Hb. destruct Hb as [_ Hb].
    cbn [app]. rewrite covers_cons2.
    rewrite IH; [apply orb_true_r | exact Halt | lia | exact Hb].
Qed.

(** A balanced run of alternating sound points left of [v] covers
    nothing at [v]. *)
Lemma covers_closed (v : value) (l2 : list rangePoint)
      (l : list rangePoint) :
  probe dom v = true ->
  altFrom true l = true -> delta l = 0 ->
  forallb (okp dom) l = true ->
  forallb (before Compare v) l = true ->
  covers Compare v (l ++ l2) = covers Compare v l2.
Proof.
  intros Hv.
  induction l as [|s|s e' l IH] using list_pair_ind; intros Halt Hd Hok Hb.
  - reflexivity.
  - simpl in Halt. rewrite andb_true_r in Halt. apply eqb_prop in Halt.
    unfold delta in Hd. simpl in Hd. unfold weight in Hd.
    rewrite Halt in Hd. discriminate.
  - cbn [altFrom negb] in Halt.
    apply andb_true_iff in Halt. destruct Halt as [Hs Halt].
    apply andb_true_iff in Halt. destruct Halt as [He' Halt].
    apply eqb_prop in Hs, He'.
    rewrite !delta_cons in Hd. unfold weight in Hd. rewrite Hs, He' in Hd.
    cbn [forallb] in Hb, Hok.
    apply andb_true_iff in Hb. destruct Hb as [_ Hb].
    apply andb_true_iff in Hb. destruct Hb as [Hbe Hb].
    apply andb_true_iff in Hok. destruct Hok as [_ Hok].
    apply andb_true_iff in Hok. destruct Hok as [Hoe Hok].
    cbn [app]. rewrite covers_cons2.
    rewrite IH; [| exact Halt | lia | exact Hok | exact Hb].
    rewrite (belowHigh_end _ _ Hoe Hv He'), Hbe. simpl.
    rewrite andb_false_r. reflexivity.
Qed.

(** Alternating points right of [v] cover nothing at [v]. *)
Lemma covers_after (v : value) (l : list rangePoint) :
  altFrom true l = true ->
  forallb (fun q => negb (before Compare v q)) l = true ->
  covers Compare v l = false.
Proof.
  induction l as [|s|s e' l IH] using list_pair_ind; intros Halt Hb.
  - reflexivity.
  - reflexivity.
  - cbn [altFrom negb] in Halt.
    apply andb_true_iff in Halt. destruct Halt as [Hs Halt].
    apply andb_true_iff in Halt. destruct Halt as [_ Halt].
    apply eqb_prop in Hs.
    cbn [forallb] in Hb.
    apply andb_true_iff in Hb. destruct Hb as [Hbs Hb].
    apply andb_true_iff in Hb. destruct Hb as [_ Hb].
    rewrite covers_cons2, (aboveLow_start _ _ Hs).
    rewrite IH; [| exact Halt | exact Hb].
    apply negb_true_iff in Hbs. rewrite Hbs. reflexivity.
Qed.

(** A sorted list splits into the points of the set and the others. *)
Lemma sortedBy_split (bf : rangePoint -> bool) (l : list rangePoint) :
  sortedBy bf l = true ->
  exists pre post,
    l = pre ++ post /\
    forallb bf pre = true /\
    forallb (fun q => negb (bf q)) post = true.
Proof.
  induction l as [|x l IH]; simpl; intros H.
  - exists [], []. auto.
  - destruct (bf x) eqn:Hx.
    + destruct (IH H) as [pre [post [-> [Hpre Hpost]]]].
      exists (x :: pre), post. simpl. rewrite Hx. auto.
    + exists [], (x :: l). simpl. rewrite Hx. auto.
Qed.

Lemma count_before (v : value) (l : list rangePoint) :
  forallb (before Compare v) l = true -> count Compare v l = delta l.
Proof.
  unfold count, delta.
  induction l as [|x l IH]; simpl; [reflexivity|].
  intros H. apply andb_true_iff in H. destruct H as [Hx Hl].
  rewrite Hx, (IH Hl). reflexivity.
Qed.

Lemma count_after (v : value) (l : list rangePoint) :
  forallb (fun q => negb (before Compare v q)) l = true ->
  count Compare v l = 0.
Proof.
  unfold count.
  induction l as [|x l IH]; simpl; [reflexivity|].
  intros H. apply andb_true_iff in H. destruct H as [Hx Hl].
  apply negb_true_iff in Hx. rewrite Hx, (IH Hl). reflexivity.
Qed.

Lemma count_app (v : value) (l1 l2 : list rangePoint) :
  count Compare v (l1 ++ l2) = count Compare v l1 + count Compare v l2.
Proof. apply sumOf_app. Qed.

(** The sweep over a balanced list that is sorted for [v]: the output
    covers [v] exactly when at least [t] intervals of the input are open
    at [v], and then exactly one interval of the output is. *)
Lemma sweep_at (t : Z) (v : value) (l : list rangePoint) :
  1 <= t -> probe dom v = true ->
  forallb (okp dom) l = true -> delta l = 0 ->
  sortedBy (before Compare v) l = true ->
  covers Compare v (sweep t 0 l) = (t <=? count Compare v l) /\
  count Compare v (sweep t 0 l) = ind (t <=? count Compare v l).
Proof.
  intros Ht Hv Hok Hd Hs.
  destruct (sortedBy_split _ l Hs) as [pre [post [-> [Hpre Hpost]]]].
  rewrite forallb_app in Hok. apply andb_true_iff in Hok.
  destruct Hok as [Hokpre Hokpost].
  rewrite delta_app in Hd.
  rewrite count_app, (count_before v pre Hpre), (count_after v post Hpost).
  rewrite Z.add_0_r, sweep_app, Z.add_0_l.
  pose proof (delta_sweep t pre 0) as Hd1.
  pose proof (altFrom_sweep t pre 0) as Ha1.
  pose proof (delta_sweep t post (delta pre)) as Hd2.
  pose proof (altFrom_sweep t post (delta pre)) as Ha2.
  pose proof (forallb_sweep (before Compare v) t pre Hpre 0) as Hb1.
  pose proof (forallb_sweep _ t post Hpost (delta pre)) as Hb2.
  pose proof (forallb_sweep (okp dom) t pre Hokpre 0) as Ho1.
  pose proof (forallb_sweep (okp dom) t post Hokpost (delta pre)) as Ho2.
  rewrite count_app, (count_before v _ Hb1), (count_after v _ Hb2).
  rewrite Z.add_0_r, Z.add_0_l in *.
  assert (H0 : (t <=? 0) = false) by (apply Z.leb_gt; lia).
  rewrite H0 in Hd1, Ha1. simpl in Ha1. unfold ind in Hd1 at 2.
  rewrite Z.sub_0_r in Hd1.
  split; [|exact Hd1].
  destruct (Z.leb_spec t (delta pre)) as [Hle|Hgt].
  - (* open at v *)
    assert (H1 : (t <=? delta pre + delta post) = false)
      by (apply Z.leb_gt; lia).
    rewrite H1 in Hd2. simpl in Ha2, Hd2, Hd1.
    destruct (sweep t (delta pre) post) as [|e r] eqn:Hpost2.
    + unfold delta in Hd2. simpl in Hd2. discriminate.
    + simpl in Ha2, Hb2, Ho2.
      apply andb_true_iff in Ha2. destruct Ha2 as [Hse _].
      apply eqb_prop in Hse.
      apply andb_true_iff in Hb2. destruct Hb2 as [Hbe _].
      apply negb_true_iff in Hbe.
      apply andb_true_iff in Ho2. destruct Ho2 as [Hoe _].
      apply covers_open; auto.
  - (* closed at v *)
    simpl in Hd1, Ha2.
    rewrite (covers_closed v _ _ Hv Ha1 Hd1 Ho1 Hb1).
    apply covers_after; auto.
Qed.


(** *** Merge *)

(** rangeBuilder.merge on two well-counted lists: no error, a
    well-counted output, which covers a column value exactly when the
    required number of input intervals is open at it. *)
Lemma merge_wellCounted (r : rangeBuilder) (a b : list rangePoint)
      (u : bool) :
  wellCounted Compare dom a -> wellCounted Compare dom b ->
  exists out,
    merge Compare r a b u = (out, r) /\
    wellCounted Compare dom out /\
    forall v, probe dom v = true ->
      covers Compare v out
      = ((if u then 1 else 2) <=? count Compare v a + count Compare v b) /\
      count Compare v out
      = ind ((if u then 1 else 2) <=? count Compare v a + count Compare v b).
Proof.
  intros [Hoka [Hda Hca]] [Hokb [Hdb Hcb]].
  assert (Hok : forallb (okp dom) (a ++ b) = true)
    by (rewrite forallb_app, Hoka, Hokb; reflexivity).
  destruct (sortPoints_spec (a ++ b) Hok) as [s [Hsort [Hall [Hsum Hsorted]]]].
  set (t := if u then 1 else 2).
  assert (Ht : 1 <= t) by (unfold t; destruct u; lia).
  exists (sweep t 0 s).
  assert (Hoks : forallb (okp dom) s = true) by (rewrite Hall; exact Hok).
  assert (Hds : delta s = 0).
  { unfold delta. rewrite Hsum. fold (delta (a ++ b)).
    rewrite delta_app. lia. }
  assert (Hat : forall v, probe dom v = true ->
            covers Compare v (sweep t 0 s)
            = (t <=? count Compare v a + count Compare v b) /\
            count Compare v (sweep t 0 s)
            = ind (t <=? count Compare v a + count Compare v b)).
  { intros v Hv.
    assert (Hc : count Compare v s = count Compare v a + count Compare v b).
    { unfold count at 1. rewrite Hsum. fold (count Compare v (a ++ b)).
      apply count_app. }
    rewrite <- Hc.
    apply sweep_at; auto. apply Hsorted. apply lowerSet_before. exact Hv. }
  split; [|split].
  - unfold merge. rewrite Hsort. reflexivity.
  - split; [apply forallb_sweep; exact Hoks|]. split.
    + rewrite delta_sweep, Hds.
      assert (H0 : (t <=? 0) = false) by (apply Z.leb_gt; lia).
      rewrite Z.add_0_r, H0. reflexivity.
    + intros v Hv. destruct (Hat v Hv) as [Hcov Hcnt].
      rewrite Hcov, Hcnt. unfold ind.
      destruct (t <=? count Compare v a + count Compare v b); split;
        try lia; discriminate.
  - intros v Hv. apply (Hat v Hv).
Qed.


(** *** Lists of plain intervals *)

Lemma proper_before (s e : rangePoint) (v : value) :
  okp dom s = true -> okp dom e = true -> probe dom v = true ->
  start s = true ->
  match vcmp Compare (pvalue s) (pvalue e) with
  | Some Lt => true
  | Some Eq => negb (excl s)
  | _ => false
  end = true ->
  before Compare v e = true -> before Compare v s = true.
Proof.
  intros Hs He Hv Hst. apply probe_okv in Hv. unfold before. rewrite Hst.
  destruct (vcmp Compare (pvalue s) (pvalue e)) as [[| |]|] eqn:Hse;
    try discriminate; intros Hex.
  - rewrite (vcmp_eq _ _ v Hs He Hv Hse).
    destruct (vcmp Compare (pvalue e) v) as [[| |]|]; try discriminate; auto.
    intros _. apply negb_true_iff in Hex. rewrite Hex. reflexivity.
  - destruct (vcmp Compare (pvalue e) v) as [[| |]|] eqn:Hev;
      try discriminate; intros _.
    + assert (H : vcmp Compare (pvalue e) (pvalue s) = Some Gt).
      { rewrite (vcmp_opp _ _ Hs He), Hse. reflexivity. }
      pose proof (vcmp_eq _ _ (pvalue s) He Hv Hs Hev) as Heq.
      rewrite H in Heq.
      rewrite (vcmp_opp _ _ Hv Hs), <- Heq. reflexivity.
    + rewrite (vcmp_lt_trans _ _ _ Hs He Hv Hse Hev). reflexivity.
Qed.

Lemma count_cons (v : value) (p : rangePoint) (l : list rangePoint) :
  count Compare v (p :: l)
  = (if before Compare v p then weight p else 0) + count Compare v l.
Proof. reflexivity. Qed.

Lemma properPairs_wellCounted (l : list rangePoint) :
  properPairs Compare dom l = true -> wellCounted Compare dom l.
Proof.
  induction l as [|s|s e l IH] using list_pair_ind; intros Hp.
  - split; [reflexivity|]. split; [reflexivity|].
    intros v _. split; [unfold count; simpl; lia | intros H; discriminate H].
  - discriminate.
  - cbn [properPairs] in Hp.
    apply andb_true_iff in Hp. destruct Hp as [Hp HP].
    apply andb_true_iff in Hp. destruct Hp as [Hp HM].
    apply andb_true_iff in Hp. destruct Hp as [Hp Hoe].
    apply andb_true_iff in Hp. destruct Hp as [Hp Hos].
    apply andb_true_iff in Hp. destruct Hp as [Hss Hse].
    apply negb_true_iff in Hse.
    destruct (IH HP) as [Hok [Hd Hc]].
    split; [cbn [forallb]; rewrite Hos, Hoe, Hok; reflexivity|].
    split.
    { rewrite !delta_cons. unfold weight. rewrite Hss, Hse. lia. }
    intros v Hv. destruct (Hc v Hv) as [Hc0 Hc1].
    rewrite !count_cons, covers_cons2.
    rewrite (aboveLow_start _ _ Hss), (belowHigh_end _ _ Hoe Hv Hse).
    unfold weight. rewrite Hss, Hse.
    pose proof (proper_before s e v Hos Hoe Hv Hss HM) as Hb.
    destruct (before Compare v e) eqn:Hbe;
      destruct (before Compare v s) eqn:Hbs; cbn [negb andb orb].
    + split; [lia | intros H; specialize (Hc1 H); lia].
    + specialize (Hb eq_refl). discriminate Hb.
    + split; [lia | intros _; lia].
    + split; [lia | intros H; specialize (Hc1 H); lia].
Qed.


(** *** The evaluator *)

Variable ToBool : value -> option Z.
Hypothesis Htb : ToBoolAgrees Compare dom ToBool.

Lemma EvalBool_zero : EvalBool ToBool (Int64 0) = Some false.
Proof. unfold EvalBool. simpl. rewrite (toBool_zero Htb). reflexivity. Qed.

Lemma EvalBool_bool (b : bool) : EvalBool ToBool (Bool b) = Some b.
Proof.
  unfold EvalBool. simpl. rewrite (toBool_bool Htb). destruct b; reflexivity.
Qed.

Lemma EvalBool_boolToInt64 (b : bool) :
  EvalBool ToBool (boolToInt64 b) = Some true -> b = true.
Proof.
  destruct b; [reflexivity|]. simpl. rewrite EvalBool_zero. discriminate.
Qed.

Lemma dom_not_nil (d : value) : dom d = true -> isNil d = false.
Proof. intros H. apply (dom_concrete Htot d H). Qed.

Lemma EvalBool_dom (d : value) :
  dom d = true ->
  EvalBool ToBool d
  = Some (match Compare d (Int64 0) with Some Eq => false | _ => true end).
Proof.
  intros Hd. unfold EvalBool.
  rewrite (dom_not_nil d Hd), (toBool_dom Htb d Hd).
  destruct (Compare d (Int64 0)) as [[| |]|]; reflexivity.
Qed.

(** AND is true only when both operands are. *)
Lemma and_true (l r val : value) :
  binaryOperation Compare ToBool opcode.AndAnd l r = Some val ->
  EvalBool ToBool val = Some true ->
  EvalBool ToBool l = Some true /\ EvalBool ToBool r = Some true.
Proof.
  unfold binaryOperation, isFalse, EvalBool.
  destruct (isNil l) eqn:Hl; destruct (isNil r) eqn:Hr; simpl.
  - intros H. injection H as <-. discriminate.
  - destruct (ToBool r) as [y|]; [|discriminate].
    destruct (y =? 0); intros H; injection H as <-; simpl;
      [rewrite (toBool_zero Htb)|]; discriminate.
  - destruct (ToBool l) as [x|]; [|discriminate].
    destruct (x =? 0); simpl; intros H; injection H as <-; simpl;
      [rewrite (toBool_zero Htb)|]; discriminate.
  - destruct (ToBool l) as [x|]; [|discriminate].
    destruct (ToBool r) as [y|]; [|discriminate].
    destruct (x =? 0); destruct (y =? 0); simpl;
      intros H; injection H as <-; simpl;
      try (rewrite (toBool_zero Htb); discriminate).
    auto.
Qed.

(** OR is true only when one of the operands is. *)
Lemma or_true (l r val : value) :
  binaryOperation Compare ToBool opcode.OrOr l r = Some val ->
  EvalBool ToBool val = Some true ->
  EvalBool ToBool l = Some true \/ EvalBool ToBool r = Some true.
Proof.
  unfold binaryOperation, isTrue. fold (EvalBool ToBool l).
  fold (EvalBool ToBool r).
  destruct (EvalBool ToBool l) as [[|]|]; try discriminate; auto;
    destruct (EvalBool ToBool r) as [[|]|]; try discriminate; auto.
  simpl. destruct (isNil l || isNil r); intros H; injection H as <-.
  - discriminate.
  - rewrite EvalBool_zero. discriminate.
Qed.

(** A comparison is true only on a non-NULL value that compares as the
    operator asks. *)
Lemma compare_true (op : opcode.Op) (l r val : value) :
  isCompareOp op = true ->
  binaryOperation Compare ToBool op l r = Some val ->
  EvalBool ToBool val = Some true ->
  isNil l = false /\ isNil r = false /\
  exists c, Compare l r = Some c /\ getCompResult op c = true.
Proof.
  intros Hop.
  assert (H : binaryOperation Compare ToBool op l r
              = if isNil l || isNil r then Some Nil
                else match Compare l r with
                     | Some c => Some (boolToInt64 (getCompResult op c))
                     | None => None
                     end)
    by (destruct op; try discriminate; reflexivity).
  rewrite H. clear H.
  destruct (isNil l); destruct (isNil r); simpl;
    try (intros H; injection H as <-; discriminate).
  destruct (Compare l r) as [c|]; [|discriminate].
  intros H. injection H as <-. intros Hb.
  apply EvalBool_boolToInt64 in Hb. eauto.
Qed.

Arguments vcmp : simpl never.

(** *** Values against the sentinels *)

Lemma vcmp_dom (a b : value) :
  dom a = true -> dom b = true -> vcmp Compare a b = Compare a b.
Proof.
  intros Ha Hb. rewrite vcmp_cls, (dom_cls a Ha), (dom_cls b Hb).
  reflexivity.
Qed.

Lemma vcmp_min_dom (a : value) :
  dom a = true -> vcmp Compare MinNotNullVal a = Some Lt.
Proof. intros Ha. rewrite vcmp_cls, (dom_cls a Ha). reflexivity. Qed.

Lemma vcmp_dom_max (a : value) :
  dom a = true -> vcmp Compare a MaxVal = Some Lt.
Proof. intros Ha. rewrite vcmp_cls, (dom_cls a Ha). reflexivity. Qed.

Lemma vcmp_nil_dom (a : value) :
  dom a = true -> vcmp Compare Nil a = Some Lt.
Proof. intros Ha. rewrite vcmp_cls, (dom_cls a Ha). reflexivity. Qed.

Lemma vcmp_dom_nil (a : value) :
  dom a = true -> vcmp Compare a Nil = Some Gt.
Proof. intros Ha. rewrite vcmp_cls, (dom_cls a Ha). reflexivity. Qed.

Lemma okv_dom (a : value) : dom a = true -> okv dom a = true.
Proof. intros H. unfold okv. rewrite H. apply orb_true_r. Qed.

Lemma probe_cases (v : value) :
  probe dom v = true -> v = Nil \/ dom v = true.
Proof.
  unfold probe. destruct v; simpl; auto.
Qed.

Lemma Compare_opp_some (a b : value) (c : comparison) :
  dom a = true -> dom b = true ->
  Compare a b = Some c -> Compare b a = Some (CompOpp c).
Proof.
  intros Ha Hb H. rewrite (cmp_opp Htot a b Ha Hb), H. reflexivity.
Qed.

(** *** The comparison operators *)

Lemma pointsOfCompare_proper (op : opcode.Op) (c : value) :
  dom c = true ->
  properPairs Compare dom (pointsOfCompare op c) = true.
Proof.
  intros Hc. pose proof (okv_dom c Hc) as Hok.
  destruct op; simpl; try reflexivity; unfold okp; simpl;
    rewrite ?Hok, ?(vcmp_refl c Hok), ?(vcmp_min_dom c Hc),
      ?(vcmp_dom_max c Hc); reflexivity.
Qed.

Lemma pointsOfCompare_covers (op : opcode.Op) (c v : value) (r : comparison) :
  dom c = true -> dom v = true ->
  Compare v c = Some r -> getCompResult op r = true ->
  covers Compare v (pointsOfCompare op c) = true.
Proof.
  intros Hc Hv Hr Hres.
  pose proof (Compare_opp_some v c r Hv Hc Hr) as Hr'.
  destruct op; simpl in Hres; try discriminate;
    unfold covers, aboveLow, belowHigh; simpl;
    rewrite ?(vcmp_dom c v Hc Hv), ?(vcmp_dom v c Hv Hc), ?Hr, ?Hr',
      ?(vcmp_min_dom v Hv), ?(vcmp_dom_max v Hv);
    destruct r; simpl in *; try discriminate; reflexivity.
Qed.

Lemma getCompResult_flip (op : opcode.Op) (r : comparison) :
  isCompareOp op = true ->
  getCompResult (flipOp op) (CompOpp r) = getCompResult op r.
Proof. destruct op; try discriminate; destruct r; reflexivity. Qed.


(** *** BETWEEN *)

Lemma between_proper (lo hi : value) (n : bool) :
  dom lo = true -> dom hi = true ->
  match Compare lo hi with Some Lt | Some Eq => true | _ => false end = true ->
  properPairs Compare dom
    (if n then [SIn MinNotNullVal; EEx lo; SEx hi; EIn MaxVal]
     else [SIn lo; EIn hi]) = true.
Proof.
  intros Hlo Hhi Hle.
  pose proof (okv_dom lo Hlo) as Hoklo. pose proof (okv_dom hi Hhi) as Hokhi.
  destruct n; simpl; unfold okp; simpl;
    rewrite ?Hoklo, ?Hokhi, ?(vcmp_min_dom lo Hlo), ?(vcmp_dom_max hi Hhi),
      ?(vcmp_dom lo hi Hlo Hhi); simpl; [reflexivity|].
  destruct (Compare lo hi) as [[| |]|]; try discriminate; reflexivity.
Qed.

Lemma between_covers (v lo hi val : value) (n : bool) :
  probe dom v = true -> dom lo = true -> dom hi = true ->
  between Compare ToBool v lo hi n = Some val ->
  EvalBool ToBool val = Some true ->
  covers Compare v
    (if n then [SIn MinNotNullVal; EEx lo; SEx hi; EIn MaxVal]
     else [SIn lo; EIn hi]) = true.
Proof.
  intros Hv Hlo Hhi. unfold between. destruct n.
  - destruct (binaryOperation Compare ToBool opcode.LT v lo) as [l|] eqn:Hl;
      [|discriminate].
    destruct (binaryOperation Compare ToBool opcode.GT v hi) as [r|] eqn:Hr;
      [|discriminate].
    intros Hor Hb. destruct (or_true l r val Hor Hb) as [H|H].
    + destruct (compare_true opcode.LT v lo l eq_refl Hl H)
        as [Hnv [_ [c [Hc Hres]]]].
      destruct (probe_cases v Hv) as [->|Hdv]; [discriminate|].
      pose proof (pointsOfCompare_covers opcode.LT lo v c Hlo Hdv Hc Hres)
        as Hcov.
      simpl in Hcov. rewrite !covers_cons2 in *.
      apply orb_true_iff in Hcov. destruct Hcov as [Hcov|Hcov];
        [|discriminate].
      rewrite Hcov. reflexivity.
    + destruct (compare_true opcode.GT v hi r eq_refl Hr H)
        as [Hnv [_ [c [Hc Hres]]]].
      destruct (probe_cases v Hv) as [->|Hdv]; [discriminate|].
      pose proof (pointsOfCompare_covers opcode.GT hi v c Hhi Hdv Hc Hres)
        as Hcov.
      simpl in Hcov. rewrite !covers_cons2 in *.
      apply orb_true_iff in Hcov. destruct Hcov as [Hcov|Hcov];
        [|discriminate].
      rewrite Hcov. apply orb_true_iff. right. reflexivity.
  - destruct (binaryOperation Compare ToBool opcode.GE v lo) as [l|] eqn:Hl;
      [|discriminate].
    destruct (binaryOperation Compare ToBool opcode.LE v hi) as [r|] eqn:Hr;
      [|discriminate].
    intros Hand Hb. destruct (and_true l r val Hand Hb) as [H1 H2].
    destruct (compare_true opcode.GE v lo l eq_refl Hl H1)
      as [Hnv [_ [c1 [Hc1 Hres1]]]].
    destruct (compare_true opcode.LE v hi r eq_refl Hr H2)
      as [_ [_ [c2 [Hc2 Hres2]]]].
    destruct (probe_cases v Hv) as [->|Hdv]; [discriminate|].
    pose proof (Compare_opp_some v lo c1 Hdv Hlo Hc1) as Hc1'.
    rewrite covers_cons2. unfold aboveLow, belowHigh. simpl.
    rewrite (vcmp_dom lo v Hlo Hdv), (vcmp_dom v hi Hdv Hhi), Hc1', Hc2.
    destruct c1; destruct c2; simpl in *; try discriminate; reflexivity.
Qed.

(** *** IS NULL, IS TRUE, IS FALSE and the bare column *)

Lemma isNull_proper (n : bool) :
  properPairs Compare dom (buildFromIsNull n) = true.
Proof. destruct n; reflexivity. Qed.

Lemma isNull_covers (v : value) (n : bool) :
  probe dom v = true ->
  EvalBool ToBool (isNull v n) = Some true ->
  covers Compare v (buildFromIsNull n) = true.
Proof.
  intros Hv. unfold isNull. rewrite EvalBool_bool. intros H.
  injection H as H.
  destruct (probe_cases v Hv) as [->|Hdv].
  - destruct n; [discriminate|]. reflexivity.
  - rewrite (dom_not_nil v Hdv) in H. destruct n; [|discriminate].
    unfold buildFromIsNull. rewrite covers_cons2.
    unfold aboveLow, belowHigh. simpl.
    rewrite (vcmp_min_dom v Hdv), (vcmp_dom_max v Hdv). reflexivity.
Qed.

Lemma isTruth_proper (n : bool) (t : Z) :
  properPairs Compare dom (buildFromIsTruth n t) = true.
Proof.
  pose proof (zero_in_dom Htb) as Hz. pose proof (okv_dom _ Hz) as Hok.
  unfold buildFromIsTruth.
  destruct (negb (t =? 0)); destruct n; simpl; unfold okp; simpl;
    rewrite ?Hok, ?(vcmp_refl _ Hok), ?(vcmp_min_dom _ Hz),
      ?(vcmp_dom_max _ Hz), ?(vcmp_nil_dom _ Hz); reflexivity.
Qed.

Lemma truth_covers (v : value) :
  dom v = true ->
  covers Compare v [SIn MinNotNullVal; EEx (Int64 0); SEx (Int64 0);
                    EIn MaxVal]
  = match Compare v (Int64 0) with Some Eq => false | _ => true end
  /\ covers Compare v [SIn (Int64 0); EIn (Int64 0)]
    = match Compare v (Int64 0) with Some Eq => true | _ => false end.
Proof.
  intros Hdv. pose proof (zero_in_dom Htb) as Hz.
  rewrite !covers_cons2. unfold aboveLow, belowHigh. simpl.
  rewrite (vcmp_min_dom v Hdv), (vcmp_dom_max v Hdv),
    (vcmp_dom _ _ Hz Hdv), (vcmp_dom _ _ Hdv Hz).
  rewrite (cmp_opp Htot v (Int64 0) Hdv Hz).
  pose proof (cmp_total Htot v (Int64 0) Hdv Hz) as Ht.
  destruct (Compare v (Int64 0)) as [[| |]|]; simpl; try congruence; auto.
Qed.

Lemma isTruth_covers (v val : value) (n : bool) (t : Z) :
  probe dom v = true -> (t =? 0) || (t =? 1) = true ->
  isTruth ToBool v n t = Some val ->
  EvalBool ToBool val = Some true ->
  covers Compare v (buildFromIsTruth n t) = true.
Proof.
  intros Hv Ht. unfold isTruth.
  pose proof (zero_in_dom Htb) as Hz.
  destruct (probe_cases v Hv) as [->|Hdv].
  - simpl. intros H. injection H as <-. rewrite EvalBool_bool.
    intros H. injection H as H. destruct n; [|discriminate].
    unfold buildFromIsTruth. destruct (negb (t =? 0)); [reflexivity|].
    reflexivity.
  - rewrite (dom_not_nil v Hdv), (toBool_dom Htb v Hdv). simpl.
    intros H. injection H as <-. rewrite EvalBool_bool.
    intros H. injection H as H.
    destruct (truth_covers v Hdv) as [Hne Heq].
    unfold buildFromIsTruth.
    apply orb_true_iff in Ht. destruct Ht as [Ht|Ht];
      apply Z.eqb_eq in Ht; subst t; simpl.
    + destruct n.
      * rewrite covers_cons2.
        change (covers Compare v [SEx (Int64 0); EIn MaxVal])
          with (aboveLow Compare (SEx (Int64 0)) v
                && belowHigh Compare (EIn MaxVal) v || false).
        pose proof Hne as Hne'. rewrite !covers_cons2 in Hne'.
        unfold aboveLow at 1 in Hne'. simpl pvalue in Hne'.
        rewrite (vcmp_min_dom v Hdv) in Hne'. simpl in Hne'.
        unfold aboveLow at 1. simpl pvalue. rewrite (vcmp_nil_dom v Hdv).
        simpl. 
        change (covers Compare v []) with false in Hne'.
        rewrite Hne'.
        destruct (Compare v (Int64 0)) as [[| |]|]; simpl in *;
          try discriminate; reflexivity.
      * rewrite Heq.
        destruct (Compare v (Int64 0)) as [[| |]|]; simpl in *;
          try discriminate; reflexivity.
    + destruct n.
      * rewrite covers_cons2, Heq.
        destruct (Compare v (Int64 0)) as [[| |]|]; simpl in *;
          try discriminate; apply orb_true_r.
      * rewrite Hne.
        destruct (Compare v (Int64 0)) as [[| |]|]; simpl in *;
          try discriminate; reflexivity.
Qed.

Lemma columnName_covers (v : value) :
  probe dom v = true -> EvalBool ToBool v = Some true ->
  covers Compare v buildFromColumnName = true.
Proof.
  intros Hv. destruct (probe_cases v Hv) as [->|Hdv]; [discriminate|].
  rewrite (EvalBool_dom v Hdv). intros H. injection H as H.
  unfold buildFromColumnName. rewrite (proj1 (truth_covers v Hdv)).
  exact H.
Qed.


(** *** IN lists *)

Lemma vcmp_lt_eq (a b c : value) :
  okv dom a = true -> okv dom b = true -> okv dom c = true ->
  vcmp Compare a b = Some Lt -> vcmp Compare b c = Some Eq ->
  vcmp Compare a c = Some Lt.
Proof.
  intros Ha Hb Hc Hab Hbc.
  assert (Hba : vcmp Compare b a = Some Gt)
    by (rewrite (vcmp_opp _ _ Ha Hb), Hab; reflexivity).
  pose proof (vcmp_eq _ _ a Hb Hc Ha Hbc) as He. rewrite Hba in He.
  rewrite (vcmp_opp _ _ Hc Ha), <- He. reflexivity.
Qed.

Lemma vcmp_gt_lt (a b : value) :
  okv dom a = true -> okv dom b = true ->
  vcmp Compare a b = Some Gt -> vcmp Compare b a = Some Lt.
Proof.
  intros Ha Hb H. rewrite (vcmp_opp _ _ Ha Hb), H. reflexivity.
Qed.

Lemma lowerSet_valueBelow (v : value) :
  probe dom v = true -> lowerSet Compare dom (valueBelow Compare v).
Proof.
  intros Hv x y Hx Hy. apply probe_okv in Hv.
  unfold less. rewrite Less_vcmp. unfold valueBelow.
  pose proof (vcmp_total _ _ Hx Hy) as Ht.
  destruct (vcmp Compare (pvalue x) (pvalue y)) as [[| |]|] eqn:Hxy;
    simpl; try congruence; split; try discriminate.
  - intros _. rewrite (vcmp_eq _ _ v Hx Hy Hv Hxy). auto.
  - intros _. rewrite (vcmp_eq _ _ v Hx Hy Hv Hxy). auto.
  - intros _.
    destruct (vcmp Compare (pvalue y) v) as [[| |]|] eqn:Hyv;
      try discriminate.
    rewrite (vcmp_lt_trans _ _ _ Hx Hy Hv Hxy Hyv). reflexivity.
  - intros _.
    destruct (vcmp Compare (pvalue x) v) as [[| |]|] eqn:Hxv;
      try discriminate.
    rewrite (vcmp_lt_trans _ _ _ Hy Hx Hv (vcmp_gt_lt _ _ Hx Hy Hxy) Hxv).
    reflexivity.
Qed.

Lemma lowerSet_valueAtMost (v : value) :
  probe dom v = true -> lowerSet Compare dom (valueAtMost Compare v).
Proof.
  intros Hv x y Hx Hy. apply probe_okv in Hv.
  unfold less. rewrite Less_vcmp. unfold valueAtMost.
  pose proof (vcmp_total _ _ Hx Hy) as Ht.
  destruct (vcmp Compare (pvalue x) (pvalue y)) as [[| |]|] eqn:Hxy;
    simpl; try congruence; split; try discriminate.
  - intros _. rewrite (vcmp_eq _ _ v Hx Hy Hv Hxy). auto.
  - intros _. rewrite (vcmp_eq _ _ v Hx Hy Hv Hxy). auto.
  - intros _.
    destruct (vcmp Compare (pvalue y) v) as [[| |]|] eqn:Hyv;
      try discriminate.
    + rewrite (vcmp_lt_eq _ _ _ Hx Hy Hv Hxy Hyv). reflexivity.
    + rewrite (vcmp_lt_trans _ _ _ Hx Hy Hv Hxy Hyv). reflexivity.
  - intros _. pose proof (vcmp_gt_lt _ _ Hx Hy Hxy) as Hyx.
    destruct (vcmp Compare (pvalue x) v) as [[| |]|] eqn:Hxv;
      try discriminate.
    + rewrite (vcmp_lt_eq _ _ _ Hy Hx Hv Hyx Hxv). reflexivity.
    + rewrite (vcmp_lt_trans _ _ _ Hy Hx Hv Hyx Hxv). reflexivity.
Qed.

Lemma sortedBy_suffix (bf : rangePoint -> bool) (l1 l2 : list rangePoint) :
  sortedBy bf (l1 ++ l2) = true -> sortedBy bf l2 = true.
Proof.
  induction l1 as [|x l1 IH]; simpl; [auto|].
  destruct (bf x); [exact IH|].
  rewrite forallb_app. intros H. apply andb_true_iff in H.
  destruct H as [_ H]. clear IH.
  induction l2 as [|y l2 IH]; [reflexivity|].
  simpl in *. apply andb_true_iff in H. destruct H as [Hy H].
  apply negb_true_iff in Hy. rewrite Hy. exact H.
Qed.

Lemma sumOf_ind_all (g : rangePoint -> bool) (l : list rangePoint) :
  forallb g l = true ->
  sumOf (fun p => ind (g p)) l = Z.of_nat (List.length l).
Proof.
  induction l as [|x l IH]; [reflexivity|].
  cbn [forallb]. intros H. apply andb_true_iff in H. destruct H as [Hx Hl].
  change (sumOf (fun p => ind (g p)) (x :: l))
    with (ind (g x) + sumOf (fun p => ind (g p)) l).
  rewrite (IH Hl), Hx. cbn [List.length ind]. lia.
Qed.

Lemma sumOf_ind_none (g : rangePoint -> bool) (l : list rangePoint) :
  forallb (fun p => negb (g p)) l = true ->
  sumOf (fun p => ind (g p)) l = 0.
Proof.
  induction l as [|x l IH]; [reflexivity|].
  cbn [forallb]. intros H. apply andb_true_iff in H. destruct H as [Hx Hl].
  apply negb_true_iff in Hx.
  change (sumOf (fun p => ind (g p)) (x :: l))
    with (ind (g x) + sumOf (fun p => ind (g p)) l).
  rewrite (IH Hl), Hx. reflexivity.
Qed.

Lemma covers_app_even (v : value) (l1 l2 : list rangePoint) :
  Nat.Even (List.length l1) ->
  covers Compare v (l1 ++ l2) = covers Compare v l1 || covers Compare v l2.
Proof.
  induction l1 as [|x|x y l1 IH] using list_pair_ind; intros Hev.
  - reflexivity.
  - destruct (not_even_length_one _ x Hev).
  - apply even_length_cons2 in Hev. cbn [app].
    rewrite !covers_cons2, (IH Hev). apply orb_assoc.
Qed.

Lemma covers_no_high (v : value) (l : list rangePoint) :
  (forall q, In q l -> belowHigh Compare q v = false) ->
  covers Compare v l = false.
Proof.
  induction l as [|x|x y l IH] using list_pair_ind; intros H;
    try reflexivity.
  rewrite covers_cons2, (H y), IH.
  - rewrite andb_false_r. reflexivity.
  - intros q Hq. apply H. right. right. exact Hq.
  - right. left. reflexivity.
Qed.

Lemma covers_no_low (v : value) (l : list rangePoint) :
  (forall q, In q l -> aboveLow Compare q v = false) ->
  covers Compare v l = false.
Proof.
  induction l as [|x|x y l IH] using list_pair_ind; intros H;
    try reflexivity.
  rewrite covers_cons2, (H x), IH.
  - reflexivity.
  - intros q Hq. apply H. right. right. exact Hq.
  - left. reflexivity.
Qed.

Lemma covers_all (v : value) (l : list rangePoint) (m : Z) :
  (forall q, In q l ->
     aboveLow Compare q v = true /\ belowHigh Compare q v = true) ->
  Z.of_nat (List.length l) = 2 * m ->
  covers Compare v l = (1 <=? m).
Proof.
  intros H Hm. destruct l as [|x [|y l]].
  - cbn [List.length] in Hm. assert (m = 0) by lia. subst m. reflexivity.
  - cbn [List.length] in Hm. lia.
  - rewrite covers_cons2.
    rewrite (proj1 (H x (or_introl eq_refl))).
    rewrite (proj2 (H y (or_intror (or_introl eq_refl)))).
    cbn [List.length] in Hm. symmetry. apply Z.leb_le. lia.
Qed.

(** A sorted list of closed points with an even number of points below
    [v] and [2 * m] points at [v] covers [v] exactly when [m] is
    positive. *)
Lemma covers_sorted_closed (v : value) (s : list rangePoint) (k m : Z) :
  probe dom v = true ->
  forallb (okp dom) s = true ->
  forallb (fun p => negb (excl p)) s = true ->
  sortedBy (valueBelow Compare v) s = true ->
  sortedBy (valueAtMost Compare v) s = true ->
  sumOf (fun p => ind (valueBelow Compare v p)) s = 2 * k ->
  sumOf (fun p => ind (valueIs Compare v p)) s = 2 * m ->
  covers Compare v s = (1 <=? m).
Proof.
  intros Hv Hok Hcl Hs1 Hs2 Hk Hm. pose proof (probe_okv v Hv) as Hokv.
  destruct (sortedBy_split _ s Hs1) as [A [R [-> [HA HR]]]].
  apply sortedBy_suffix in Hs2.
  destruct (sortedBy_split _ R Hs2) as [B [D [-> [HB HD]]]].
  rewrite forallb_forall in Hok, Hcl, HA, HR, HB, HD.
  assert (HinA : forall p, In p A ->
            vcmp Compare (pvalue p) v = Some Lt /\ okp dom p = true).
  { intros p Hp. split; [|apply Hok; apply in_or_app; auto].
    specialize (HA p Hp). unfold valueBelow in HA.
    destruct (vcmp Compare (pvalue p) v) as [[| |]|]; try discriminate.
    reflexivity. }
  assert (HinB : forall p, In p B ->
            vcmp Compare (pvalue p) v = Some Eq /\ okp dom p = true
            /\ excl p = false).
  { intros p Hp.
    assert (Hin : In p (A ++ B ++ D))
      by (apply in_or_app; right; apply in_or_app; auto).
    split; [|split; [apply Hok; exact Hin
                    | apply negb_true_iff; apply Hcl; exact Hin]].
    specialize (HB p Hp).
    specialize (HR p (in_or_app _ _ _ (or_introl Hp))).
    unfold valueAtMost in HB. unfold valueBelow in HR.
    destruct (vcmp Compare (pvalue p) v) as [[| |]|]; try discriminate.
    reflexivity. }
  assert (HinD : forall p, In p D ->
            aboveLow Compare p v = false
            /\ valueBelow Compare v p = false
            /\ valueIs Compare v p = false).
  { intros p Hp. specialize (HD p Hp). unfold valueAtMost in HD.
    unfold aboveLow, valueBelow, valueIs.
    destruct (vcmp Compare (pvalue p) v) as [[| |]|]; try discriminate;
      auto. }
  (* the lengths of A and B *)
  rewrite !sumOf_app in Hk, Hm.
  assert (HkA : sumOf (fun p => ind (valueBelow Compare v p)) A
                = Z.of_nat (List.length A)).
  { apply sumOf_ind_all. apply forallb_forall. exact HA. }
  assert (HkB : sumOf (fun p => ind (valueBelow Compare v p)) B = 0).
  { apply sumOf_ind_none. apply forallb_forall. intros p Hp.
    unfold valueBelow. rewrite (proj1 (HinB p Hp)). reflexivity. }
  assert (HkD : sumOf (fun p => ind (valueBelow Compare v p)) D = 0).
  { apply sumOf_ind_none. apply forallb_forall. intros p Hp.
    rewrite (proj1 (proj2 (HinD p Hp))). reflexivity. }
  assert (HmA : sumOf (fun p => ind (valueIs Compare v p)) A = 0).
  { apply sumOf_ind_none. apply forallb_forall. intros p Hp.
    unfold valueIs. rewrite (proj1 (HinA p Hp)). reflexivity. }
  assert (HmB : sumOf (fun p => ind (valueIs Compare v p)) B
                = Z.of_nat (List.length B)).
  { apply sumOf_ind_all. apply forallb_forall. intros p Hp.
    unfold valueIs. rewrite (proj1 (HinB p Hp)). reflexivity. }
  assert (HmD : sumOf (fun p => ind (valueIs Compare v p)) D = 0).
  { apply sumOf_ind_none. apply forallb_forall. intros p Hp.
    rewrite (proj2 (proj2 (HinD p Hp))). reflexivity. }
  assert (HevA : Nat.Even (List.length A)).
  { exists (Z.to_nat k). lia. }
  assert (HevB : Nat.Even (List.length B)).
  { exists (Z.to_nat m). lia. }
  rewrite (covers_app_even v A _ HevA), (covers_app_even v B _ HevB).
  rewrite (covers_no_high v A), (covers_no_low v D).
  - rewrite orb_false_r. simpl. apply covers_all; [|lia].
    intros q Hq. destruct (HinB q Hq) as [Heq [Hokq Hex]].
    unfold aboveLow, belowHigh.
    rewrite (vcmp_opp _ _ Hokq Hokv), Heq, Hex. auto.
  - intros q Hq. apply (HinD q Hq).
  - intros q Hq. destruct (HinA q Hq) as [Hlt Hokq].
    unfold belowHigh. rewrite (vcmp_opp _ _ Hokq Hokv), Hlt. reflexivity.
Qed.


Lemma sumOf_cons (f : rangePoint -> Z) (p : rangePoint)
      (l : list rangePoint) :
  sumOf f (p :: l) = f p + sumOf f l.
Proof. reflexivity. Qed.

Lemma countEq_cons (v c : value) (vals : list value) :
  countEq Compare v (c :: vals)
  = ind (valueIs Compare v (SIn c)) + countEq Compare v vals.
Proof. reflexivity. Qed.

(** The points of an IN list before sorting: closed, balanced, an even
    number of them below every column value, and twice as many at a
    column value as there are intervals open at it. *)
Lemma pointsOfList_facts (vals : list value) (v : value) :
  forallb (probe dom) vals = true -> probe dom v = true ->
  forallb (okp dom) (pointsOfList vals) = true /\
  forallb (fun p => negb (excl p)) (pointsOfList vals) = true /\
  delta (pointsOfList vals) = 0 /\
  0 <= countEq Compare v vals /\
  (exists k,
     sumOf (fun p => ind (valueBelow Compare v p)) (pointsOfList vals)
     = 2 * k) /\
  sumOf (fun p => ind (valueIs Compare v p)) (pointsOfList vals)
  = 2 * countEq Compare v vals /\
  count Compare v (pointsOfList vals) = countEq Compare v vals /\
  (forall c, In c vals -> vcmp Compare c v = Some Eq ->
             1 <= countEq Compare v vals).
Proof.
  intros Hvals Hv. pose proof (probe_okv v Hv) as Hokv.
  induction vals as [|c vals IH].
  - repeat split; try reflexivity; try (unfold countEq; simpl; lia);
      try (exists 0; reflexivity); try (intros c []).
  - cbn [forallb] in Hvals. apply andb_true_iff in Hvals.
    destruct Hvals as [Hc Hvals]. pose proof (probe_okv c Hc) as Hokc.
    destruct (IH Hvals) as [Hok [Hcl [Hd [Hm0 [[k Hk] [Hm [Hcnt Hin]]]]]]].
    change (pointsOfList (c :: vals))
      with (SIn c :: EIn c :: pointsOfList vals).
    split; [cbn [forallb]; unfold okp at 1 2; simpl; rewrite Hokc, Hok;
            reflexivity|].
    split; [cbn [forallb]; rewrite Hcl; reflexivity|].
    split; [rewrite !delta_cons, Hd; reflexivity|].
    rewrite !count_cons, !sumOf_cons, countEq_cons, Hk, Hm, Hcnt.
    generalize dependent (countEq Compare v vals). intros m Hm0 Hm Hcnt Hin.
    unfold valueBelow, valueIs, before, weight, SIn, EIn.
    cbn [pvalue start excl negb Bool.eqb].
    pose proof (vcmp_total c v Hokc Hokv) as Ht.
    destruct (vcmp Compare c v) as [[| |]|] eqn:Hcv; try congruence;
      unfold ind.
    + split; [lia|]. split; [exists k; lia|]. repeat split; lia.
    + split; [lia|]. split; [exists (k + 1); lia|].
      repeat split; try lia.
      intros c' [<-|Hc'] Hc'v; [congruence | eauto].
    + split; [lia|]. split; [exists k; lia|].
      repeat split; try lia.
      intros c' [<-|Hc'] Hc'v; [congruence | eauto].
Qed.

(** IN is true only on a non-NULL value that compares equal to a
    non-NULL element of the list. *)
Lemma patternInFrom_true (lhs : value) (vals : list value) :
  forall hasNull val,
    patternInFrom Compare lhs false hasNull vals = Some val ->
    EvalBool ToBool val = Some true ->
    exists c, In c vals /\ isNil c = false /\ Compare lhs c = Some Eq.
Proof.
  induction vals as [|c vals IH]; intros hasNull val; simpl.
  - destruct hasNull; intros H; injection H as <-;
      [|rewrite EvalBool_bool]; discriminate.
  - destruct (isNil c) eqn:Hc.
    + intros H Hb. destruct (IH _ _ H Hb) as [c' [Hin H']]. eauto.
    + destruct (Compare lhs c) as [[| |]|] eqn:Hl; try discriminate.
      * intros _ _. exists c. auto.
      * intros H Hb. destruct (IH _ _ H Hb) as [c' [Hin H']]. eauto.
      * intros H Hb. destruct (IH _ _ H Hb) as [c' [Hin H']]. eauto.
Qed.

Variable slotOf : ExprNode -> value.

Lemma inList_values (l : list ExprNode) (col : value) :
  forallb (inListItem dom) l = true ->
  evalAll (Eval Compare ToBool col) l = Some (map (GetValue slotOf) l) /\
  forallb (probe dom) (map (GetValue slotOf) l) = true /\
  flat_map (fun x => [SIn (GetValue slotOf x); EIn (GetValue slotOf x)]) l
  = pointsOfList (map (GetValue slotOf) l).
Proof.
  induction l as [|x l IH]; [auto|].
  cbn [forallb]. intros H. apply andb_true_iff in H. destruct H as [Hx Hl].
  destruct (IH Hl) as [He [Hp Hf]].
  destruct x; try discriminate. simpl in Hx.
  cbn [evalAll map flat_map Eval GetValue forallb] in *.
  fold (evalAll (Eval Compare ToBool col)). rewrite He.
  unfold probe at 1. rewrite Hx, Hp, Hf. auto.
Qed.

(** buildFromIn on a list of literals: no error, a well-counted list,
    and as many intervals open at a column value as there are elements
    equal to it; the list covers the value exactly when there is one. *)
Lemma buildFromIn_counts (r : rangeBuilder) (l : list ExprNode) :
  forallb (inListItem dom) l = true ->
  exists pts,
    buildFromIn Compare slotOf r l = (pts, r) /\
    wellCounted Compare dom pts /\
    forall v, probe dom v = true ->
      count Compare v pts = countEq Compare v (map (GetValue slotOf) l) /\
      covers Compare v pts
      = (1 <=? countEq Compare v (map (GetValue slotOf) l)) /\
      (forall c, In c (map (GetValue slotOf) l) ->
                 vcmp Compare c v = Some Eq ->
                 1 <= countEq Compare v (map (GetValue slotOf) l)).
Proof.
  intros Hl. unfold buildFromIn.
  destruct (inList_values l Nil Hl) as [_ [Hvals ->]].
  set (vals := map (GetValue slotOf) l) in *.
  destruct (pointsOfList_facts vals Nil Hvals eq_refl) as [Hok [Hcl [Hd _]]].
  destruct (sortPoints_spec _ Hok) as [s [Hsort [Hall [Hsum Hsorted]]]].
  rewrite Hsort. exists s. split; [reflexivity|].
  assert (Hcov : forall v, probe dom v = true ->
            0 <= countEq Compare v vals /\
            count Compare v s = countEq Compare v vals /\
            covers Compare v s = (1 <=? countEq Compare v vals) /\
            (forall c, In c vals -> vcmp Compare c v = Some Eq ->
                       1 <= countEq Compare v vals)).
  { intros v Hv.
    destruct (pointsOfList_facts vals v Hvals Hv)
      as [_ [_ [_ [Hm0 [[k Hk] [Hm [Hcnt Hin]]]]]]].
    split; [exact Hm0|]. split.
    { unfold count. rewrite Hsum. exact Hcnt. }
    split; [|exact Hin].
    apply (covers_sorted_closed v s k _ Hv).
    - rewrite Hall. exact Hok.
    - rewrite Hall. exact Hcl.
    - apply Hsorted. apply lowerSet_valueBelow. exact Hv.
    - apply Hsorted. apply lowerSet_valueAtMost. exact Hv.
    - rewrite Hsum. exact Hk.
    - rewrite Hsum. exact Hm. }
  split.
  - split; [rewrite Hall; exact Hok|]. split.
    + unfold delta. rewrite Hsum. exact Hd.
    + intros v Hv. destruct (Hcov v Hv) as [Hm0 [Hcnt [Hc _]]].
      rewrite Hcnt, Hc. split; [exact Hm0|].
      intros H. apply Z.leb_le in H. exact H.
  - intros v Hv. destruct (Hcov v Hv) as [_ [Hcnt [Hc Hin]]]. auto.
Qed.

(** buildFromIn covers every value the IN expression is true on. *)
Lemma buildFromIn_sound (r : rangeBuilder) (l : list ExprNode) :
  forallb (inListItem dom) l = true ->
  exists pts,
    buildFromIn Compare slotOf r l = (pts, r) /\
    wellCounted Compare dom pts /\
    forall v val, probe dom v = true ->
      patternIn Compare v false (map (GetValue slotOf) l) = Some val ->
      EvalBool ToBool val = Some true ->
      covers Compare v pts = true.
Proof.
  intros Hl. destruct (buildFromIn_counts r l Hl) as [pts [Hb [Hw Hc]]].
  exists pts. split; [exact Hb|]. split; [exact Hw|].
  intros v val Hv Hin Hb'. unfold patternIn in Hin.
  destruct (inList_values l Nil Hl) as [_ [Hvals _]].
  destruct (probe_cases v Hv) as [->|Hdv].
  { simpl in Hin. injection Hin as <-. discriminate. }
  rewrite (dom_not_nil v Hdv) in Hin.
  destruct (patternInFrom_true v _ false val Hin Hb')
    as [c [Hc' [Hnil Hcmp]]].
  destruct (Hc v Hv) as [_ [Hcv Hm]].
  rewrite Hcv. apply Z.leb_le. apply (Hm c Hc').
  assert (Hdc : dom c = true).
  { rewrite forallb_forall in Hvals. specialize (Hvals c Hc').
    unfold probe in Hvals. rewrite Hnil in Hvals. exact Hvals. }
  rewrite (vcmp_dom c v Hdc Hdv).
  rewrite (Compare_opp_some v c Eq Hdv Hdc Hcmp). reflexivity.
Qed.

(** *** Soundness of the range builder *)

Lemma build_compare (r : rangeBuilder) (op : opcode.Op) (L R : ExprNode) :
  isCompareOp op = true ->
  build Compare slotOf r (BinaryOperationExpr op L R)
  = Done (if isValueExpr L
          then pointsOfCompare (flipOp op) (GetValue slotOf L)
          else pointsOfCompare op (GetValue slotOf R), r).
Proof.
  destruct op; try discriminate; intros _; simpl;
    destruct (isValueExpr L); reflexivity.
Qed.

Lemma isCompareOp_flip (op : opcode.Op) :
  isCompareOp op = true -> isCompareOp (flipOp op) = true.
Proof. destruct op; try discriminate; reflexivity. Qed.

Lemma rangeable_compare (op : opcode.Op) (L R : ExprNode) :
  isCompareOp op = true ->
  rangeable Compare dom (BinaryOperationExpr op L R)
  = match L, R with
    | ColumnNameExpr _, ValueExpr c => dom c
    | ValueExpr c, ColumnNameExpr _ => dom c
    | _, _ => false
    end.
Proof. destruct op; try discriminate; reflexivity. Qed.

Lemma rangeable_other_op (op : opcode.Op) (L R : ExprNode) :
  isCompareOp op = false -> op <> opcode.AndAnd -> op <> opcode.OrOr ->
  rangeable Compare dom (BinaryOperationExpr op L R) = false.
Proof. destruct op; try discriminate; try reflexivity; congruence. Qed.

(** On a rangeable expression build returns a well-counted list, leaves
    the builder as it was, and the list covers every column value the
    expression is true on. *)
Lemma build_rangeable (e : ExprNode) :
  rangeable Compare dom e = true ->
  forall r, exists pts,
    build Compare slotOf r e = Done (pts, r) /\
    wellCounted Compare dom pts /\
    forall v val, probe dom v = true ->
      Eval Compare ToBool v e = Some val ->
      EvalBool ToBool val = Some true ->
      covers Compare v pts = true.
Proof.
  induction e; intros He r; try discriminate He.
  - (* the bare column *)
    exists buildFromColumnName. split; [reflexivity|]. split.
    + apply properPairs_wellCounted. apply (isTruth_proper false 1).
    + intros v val Hv Hval Hb. simpl in Hval. injection Hval as <-.
      apply columnName_covers; assumption.
  - (* binary operations *)
    destruct (isCompareOp op) eqn:Hop.
    + (* comparisons *)
      rewrite (rangeable_compare op e1 e2 Hop) in He.
      rewrite (build_compare r op e1 e2 Hop).
      destruct e1; try discriminate He; destruct e2; try discriminate He.
      * (* literal op column *)
        cbn [isValueExpr GetValue].
        eexists. split; [reflexivity|]. split.
        { apply properPairs_wellCounted. apply pointsOfCompare_proper.
          exact He. }
        intros w val Hw Hval Hb. cbn [Eval] in Hval.
        destruct (compare_true op v w val Hop Hval Hb)
          as [_ [Hnw [c [Hc Hres]]]].
        destruct (probe_cases w Hw) as [->|Hdw]; [discriminate|].
        apply (pointsOfCompare_covers (flipOp op) v w (CompOpp c) He Hdw).
        -- apply Compare_opp_some; assumption.
        -- rewrite (getCompResult_flip op c Hop). exact Hres.
      * (* column op literal *)
        cbn [isValueExpr GetValue].
        eexists. split; [reflexivity|]. split.
        { apply properPairs_wellCounted. apply pointsOfCompare_proper.
          exact He. }
        intros w val Hw Hval Hb. cbn [Eval] in Hval.
        destruct (compare_true op w v val Hop Hval Hb)
          as [Hnw [_ [c [Hc Hres]]]].
        destruct (probe_cases w Hw) as [->|Hdw]; [discriminate|].
        apply (pointsOfCompare_covers op v w c He Hdw Hc Hres).
    + (* AND, OR *)
      destruct (opcode.Op_eq_dec op opcode.AndAnd) as [->|Hna];
        [|destruct (opcode.Op_eq_dec op opcode.OrOr) as [->|Hno]].
      * cbn [rangeable] in He. apply andb_true_iff in He.
        destruct He as [He1 He2].
        destruct (IHe1 He1 r) as [a [Ha [Hwa Hsa]]].
        destruct (IHe2 He2 r) as [b [Hb [Hwb Hsb]]].
        destruct (merge_wellCounted r a b false Hwa Hwb)
          as [out [Hm [Hwo Hco]]].
        exists out. split.
        { cbn [build]. rewrite Ha. cbn [bind]. rewrite Hb. cbn [bind].
          unfold intersection. rewrite Hm. reflexivity. }
        split; [exact Hwo|].
        intros w val Hw Hval Hbv. cbn [Eval] in Hval.
        destruct (Eval Compare ToBool w e1) as [l|] eqn:H1; [|discriminate].
        destruct (Eval Compare ToBool w e2) as [r0|] eqn:H2; [|discriminate].
        destruct (and_true l r0 val Hval Hbv) as [Hl Hr].
        rewrite (proj1 (Hco w Hw)). apply Z.leb_le.
        destruct Hwa as [_ [_ Hca]]. destruct Hwb as [_ [_ Hcb]].
        pose proof (proj2 (Hca w Hw) (Hsa w l Hw H1 Hl)).
        pose proof (proj2 (Hcb w Hw) (Hsb w r0 Hw H2 Hr)).
        lia.
      * cbn [rangeable] in He. apply andb_true_iff in He.
        destruct He as [He1 He2].
        destruct (IHe1 He1 r) as [a [Ha [Hwa Hsa]]].
        destruct (IHe2 He2 r) as [b [Hb [Hwb Hsb]]].
        destruct (merge_wellCounted r a b true Hwa Hwb)
          as [out [Hm [Hwo Hco]]].
        exists out. split.
        { cbn [build]. rewrite Ha. cbn [bind]. rewrite Hb. cbn [bind].
          unfold union. rewrite Hm. reflexivity. }
        split; [exact Hwo|].
        intros w val Hw Hval Hbv. cbn [Eval] in Hval.
        destruct (Eval Compare ToBool w e1) as [l|] eqn:H1; [|discriminate].
        destruct (Eval Compare ToBool w e2) as [r0|] eqn:H2; [|discriminate].
        rewrite (proj1 (Hco w Hw)). apply Z.leb_le.
        destruct Hwa as [_ [_ Hca]]. destruct Hwb as [_ [_ Hcb]].
        pose proof (proj1 (Hca w Hw)). pose proof (proj1 (Hcb w Hw)).
        destruct (or_true l r0 val Hval Hbv) as [Hl|Hr].
        -- pose proof (proj2 (Hca w Hw) (Hsa w l Hw H1 Hl)). lia.
        -- pose proof (proj2 (Hcb w Hw) (Hsb w r0 Hw H2 Hr)). lia.
      * rewrite (rangeable_other_op op e1 e2 Hop Hna Hno) in He.
        discriminate He.
  - (* IN *)
    cbn [rangeable] in He. destruct e; try discriminate He.
    destruct Not; [discriminate He|].
    destruct (buildFromIn_sound r List He) as [pts [Hb [Hw Hs]]].
    exists pts. split; [cbn [build]; rewrite Hb; reflexivity|].
    split; [exact Hw|].
    intros w val Hw' Hval Hbv. cbn [Eval] in Hval.
    rewrite (proj1 (inList_values List w He)) in Hval.
    apply (Hs w val Hw' Hval Hbv).
  - (* parentheses *)
    cbn [rangeable] in He. cbn [build Eval]. apply (IHe He r).
  - (* BETWEEN *)
    cbn [rangeable] in He.
    destruct e1; try discriminate He; destruct e2; try discriminate He;
      destruct e3; try discriminate He.
    apply andb_true_iff in He. destruct He as [He Hle].
    apply andb_true_iff in He. destruct He as [Hlo Hhi].
    eexists. split; [reflexivity|].
    unfold buildFromBetween. cbn [GetValue].
    split.
    + apply properPairs_wellCounted. apply between_proper; assumption.
    + intros w val Hw Hval Hb. cbn [Eval] in Hval.
      apply (between_covers w v v0 val Not Hw Hlo Hhi Hval Hb).
  - (* IS NULL *)
    cbn [rangeable] in He. destruct e; try discriminate He.
    eexists. split; [reflexivity|]. split.
    + apply properPairs_wellCounted. apply isNull_proper.
    + intros w val Hw Hval Hb. cbn [Eval] in Hval. injection Hval as <-.
      apply isNull_covers; assumption.
  - (* IS TRUE, IS FALSE *)
    cbn [rangeable] in He. destruct e; try discriminate He.
    eexists. split; [reflexivity|]. split.
    + apply properPairs_wellCounted. apply isTruth_proper.
    + intros w val Hw Hval Hb. cbn [Eval] in Hval.
      apply (isTruth_covers w val Not True Hw He Hval Hb).
Qed.

(** *** The exact fragment *)

Lemma EvalBool_one : EvalBool ToBool (Int64 1) = Some true.
Proof. unfold EvalBool. simpl. rewrite (toBool_one Htb). reflexivity. Qed.

Lemma EvalBool_ofBool (b : bool) : EvalBool ToBool (boolToInt64 b) = Some b.
Proof. destruct b; [apply EvalBool_one | apply EvalBool_zero]. Qed.

(** AND and OR on operands that have a truth value. *)
Lemma and_exact (l r : value) (bl br : bool) :
  EvalBool ToBool l = Some bl -> EvalBool ToBool r = Some br ->
  exists val,
    binaryOperation Compare ToBool opcode.AndAnd l r = Some val /\
    EvalBool ToBool val = Some (bl && br).
Proof.
  unfold binaryOperation, isFalse, EvalBool.
  destruct (isNil l) eqn:Hl; destruct (isNil r) eqn:Hr; simpl.
  - intros H1 H2. injection H1 as <-. injection H2 as <-.
    exists Nil. auto.
  - destruct (ToBool r) as [y|]; [|discriminate].
    intros H1 H2. injection H1 as <-. injection H2 as <-.
    destruct (y =? 0); simpl; eexists; split; try reflexivity.
    simpl. rewrite (toBool_zero Htb). reflexivity.
  - destruct (ToBool l) as [x|]; [|discriminate].
    intros H1 H2. injection H1 as <-. injection H2 as <-.
    destruct (x =? 0); simpl; eexists; split; try reflexivity.
    simpl. rewrite (toBool_zero Htb). reflexivity.
  - destruct (ToBool l) as [x|]; [|discriminate].
    destruct (ToBool r) as [y|]; [|discriminate].
    intros H1 H2. injection H1 as <-. injection H2 as <-.
    destruct (x =? 0); destruct (y =? 0); simpl; eexists; split;
      try reflexivity; simpl;
      rewrite ?(toBool_zero Htb), ?(toBool_one Htb); reflexivity.
Qed.

Lemma or_exact (l r : value) (bl br : bool) :
  EvalBool ToBool l = Some bl -> EvalBool ToBool r = Some br ->
  exists val,
    binaryOperation Compare ToBool opcode.OrOr l r = Some val /\
    EvalBool ToBool val = Some (bl || br).
Proof.
  unfold binaryOperation, isTrue. fold (EvalBool ToBool l).
  fold (EvalBool ToBool r). intros -> ->.
  destruct bl; destruct br; simpl;
    try (eexists; split; [reflexivity | apply EvalBool_one]).
  destruct (isNil l || isNil r); eexists; split; try reflexivity.
  apply EvalBool_zero.
Qed.

(** A comparison of two domain values. *)
Lemma compare_exact (op : opcode.Op) (l r : value) :
  isCompareOp op = true -> dom l = true -> dom r = true ->
  exists c,
    Compare l r = Some c /\
    binaryOperation Compare ToBool op l r
    = Some (boolToInt64 (getCompResult op c)).
Proof.
  intros Hop Hl Hr.
  pose proof (cmp_total Htot l r Hl Hr) as Ht.
  destruct (Compare l r) as [c|] eqn:Hc; [|congruence].
  exists c. split; [reflexivity|].
  destruct op; try discriminate Hop; simpl;
    rewrite (dom_not_nil l Hl), (dom_not_nil r Hr), Hc; reflexivity.
Qed.

Lemma compare_nil (op : opcode.Op) (l r : value) :
  isCompareOp op = true -> isNil l || isNil r = true ->
  binaryOperation Compare ToBool op l r = Some Nil.
Proof.
  intros Hop H. destruct op; try discriminate Hop; simpl; rewrite H;
    reflexivity.
Qed.

Lemma pointsOfCompare_covers_eq (op : opcode.Op) (c v : value)
      (r : comparison) :
  isCompareOp op = true -> dom c = true -> dom v = true ->
  Compare v c = Some r ->
  covers Compare v (pointsOfCompare op c) = getCompResult op r.
Proof.
  intros Hop Hc Hv Hr.
  pose proof (Compare_opp_some v c r Hv Hc Hr) as Hr'.
  destruct op; try discriminate Hop;
    unfold covers, aboveLow, belowHigh; simpl;
    rewrite ?(vcmp_dom c v Hc Hv), ?(vcmp_dom v c Hv Hc), ?Hr, ?Hr',
      ?(vcmp_min_dom v Hv), ?(vcmp_dom_max v Hv);
    destruct r; reflexivity.
Qed.

Lemma pointsOfCompare_covers_nil (op : opcode.Op) (c : value) :
  isCompareOp op = true -> dom c = true ->
  covers Compare Nil (pointsOfCompare op c) = false.
Proof.
  intros Hop Hc.
  destruct op; try discriminate Hop;
    unfold covers, aboveLow, belowHigh; simpl;
    rewrite ?(vcmp_dom_nil c Hc); reflexivity.
Qed.

(** A comparison of the column with a literal evaluates, and is true
    exactly on the values its range-point list covers. *)
Lemma compare_column_exact (op : opcode.Op) (c v : value) :
  isCompareOp op = true -> dom c = true -> probe dom v = true ->
  (exists val,
     binaryOperation Compare ToBool op v c = Some val /\
     EvalBool ToBool val = Some (covers Compare v (pointsOfCompare op c)))
  /\
  (exists val,
     binaryOperation Compare ToBool op c v = Some val /\
     EvalBool ToBool val
     = Some (covers Compare v (pointsOfCompare (flipOp op) c))).
Proof.
  intros Hop Hc Hv. destruct (probe_cases v Hv) as [->|Hdv].
  - rewrite !pointsOfCompare_covers_nil;
      auto using isCompareOp_flip.
    split; exists Nil; (split; [|reflexivity]);
      apply compare_nil; auto. apply orb_true_r.
  - split.
    + destruct (compare_exact op v c Hop Hdv Hc) as [r [Hr Hb]].
      eexists. split; [exact Hb|].
      rewrite (pointsOfCompare_covers_eq op c v r Hop Hc Hdv Hr).
      apply EvalBool_ofBool.
    + destruct (compare_exact op c v Hop Hc Hdv) as [r [Hr Hb]].
      eexists. split; [exact Hb|].
      rewrite (pointsOfCompare_covers_eq (flipOp op) c v (CompOpp r)
                 (isCompareOp_flip op Hop) Hc Hdv
                 (Compare_opp_some c v r Hc Hdv Hr)).
      rewrite (getCompResult_flip op r Hop).
      apply EvalBool_ofBool.
Qed.

(** *** Lists that count exactly *)

Lemma exactlyCounted_intro (l : list rangePoint) :
  wellCounted Compare dom l ->
  (forall v, probe dom v = true ->
     count Compare v l = ind (covers Compare v l)) ->
  exactlyCounted Compare dom l.
Proof.
  intros Hw H. split; [exact Hw|]. intros v Hv. rewrite (H v Hv).
  destruct (covers Compare v l); simpl; split; try lia; auto.
Qed.

Lemma exactlyCounted_count (l : list rangePoint) (v : value) :
  exactlyCounted Compare dom l -> probe dom v = true ->
  count Compare v l = ind (covers Compare v l).
Proof.
  intros [[_ [_ Hw]] Hx] Hv.
  destruct (Hw v Hv) as [H0 H1]. destruct (Hx v Hv) as [H2 H3].
  destruct (covers Compare v l); simpl.
  - specialize (H1 eq_refl). lia.
  - destruct (Z.eq_dec (count Compare v l) 0) as [E|E]; [exact E|].
    assert (H : 1 <= count Compare v l) by lia.
    specialize (H3 H). discriminate H3.
Qed.

Lemma properPairs_cons2 (s e : rangePoint) (l : list rangePoint) :
  properPairs Compare dom (s :: e :: l) = true ->
  start s = true /\ start e = false /\
  okp dom s = true /\ okp dom e = true /\
  match vcmp Compare (pvalue s) (pvalue e) with
  | Some Lt => true
  | Some Eq => negb (excl s)
  | _ => false
  end = true /\
  properPairs Compare dom l = true.
Proof.
  cbn [properPairs]. intros H.
  apply andb_true_iff in H. destruct H as [H Hl].
  apply andb_true_iff in H. destruct H as [H Ho].
  apply andb_true_iff in H. destruct H as [H Hoe].
  apply andb_true_iff in H. destruct H as [H Hos].
  apply andb_true_iff in H. destruct H as [Hs He].
  apply negb_true_iff in He. auto 10.
Qed.

(** One interval is open at a column value exactly when the value lies
    in it. *)
Lemma pair_count (s e : rangePoint) (v : value) :
  properPairs Compare dom [s; e] = true -> probe dom v = true ->
  count Compare v [s; e]
  = ind (aboveLow Compare s v && belowHigh Compare e v).
Proof.
  intros H Hv.
  destruct (properPairs_cons2 s e [] H) as [Hs [He [Hos [Hoe [Ho _]]]]].
  rewrite (aboveLow_start s v Hs), (belowHigh_end e v Hoe Hv He).
  rewrite !count_cons. unfold weight. rewrite Hs, He.
  change (count Compare v []) with 0.
  destruct (before Compare v e) eqn:Hbe.
  - rewrite (proper_before s e v Hos Hoe Hv Hs Ho Hbe). reflexivity.
  - destruct (before Compare v s); reflexivity.
Qed.

(** A start point that lies to the left of a column value has the end
    point of the interval before it to the left as well. *)
Lemma separated_before (e s : rangePoint) (v : value) :
  okp dom e = true -> okp dom s = true -> probe dom v = true ->
  start e = false -> start s = true ->
  separated Compare e s = true ->
  before Compare v s = true -> before Compare v e = true.
Proof.
  intros Hoe Hos Hv He Hs Hsep Hb.
  pose proof (probe_okv v Hv) as Hov.
  unfold separated in Hsep. unfold before in *. rewrite He. rewrite Hs in Hb.
  unfold okp in *.
  destruct (vcmp Compare (pvalue e) (pvalue s)) as [[| |]|] eqn:Hes;
    try discriminate Hsep.
  - rewrite (vcmp_eq _ _ v Hoe Hos Hov Hes).
    destruct (vcmp Compare (pvalue s) v) as [[| |]|]; try discriminate Hb;
      [|reflexivity].
    destruct (excl s); [discriminate Hb|].
    rewrite orb_false_r in Hsep. rewrite Hsep. reflexivity.
  - destruct (vcmp Compare (pvalue s) v) as [[| |]|] eqn:Hsv;
      try discriminate Hb.
    + rewrite (vcmp_lt_eq _ _ _ Hoe Hos Hov Hes Hsv). reflexivity.
    + rewrite (vcmp_lt_trans _ _ _ Hoe Hos Hov Hes Hsv). reflexivity.
Qed.

Lemma onePair_exact (s e : rangePoint) :
  properPairs Compare dom [s; e] = true ->
  exactlyCounted Compare dom [s; e].
Proof.
  intros H. apply exactlyCounted_intro.
  - apply properPairs_wellCounted. exact H.
  - intros v Hv. rewrite (pair_count s e v H Hv), covers_cons2.
    change (covers Compare v []) with false. rewrite orb_false_r.
    reflexivity.
Qed.

Lemma twoPairs_exact (s1 e1 s2 e2 : rangePoint) :
  properPairs Compare dom [s1; e1; s2; e2] = true ->
  separated Compare e1 s2 = true ->
  exactlyCounted Compare dom [s1; e1; s2; e2].
Proof.
  intros H Hsep. apply exactlyCounted_intro.
  - apply properPairs_wellCounted. exact H.
  - intros v Hv.
    destruct (properPairs_cons2 _ _ _ H) as [Hs1 [He1 [Hos1 [Hoe1 [Ho1 H2]]]]].
    destruct (properPairs_cons2 _ _ _ H2) as [Hs2 [He2 [Hos2 [Hoe2 [Ho2 _]]]]].
    assert (H1 : properPairs Compare dom [s1; e1] = true).
    { cbn [properPairs]. rewrite Hs1, He1, Hos1, Hoe1, Ho1. reflexivity. }
    change [s1; e1; s2; e2] with ([s1; e1] ++ [s2; e2]) at 1.
    rewrite count_app, (pair_count s1 e1 v H1 Hv), (pair_count s2 e2 v H2 Hv).
    rewrite !covers_cons2. change (covers Compare v []) with false.
    rewrite orb_false_r.
    rewrite (aboveLow_start s2 v Hs2), (belowHigh_end e1 v Hoe1 Hv He1).
    pose proof (separated_before e1 s2 v Hoe1 Hos2 Hv He1 Hs2 Hsep) as Hb.
    destruct (before Compare v s2).
    + rewrite (Hb eq_refl). cbn [negb]. rewrite andb_false_r. reflexivity.
    + cbn [andb]. rewrite orb_false_r, Z.add_0_r. reflexivity.
Qed.

(** *** The leaves, exactly *)

Lemma pointsOfCompare_exact (op : opcode.Op) (c : value) :
  isCompareOp op = true -> dom c = true ->
  exactlyCounted Compare dom (pointsOfCompare op c).
Proof.
  intros Hop Hc. pose proof (pointsOfCompare_proper op c Hc) as H.
  destruct op; try discriminate Hop; cbn [pointsOfCompare] in *;
    try (apply onePair_exact; exact H).
  apply twoPairs_exact; [exact H|].
  unfold separated. cbn [pvalue SIn SEx EIn EEx excl].
  rewrite (vcmp_refl c (okv_dom c Hc)). reflexivity.
Qed.

Lemma between_exactlyCounted (lo hi : value) (n : bool) :
  dom lo = true -> dom hi = true ->
  match Compare lo hi with Some Lt | Some Eq => true | _ => false end = true ->
  exactlyCounted Compare dom
    (if n then [SIn MinNotNullVal; EEx lo; SEx hi; EIn MaxVal]
     else [SIn lo; EIn hi]).
Proof.
  intros Hlo Hhi Hle. pose proof (between_proper lo hi n Hlo Hhi Hle) as H.
  destruct n; [|apply onePair_exact; exact H].
  apply twoPairs_exact; [exact H|].
  unfold separated. cbn [pvalue SIn SEx EIn EEx excl].
  rewrite (vcmp_dom lo hi Hlo Hhi).
  destruct (Compare lo hi) as [[| |]|]; try discriminate Hle; reflexivity.
Qed.

Lemma isNull_exactlyCounted (n : bool) :
  exactlyCounted Compare dom (buildFromIsNull n).
Proof.
  pose proof (isNull_proper n) as H.
  destruct n; apply onePair_exact; exact H.
Qed.

Lemma isTruth_exactlyCounted (n : bool) (t : Z) :
  exactlyCounted Compare dom (buildFromIsTruth n t).
Proof.
  pose proof (isTruth_proper n t) as H.
  pose proof (zero_in_dom Htb) as Hz. pose proof (okv_dom _ Hz) as Hok.
  unfold buildFromIsTruth in *.
  destruct (negb (t =? 0)); destruct n;
    try (apply onePair_exact; exact H);
    (apply twoPairs_exact; [exact H|]);
    unfold separated; cbn [pvalue SIn SEx EIn EEx excl];
    rewrite ?(vcmp_refl _ Hok), ?(vcmp_nil_dom _ Hz); reflexivity.
Qed.

Lemma between_exact (v lo hi : value) (n : bool) :
  probe dom v = true -> dom lo = true -> dom hi = true ->
  exists val,
    between Compare ToBool v lo hi n = Some val /\
    EvalBool ToBool val
    = Some (covers Compare v
              (if n then [SIn MinNotNullVal; EEx lo; SEx hi; EIn MaxVal]
               else [SIn lo; EIn hi])).
Proof.
  intros Hv Hlo Hhi. unfold between. destruct n.
  - destruct (proj1 (compare_column_exact opcode.LT lo v eq_refl Hlo Hv))
      as [l [Hl Hbl]].
    destruct (proj1 (compare_column_exact opcode.GT hi v eq_refl Hhi Hv))
      as [r [Hr Hbr]].
    rewrite Hl, Hr.
    destruct (or_exact l r _ _ Hbl Hbr) as [val [Hval Hb]].
    exists val. split; [exact Hval|]. rewrite Hb. f_equal.
    cbn [pointsOfCompare]. rewrite !covers_cons2.
    change (covers Compare v []) with false. rewrite !orb_false_r.
    reflexivity.
  - destruct (proj1 (compare_column_exact opcode.GE lo v eq_refl Hlo Hv))
      as [l [Hl Hbl]].
    destruct (proj1 (compare_column_exact opcode.LE hi v eq_refl Hhi Hv))
      as [r [Hr Hbr]].
    rewrite Hl, Hr.
    destruct (and_exact l r _ _ Hbl Hbr) as [val [Hval Hb]].
    exists val. split; [exact Hval|]. rewrite Hb. f_equal.
    cbn [pointsOfCompare]. rewrite !covers_cons2.
    change (covers Compare v []) with false. rewrite !orb_false_r.
    unfold aboveLow, belowHigh. cbn [pvalue SIn SEx EIn EEx excl].
    destruct (probe_cases v Hv) as [->|Hdv].
    + rewrite (vcmp_dom_nil lo Hlo). reflexivity.
    + rewrite (vcmp_min_dom v Hdv), (vcmp_dom_max v Hdv).
      destruct (vcmp Compare lo v) as [[| |]|];
        destruct (vcmp Compare v hi) as [[| |]|]; reflexivity.
Qed.

Lemma isNull_exact (v : value) (n : bool) :
  probe dom v = true ->
  EvalBool ToBool (isNull v n)
  = Some (covers Compare v (buildFromIsNull n)).
Proof.
  intros Hv. unfold isNull. rewrite EvalBool_bool. f_equal.
  destruct (probe_cases v Hv) as [->|Hdv].
  - destruct n; reflexivity.
  - rewrite (dom_not_nil v Hdv).
    unfold buildFromIsNull. destruct n; rewrite covers_cons2;
      unfold aboveLow, belowHigh; cbn [pvalue SIn SEx EIn EEx excl];
      rewrite ?(vcmp_min_dom v Hdv), ?(vcmp_dom_max v Hdv),
        ?(vcmp_nil_dom v Hdv), ?(vcmp_dom_nil v Hdv); reflexivity.
Qed.

Lemma isTruth_exact (v : value) (n : bool) (t : Z) :
  probe dom v = true -> (t =? 0) || (t =? 1) = true ->
  exists val,
    isTruth ToBool v n t = Some val /\
    EvalBool ToBool val = Some (covers Compare v (buildFromIsTruth n t)).
Proof.
  intros Hv Ht. unfold isTruth.
  pose proof (zero_in_dom Htb) as Hz.
  assert (Ht' : t = 0 \/ t = 1).
  { apply orb_true_iff in Ht. destruct Ht as [Ht|Ht];
      apply Z.eqb_eq in Ht; auto. }
  destruct (probe_cases v Hv) as [->|Hdv].
  - cbn [isNil negb]. eexists. split; [reflexivity|].
    rewrite EvalBool_bool. f_equal.
    destruct Ht' as [-> | ->]; destruct n; reflexivity.
  - rewrite (dom_not_nil v Hdv), (toBool_dom Htb v Hdv). cbn [negb].
    eexists. split; [reflexivity|]. rewrite EvalBool_bool. f_equal.
    pose proof (cmp_total Htot v (Int64 0) Hdv Hz) as Htot0.
    pose proof (cmp_opp Htot v (Int64 0) Hdv Hz) as Hopp.
    unfold buildFromIsTruth.
    destruct Ht' as [-> | ->]; destruct n; cbn [Z.eqb negb];
      rewrite !covers_cons2; change (covers Compare v []) with false;
      unfold aboveLow, belowHigh; cbn [pvalue SIn SEx EIn EEx excl];
      rewrite ?(vcmp_min_dom v Hdv), ?(vcmp_dom_max v Hdv),
        ?(vcmp_nil_dom v Hdv), ?(vcmp_dom_nil v Hdv),
        ?(vcmp_dom _ _ Hz Hdv), ?(vcmp_dom _ _ Hdv Hz), ?Hopp;
      destruct (Compare v (Int64 0)) as [[| |]|]; try congruence;
      reflexivity.
Qed.

Lemma columnName_exact (v : value) :
  probe dom v = true ->
  EvalBool ToBool v = Some (covers Compare v buildFromColumnName).
Proof.
  intros Hv. destruct (probe_cases v Hv) as [->|Hdv]; [reflexivity|].
  rewrite (EvalBool_dom v Hdv). f_equal.
  unfold buildFromColumnName. rewrite (proj1 (truth_covers v Hdv)).
  reflexivity.
Qed.

(** *** IN lists of distinct literals *)

Lemma literals_values (l : list ExprNode) :
  forallb (isDomLiteral dom) l = true ->
  forallb (inListItem dom) l = true /\
  map (GetValue slotOf) l = map litValue l /\
  forallb dom (map litValue l) = true.
Proof.
  induction l as [|x l IH]; cbn [forallb map]; [auto|].
  intros H. apply andb_true_iff in H. destruct H as [Hx Hl].
  destruct (IH Hl) as [H1 [H2 H3]].
  destruct x; try discriminate Hx. cbn [isDomLiteral] in Hx.
  cbn [inListItem GetValue litValue]. rewrite Hx, H1, H2, H3, orb_true_r.
  auto.
Qed.

Lemma countEq_nonneg (v : value) (vals : list value) :
  0 <= countEq Compare v vals.
Proof.
  induction vals as [|c vals IH]; [cbn; lia|].
  rewrite countEq_cons. destruct (valueIs Compare v (SIn c)); cbn [ind]; lia.
Qed.

Lemma countEq_nil (vals : list value) :
  forallb dom vals = true -> countEq Compare Nil vals = 0.
Proof.
  induction vals as [|c vals IH]; [reflexivity|].
  cbn [forallb]. intros H. apply andb_true_iff in H. destruct H as [Hc Hl].
  rewrite countEq_cons, (IH Hl). unfold valueIs. cbn [pvalue SIn].
  rewrite (vcmp_dom_nil c Hc). reflexivity.
Qed.

(** On a list of domain values the IN loop of the evaluator finds an
    element equal to the column value exactly when there is one. *)
Lemma patternInFrom_exact (v : value) (vals : list value) :
  dom v = true -> forallb dom vals = true ->
  patternInFrom Compare v false false vals
  = Some (Bool (1 <=? countEq Compare v vals)).
Proof.
  intros Hv. induction vals as [|c vals IH]; [reflexivity|].
  cbn [forallb]. intros H. apply andb_true_iff in H. destruct H as [Hc Hl].
  cbn [patternInFrom]. rewrite (dom_not_nil c Hc), countEq_cons.
  unfold valueIs. cbn [pvalue SIn]. rewrite (vcmp_dom c v Hc Hv).
  rewrite (cmp_opp Htot v c Hv Hc).
  pose proof (cmp_total Htot v c Hv Hc) as Ht.
  pose proof (countEq_nonneg v vals) as H0.
  destruct (Compare v c) as [[| |]|]; cbn [option_map CompOpp ind negb];
    try congruence; try (rewrite (IH Hl); reflexivity).
  f_equal. f_equal. symmetry. apply Z.leb_le. lia.
Qed.

Lemma countEq_none (c v : value) (rest : list value) :
  dom c = true -> dom v = true -> forallb dom rest = true ->
  Compare c v = Some Eq ->
  forallb (fun d => match Compare c d with
                    | Some Eq => false
                    | _ => true
                    end) rest = true ->
  countEq Compare v rest = 0.
Proof.
  intros Hc Hv Hr Hcv. induction rest as [|d rest IH]; [reflexivity|].
  cbn [forallb] in *. apply andb_true_iff in Hr. destruct Hr as [Hd Hr].
  intros H. apply andb_true_iff in H. destruct H as [Hcd H].
  rewrite countEq_cons, (IH Hr H). unfold valueIs. cbn [pvalue SIn].
  rewrite (vcmp_dom d v Hd Hv).
  destruct (Compare d v) as [[| |]|] eqn:Hdv; try reflexivity.
  rewrite (cmp_eq Htot c v d Hc Hv Hd Hcv) in Hcd.
  rewrite (Compare_opp_some d v Eq Hd Hv Hdv) in Hcd. discriminate Hcd.
Qed.

Lemma countEq_distinct (v : value) (vals : list value) :
  dom v = true -> forallb dom vals = true ->
  distinctValues Compare vals = true ->
  countEq Compare v vals <= 1.
Proof.
  intros Hv. induction vals as [|c vals IH]; [cbn; lia|].
  cbn [forallb distinctValues]. intros H Hd.
  apply andb_true_iff in H. destruct H as [Hc Hl].
  apply andb_true_iff in Hd. destruct Hd as [Hcd Hd].
  rewrite countEq_cons. specialize (IH Hl Hd).
  unfold valueIs. cbn [pvalue SIn]. rewrite (vcmp_dom c v Hc Hv).
  destruct (Compare c v) as [[| |]|] eqn:Hcv; cbn [ind]; try lia.
  rewrite (countEq_none c v vals Hc Hv Hl Hcv Hcd). lia.
Qed.

(** An IN list of distinct non-NULL literals gives a list that counts
    exactly and covers the values the expression is true on, no more. *)
Lemma buildFromIn_exact (r : rangeBuilder) (l : list ExprNode) :
  forallb (isDomLiteral dom) l = true ->
  distinctValues Compare (map litValue l) = true ->
  exists pts,
    buildFromIn Compare slotOf r l = (pts, r) /\
    exactlyCounted Compare dom pts /\
    forall v, probe dom v = true ->
      exists val,
        patternIn Compare v false (map (GetValue slotOf) l) = Some val /\
        EvalBool ToBool val = Some (covers Compare v pts).
Proof.
  intros Hl Hd. destruct (literals_values l Hl) as [Hi [Hmap Hdom]].
  destruct (buildFromIn_counts r l Hi) as [pts [Hb [Hw Hc]]].
  rewrite Hmap in Hc.
  assert (Hcnt : forall v, probe dom v = true ->
            0 <= countEq Compare v (map litValue l) <= 1).
  { intros v Hv. split; [apply countEq_nonneg|].
    destruct (probe_cases v Hv) as [->|Hdv].
    - rewrite (countEq_nil _ Hdom). lia.
    - apply countEq_distinct; assumption. }
  exists pts. split; [exact Hb|]. split.
  - apply exactlyCounted_intro; [exact Hw|]. intros v Hv.
    destruct (Hc v Hv) as [H1 [H2 _]]. rewrite H1, H2.
    pose proof (Hcnt v Hv).
    destruct (Z.leb_spec 1 (countEq Compare v (map litValue l)));
      cbn [ind]; lia.
  - intros v Hv. destruct (Hc v Hv) as [_ [H2 _]]. rewrite H2, Hmap.
    unfold patternIn. destruct (probe_cases v Hv) as [->|Hdv].
    + cbn [isNil]. exists Nil. split; [reflexivity|].
      rewrite (countEq_nil _ Hdom). reflexivity.
    + rewrite (dom_not_nil v Hdv), (patternInFrom_exact v _ Hdv Hdom).
      eexists. split; [reflexivity|]. apply EvalBool_bool.
Qed.

(** *** The range builder on the exact fragment *)

Lemma exactRangeable_rangeable (e : ExprNode) :
  exactRangeable Compare dom e = true -> rangeable Compare dom e = true.
Proof.
  induction e; intros He; try exact He.
  - destruct op; try exact He; cbn [exactRangeable rangeable] in *;
      apply andb_true_iff in He; destruct He as [H1 H2];
      rewrite (IHe1 H1), (IHe2 H2); reflexivity.
  - cbn [exactRangeable] in He. destruct e; try exact He.
    destruct Not; [exact He|]. cbn [rangeable].
    apply andb_true_iff in He. destruct He as [Hl _].
    apply (literals_values List Hl).
  - cbn [exactRangeable rangeable] in *. auto.
Qed.

Lemma ind_and (a b : bool) : (2 <=? ind a + ind b) = a && b.
Proof. destruct a; destruct b; reflexivity. Qed.

Lemma ind_or (a b : bool) : (1 <=? ind a + ind b) = a || b.
Proof. destruct a; destruct b; reflexivity. Qed.

(** What merge makes of two lists that count exactly counts exactly, and
    covers the intersection or the union of what they cover. *)
Lemma merge_exact (r : rangeBuilder) (a b : list rangePoint) (u : bool) :
  exactlyCounted Compare dom a -> exactlyCounted Compare dom b ->
  exists out,
    merge Compare r a b u = (out, r) /\
    exactlyCounted Compare dom out /\
    forall v, probe dom v = true ->
      covers Compare v out
      = if u then covers Compare v a || covers Compare v b
        else covers Compare v a && covers Compare v b.
Proof.
  intros Ha Hb.
  destruct (merge_wellCounted r a b u (proj1 Ha) (proj1 Hb))
    as [out [Hm [Hw Hc]]].
  exists out. split; [exact Hm|]. split.
  - apply exactlyCounted_intro; [exact Hw|]. intros v Hv.
    destruct (Hc v Hv) as [H1 H2]. rewrite H1, H2. reflexivity.
  - intros v Hv. rewrite (proj1 (Hc v Hv)).
    rewrite (exactlyCounted_count a v Ha Hv),
      (exactlyCounted_count b v Hb Hv).
    destruct u; [apply ind_or | apply ind_and].
Qed.

(** On an expression of the exact fragment build returns a list that
    counts exactly, leaves the builder as it was, and the expression has
    a truth value on every column value: true on the values the list
    covers, false or NULL on the others. *)
Lemma build_exact (e : ExprNode) :
  exactRangeable Compare dom e = true ->
  forall r, exists pts,
    build Compare slotOf r e = Done (pts, r) /\
    exactlyCounted Compare dom pts /\
    forall v, probe dom v = true ->
      exists val,
        Eval Compare ToBool v e = Some val /\
        EvalBool ToBool val = Some (covers Compare v pts).
Proof.
  induction e; intros He r; try discriminate He.
  - (* the bare column *)
    exists buildFromColumnName. split; [reflexivity|]. split.
    + apply (isTruth_exactlyCounted false 1).
    + intros w Hw. exists w. split; [reflexivity|].
      apply columnName_exact. exact Hw.
  - (* binary operations *)
    destruct (isCompareOp op) eqn:Hop.
    + (* comparisons *)
      assert (He' : rangeable Compare dom (BinaryOperationExpr op e1 e2)
                    = true).
      { destruct op; try discriminate Hop; exact He. }
      rewrite (rangeable_compare op e1 e2 Hop) in He'.
      rewrite (build_compare r op e1 e2 Hop).
      destruct e1; try discriminate He'; destruct e2; try discriminate He'.
      * cbn [isValueExpr GetValue].
        eexists. split; [reflexivity|]. split.
        { apply pointsOfCompare_exact;
            [apply isCompareOp_flip; exact Hop | exact He']. }
        intros w Hw. cbn [Eval].
        apply (proj2 (compare_column_exact op v w Hop He' Hw)).
      * cbn [isValueExpr GetValue].
        eexists. split; [reflexivity|]. split.
        { apply pointsOfCompare_exact; assumption. }
        intros w Hw. cbn [Eval].
        apply (proj1 (compare_column_exact op v w Hop He' Hw)).
    + (* AND, OR *)
      destruct (opcode.Op_eq_dec op opcode.AndAnd) as [->|Hna];
        [|destruct (opcode.Op_eq_dec op opcode.OrOr) as [->|Hno]].
      * cbn [exactRangeable] in He. apply andb_true_iff in He.
        destruct He as [He1 He2].
        destruct (IHe1 He1 r) as [a [Ha [Hxa Hsa]]].
        destruct (IHe2 He2 r) as [b [Hb [Hxb Hsb]]].
        destruct (merge_exact r a b false Hxa Hxb) as [out [Hm [Hxo Hco]]].
        exists out. split.
        { cbn [build]. rewrite Ha. cbn [bind]. rewrite Hb. cbn [bind].
          unfold intersection. rewrite Hm. reflexivity. }
        split; [exact Hxo|].
        intros w Hw. cbn [Eval].
        destruct (Hsa w Hw) as [l [H1 Hl]].
        destruct (Hsb w Hw) as [r0 [H2 Hr]].
        rewrite H1, H2, (Hco w Hw). apply and_exact; assumption.
      * cbn [exactRangeable] in He. apply andb_true_iff in He.
        destruct He as [He1 He2].
        destruct (IHe1 He1 r) as [a [Ha [Hxa Hsa]]].
        destruct (IHe2 He2 r) as [b [Hb [Hxb Hsb]]].
        destruct (merge_exact r a b true Hxa Hxb) as [out [Hm [Hxo Hco]]].
        exists out. split.
        { cbn [build]. rewrite Ha. cbn [bind]. rewrite Hb. cbn [bind].
          unfold union. rewrite Hm. reflexivity. }
        split; [exact Hxo|].
        intros w Hw. cbn [Eval].
        destruct (Hsa w Hw) as [l [H1 Hl]].
        destruct (Hsb w Hw) as [r0 [H2 Hr]].
        rewrite H1, H2, (Hco w Hw). apply or_exact; assumption.
      * assert (He' : rangeable Compare dom (BinaryOperationExpr op e1 e2)
                      = true).
        { destruct op; try exact He; congruence. }
        rewrite (rangeable_other_op op e1 e2 Hop Hna Hno) in He'.
        discriminate He'.
  - (* IN *)
    cbn [exactRangeable] in He. destruct e; try discriminate He.
    destruct Not; [discriminate He|].
    apply andb_true_iff in He. destruct He as [Hl Hd].
    destruct (buildFromIn_exact r List Hl Hd) as [pts [Hb [Hx Hs]]].
    exists pts. split; [cbn [build]; rewrite Hb; reflexivity|].
    split; [exact Hx|].
    intros w Hw. cbn [Eval].
    rewrite (proj1 (inList_values List w (proj1 (literals_values List Hl)))).
    apply (Hs w Hw).
  - (* parentheses *)
    cbn [exactRangeable] in He. cbn [build Eval]. apply (IHe He r).
  - (* BETWEEN *)
    cbn [exactRangeable rangeable] in He.
    destruct e1; try discriminate He; destruct e2; try discriminate He;
      destruct e3; try discriminate He.
    apply andb_true_iff in He. destruct He as [He Hle].
    apply andb_true_iff in He. destruct He as [Hlo Hhi].
    eexists. split; [reflexivity|].
    unfold buildFromBetween. cbn [GetValue].
    split.
    + apply between_exactlyCounted; assumption.
    + intros w Hw. cbn [Eval].
      apply (between_exact w v v0 Not Hw Hlo Hhi).
  - (* IS NULL *)
    cbn [exactRangeable rangeable] in He. destruct e; try discriminate He.
    eexists. split; [reflexivity|]. split.
    + apply isNull_exactlyCounted.
    + intros w Hw. cbn [Eval]. eexists. split; [reflexivity|].
      apply isNull_exact. exact Hw.
  - (* IS TRUE, IS FALSE *)
    cbn [exactRangeable rangeable] in He. destruct e; try discriminate He.
    eexists. split; [reflexivity|]. split.
    + apply isTruth_exactlyCounted.
    + intros w Hw. cbn [Eval].
      apply (isTruth_exact w Not True Hw He).
Qed.

End RangeSoundness.

Lemma CompareStd_total : TotalOn CompareStd isInt64.
Proof.
  constructor.
  - intros a Ha. destruct a; try discriminate Ha. auto.
  - intros a b Ha Hb. destruct a; try discriminate Ha.
    destruct b; try discriminate Hb. discriminate.
  - intros a Ha. destruct a; try discriminate Ha. simpl.
    rewrite Z.compare_refl. reflexivity.
  - intros a b Ha Hb. destruct a; try discriminate Ha.
    destruct b; try discriminate Hb. simpl.
    rewrite (Z.compare_antisym i i0). reflexivity.
  - intros a b c Ha Hb Hc. destruct a; try discriminate Ha.
    destruct b; try discriminate Hb. destruct c; try discriminate Hc.
    simpl. intros H. injection H as H. apply Z.compare_eq in H.
    subst. reflexivity.
  - intros a b c Ha Hb Hc. destruct a; try discriminate Ha.
    destruct b; try discriminate Hb. destruct c; try discriminate Hc.
    simpl. intros H1 H2. injection H1 as H1. injection H2 as H2.
    f_equal. rewrite Z.compare_lt_iff in *. lia.
Qed.

Lemma ToBoolStd_agrees : ToBoolAgrees CompareStd isInt64 ToBoolStd.
Proof.
  constructor; try reflexivity.
  intros d Hd. destruct d; try discriminate Hd. simpl.
  destruct (Z.eqb_spec i 0) as [->|Hne]; [reflexivity|].
  destruct (i ?= 0) eqn:Hc; try reflexivity.
  apply Z.compare_eq in Hc. contradiction.
Qed.




(** * Further properties of the planner code *)

(** ** The sorter *)

(** X1: rangePointSorter.Less orders two points whose values differ in kind
    (NULL, MinNotNull, data, MaxVal) by the kind alone: it does not call
    the comparator and stores no error. *)
Theorem Less_orders_value_kinds
        (Compare : value -> value -> option comparison) (a b : rangePoint)
        (H : cls (pvalue a) < cls (pvalue b)) :
  Less Compare a b = (true, None) /\ Less Compare b a = (false, None).
Proof.
  destruct a as [va ea sa], b as [vb eb sb]; cbn [pvalue] in H.
  destruct va, vb; cbn [cls] in H; try lia; split; reflexivity.
Qed.

Lemma Less_orders_value_kinds_witness :
  Less CompareNone (SEx MinNotNullVal) (EIn (Str "a")) = (true, None) /\
  Less CompareNone (EIn (Str "a")) (SEx MinNotNullVal) = (false, None).
Proof.
  apply (Less_orders_value_kinds CompareNone (SEx MinNotNullVal)
           (EIn (Str "a"))).
  reflexivity.
Defined.

(** X2: rangePointSorter.equalValueLess never puts a point before itself, and
    it puts each of two points before the other exactly when one is an
    open start and the other a closed end. *)
Theorem equalValueLess_both_ways_iff (a b : rangePoint) :
  equalValueLess a a = false /\
  equalValueLess a b && equalValueLess b a
  = (isOpenStart a && isClosedEnd b) || (isClosedEnd a && isOpenStart b).
Proof.
  destruct a as [va [] []], b as [vb [] []]; split; reflexivity.
Qed.

(** *** Sorting moves points, it makes and drops none *)

Lemma insertPoint_perm (Compare : value -> value -> option comparison)
      (x : rangePoint) (rp : list rangePoint) :
  forall err, Permutation (fst (insertPoint Compare x rp err)) (x :: rp).
Proof.
  induction rp as [|y rest IH]; intros err; cbn [insertPoint].
  - apply Permutation_refl.
  - destruct (Less Compare x y) as [b e]. destruct b.
    + specialize (IH (setErr err e)).
      destruct (insertPoint Compare x rest (setErr err e)) as [rest' err'].
      cbn [fst] in *.
      apply perm_trans with (y :: x :: rest);
        [apply perm_skip; exact IH | apply perm_swap].
    + apply Permutation_refl.
Qed.

Lemma sortLoop_perm (Compare : value -> value -> option comparison)
      (todo : list rangePoint) :
  forall rp err,
    Permutation (fst (sortLoop Compare todo rp err)) (todo ++ rp).
Proof.
  induction todo as [|x todo IH]; intros rp err; cbn [sortLoop].
  - cbn [fst app]. apply Permutation_sym. apply Permutation_rev.
  - pose proof (insertPoint_perm Compare x rp err) as Hi.
    destruct (insertPoint Compare x rp err) as [rp' err']. cbn [fst] in Hi.
    apply perm_trans with (todo ++ rp'); [apply IH|].
    apply perm_trans with (todo ++ x :: rp);
      [apply Permutation_app_head; exact Hi|].
    apply Permutation_sym. apply Permutation_middle.
Qed.

Lemma sortPoints_perm (Compare : value -> value -> option comparison)
      (l : list rangePoint) :
  Permutation (fst (sortPoints Compare l)) l.
Proof.
  unfold sortPoints.
  pose proof (sortLoop_perm Compare l [] None) as H.
  rewrite app_nil_r in H. exact H.
Qed.

(** X3: The points buildFromIn returns are the two closed points of every
    element of the IN list, each as often as it was made, whatever the
    comparator answers (errors included). *)
Theorem buildFromIn_permutes_points
        (Compare : value -> value -> option comparison)
        (slotOf : ExprNode -> value) (r : rangeBuilder)
        (l : list ExprNode) :
  Permutation (fst (buildFromIn Compare slotOf r l))
              (flat_map (fun x => [SIn (GetValue slotOf x);
                                   EIn (GetValue slotOf x)]) l) /\
  List.length (fst (buildFromIn Compare slotOf r l))
  = (2 * List.length l)%nat.
Proof.
  assert (H : Permutation (fst (buildFromIn Compare slotOf r l))
                (flat_map (fun x => [SIn (GetValue slotOf x);
                                     EIn (GetValue slotOf x)]) l)).
  { unfold buildFromIn.
    pose proof (sortPoints_perm Compare
                  (flat_map (fun x => [SIn (GetValue slotOf x);
                                       EIn (GetValue slotOf x)]) l)) as H.
    destruct (sortPoints Compare _) as [pts serr]. cbn [fst] in H.
    destruct serr; exact H. }
  split; [exact H|].
  rewrite (Permutation_length H). clear H.
  induction l as [|x l IH]; [reflexivity|].
  cbn [flat_map List.length app]. rewrite IH. lia.
Qed.

(** ** Merge *)

Lemma sweep_incl (t : Z) (l : list rangePoint) :
  forall c, incl (sweep t c l) l.
Proof.
  induction l as [|x l IH]; intros c; cbn [sweep].
  - apply incl_refl.
  - destruct (start x).
    + destruct (c + 1 =? t).
      * apply incl_cons; [left; reflexivity|].
        apply incl_tl. apply IH.
      * apply incl_tl. apply IH.
    + destruct (c =? t).
      * apply incl_cons; [left; reflexivity|].
        apply incl_tl. apply IH.
      * apply incl_tl. apply IH.
Qed.

Lemma merge_cases (Compare : value -> value -> option comparison)
      (r : rangeBuilder) (a b : list rangePoint) (u : bool) :
  fst (merge Compare r a b u) = [] \/
  fst (merge Compare r a b u)
  = sweep (if u then 1 else 2) 0 (fst (sortPoints Compare (a ++ b))).
Proof.
  unfold merge. destruct (sortPoints Compare (a ++ b)) as [pts serr].
  destruct serr; [left | right]; reflexivity.
Qed.

Lemma altFrom_sweep0 (u : bool) (l : list rangePoint) :
  altFrom true (sweep (if u then 1 else 2) 0 l) = true.
Proof.
  destruct u; [apply (altFrom_sweep 1 l 0) | apply (altFrom_sweep 2 l 0)].
Qed.

(** X4: What merge returns, for a union or an intersection, with any
    comparator and any two lists: start and end points alternate, the
    first point is a start, and every point is a point of one of the two
    lists. *)
Theorem merge_output_alternates
        (Compare : value -> value -> option comparison)
        (r : rangeBuilder) (a b : list rangePoint) (u : bool) :
  altFrom true (fst (merge Compare r a b u)) = true /\
  incl (fst (merge Compare r a b u)) (a ++ b).
Proof.
  destruct (merge_cases Compare r a b u) as [-> | ->].
  - split; [reflexivity|]. intros x [].
  - split.
    + apply altFrom_sweep0.
    + intros x Hx. apply sweep_incl in Hx.
      apply (Permutation_in x (sortPoints_perm Compare (a ++ b)) Hx).
Qed.

(** *** Balanced lists *)

Lemma altFrom_delta (l : list rangePoint) :
  forall b, altFrom b l = true ->
    delta l = if Nat.even (List.length l) then 0
              else if b then 1 else -1.
Proof.
  induction l as [|p l IH]; intros b H; [reflexivity|].
  cbn [altFrom] in H. apply andb_true_iff in H. destruct H as [Hp Hl].
  apply eqb_prop in Hp.
  rewrite delta_cons, (IH _ Hl). unfold weight. rewrite Hp.
  change (List.length (p :: l)) with (S (List.length l)).
  rewrite Nat.even_succ, <- Nat.negb_even.
  destruct (Nat.even (List.length l)); destruct b; reflexivity.
Qed.

Lemma altFrom_balanced_even (l : list rangePoint) :
  altFrom true l = true -> delta l = 0 ->
  Nat.even (List.length l) = true.
Proof.
  intros Ha Hd. rewrite (altFrom_delta l true Ha) in Hd.
  destruct (Nat.even (List.length l)); [reflexivity | discriminate].
Qed.

Lemma sortPoints_delta (Compare : value -> value -> option comparison)
      (l : list rangePoint) :
  delta (fst (sortPoints Compare l)) = delta l.
Proof.
  unfold sortPoints, delta. rewrite sortLoop_sum. cbn [sumOf fold_right].
  lia.
Qed.

Lemma merge_balanced (Compare : value -> value -> option comparison)
      (r : rangeBuilder) (a b : list rangePoint) (u : bool) :
  delta a = 0 -> delta b = 0 ->
  delta (fst (merge Compare r a b u)) = 0 /\
  Nat.even (List.length (fst (merge Compare r a b u))) = true.
Proof.
  intros Ha Hb.
  assert (Hd : delta (fst (merge Compare r a b u)) = 0).
  { destruct (merge_cases Compare r a b u) as [-> | ->]; [reflexivity|].
    rewrite delta_sweep, sortPoints_delta, delta_app, Ha, Hb.
    destruct u; reflexivity. }
  split; [exact Hd|].
  apply altFrom_balanced_even; [|exact Hd].
  destruct (merge_cases Compare r a b u) as [-> | ->]; [reflexivity|].
  apply altFrom_sweep0.
Qed.

(** *** buildIndexRanges *)

Lemma buildIndexRanges_spec (pts : list rangePoint) :
  buildIndexRanges pts
  = if Nat.even (List.length pts)
    then Done (map rangeOfPair (pointPairs pts))
    else Panic "index out of range".
Proof.
  induction pts as [| x | x y l IH] using list_pair_ind; try reflexivity.
  cbn [buildIndexRanges]. rewrite IH.
  change (List.length (x :: y :: l)) with (S (S (List.length l))).
  cbn [Nat.even]. destruct (Nat.even (List.length l)); reflexivity.
Qed.

(** X5: buildIndexRanges returns exactly on the lists of even length, with
    one single-column range per pair of points, in order; on a list of
    odd length it panics (it reads past the end). *)
Theorem buildIndexRanges_even_or_panic (pts : list rangePoint) :
  buildIndexRanges pts
  = (if Nat.even (List.length pts)
     then Done (map rangeOfPair (pointPairs pts))
     else Panic "index out of range") /\
  (2 * List.length (pointPairs pts)
   = List.length pts - (if Nat.even (List.length pts) then 0 else 1))%nat.
Proof.
  split; [apply buildIndexRanges_spec|].
  induction pts as [| x | x y l IH] using list_pair_ind; try reflexivity.
  change (List.length (x :: y :: l)) with (S (S (List.length l))).
  cbn [pointPairs List.length Nat.even].
  destruct (Nat.even (List.length l)) eqn:He; try lia.
  destruct l; [discriminate He|]. cbn [List.length] in *. lia.
Qed.

(** X6: The index ranges buildIndexRanges makes of a list in which start and
    end points alternate keep everything of the list: the points can be
    read back from the ranges. *)
Theorem buildIndexRanges_round_trip (pts : list rangePoint)
        (rs : list IndexRange)
        (Halt : altFrom true pts = true)
        (Hrs : buildIndexRanges pts = Done rs) :
  flat_map pointsOfRange rs = pts.
Proof.
  rewrite buildIndexRanges_spec in Hrs.
  destruct (Nat.even (List.length pts)) eqn:He; [|discriminate Hrs].
  injection Hrs as <-. revert Halt He.
  induction pts as [| x | x y l IH] using list_pair_ind; intros Halt He.
  - reflexivity.
  - discriminate He.
  - change (List.length (x :: y :: l)) with (S (S (List.length l))) in He.
    cbn [Nat.even] in He. specialize (fun H => IH H He).
    cbn [altFrom negb] in Halt.
    apply andb_true_iff in Halt. destruct Halt as [Hx Halt].
    apply andb_true_iff in Halt. destruct Halt as [Hy Halt].
    apply eqb_prop in Hx. apply eqb_prop in Hy.
    cbn [pointPairs map flat_map]. rewrite (IH Halt).
    destruct x as [vx ex sx], y as [vy ey sy]. cbn in Hx, Hy. subst.
    reflexivity.
Qed.

Lemma buildIndexRanges_round_trip_witness :
  buildIndexRanges [SEx (Int64 1); EIn (Int64 5); SIn (Int64 7); EEx MaxVal]
  = Done [mkIndexRange [Int64 1] true [Int64 5] false;
          mkIndexRange [Int64 7] false [MaxVal] true] /\
  flat_map pointsOfRange
    [mkIndexRange [Int64 1] true [Int64 5] false;
     mkIndexRange [Int64 7] false [MaxVal] true]
  = [SEx (Int64 1); EIn (Int64 5); SIn (Int64 7); EEx MaxVal].
Proof.
  split; [reflexivity|].
  apply (buildIndexRanges_round_trip
           [SEx (Int64 1); EIn (Int64 5); SIn (Int64 7); EEx MaxVal]);
    reflexivity.
Defined.

(** ** From build to index ranges *)

Lemma buildFromIn_balanced (Compare : value -> value -> option comparison)
      (slotOf : ExprNode -> value) (r : rangeBuilder) (l : list ExprNode) :
  delta (fst (buildFromIn Compare slotOf r l)) = 0 /\
  Nat.even (List.length (fst (buildFromIn Compare slotOf r l))) = true.
Proof.
  split.
  - unfold buildFromIn.
    pose proof (sortPoints_delta Compare
                  (flat_map (fun x => [SIn (GetValue slotOf x);
                                       EIn (GetValue slotOf x)]) l)) as H.
    destruct (sortPoints Compare _) as [pts serr]. cbn [fst] in H.
    assert (H0 : delta (flat_map (fun x => [SIn (GetValue slotOf x);
                                            EIn (GetValue slotOf x)]) l)
                 = 0).
    { clear H. induction l as [|x l IH]; [reflexivity|].
      cbn [flat_map app]. rewrite !delta_cons, IH. reflexivity. }
    destruct serr; cbn [fst]; congruence.
  - pose proof (Permutation_length
                  (sortPoints_perm Compare
                     (flat_map (fun x => [SIn (GetValue slotOf x);
                                          EIn (GetValue slotOf x)]) l)))
      as H.
    unfold buildFromIn.
    destruct (sortPoints Compare _) as [pts serr]. cbn [fst] in H.
    assert (H0 : Nat.even
                   (List.length
                      (flat_map (fun x => [SIn (GetValue slotOf x);
                                           EIn (GetValue slotOf x)]) l))
                 = true).
    { clear H. induction l as [|x l IH]; [reflexivity|].
      cbn [flat_map app List.length Nat.even]. exact IH. }
    destruct serr; cbn [fst]; congruence.
Qed.

Lemma build_balanced (Compare : value -> value -> option comparison)
      (slotOf : ExprNode -> value) (e : ExprNode) :
  forall r pts r',
    build Compare slotOf r e = Done (pts, r') ->
    delta pts = 0 /\ Nat.even (List.length pts) = true.
Proof.
  induction e; intros r pts r' H; cbn [build] in H;
    try (injection H as <- _; split; reflexivity).
  - (* binary operations *)
    destruct op;
      try (destruct (isValueExpr e1); injection H as <- _;
           split; reflexivity).
    + destruct (build Compare slotOf r e1) as [[a r1]|] eqn:H1;
        [|discriminate H]. cbn [bind] in H.
      destruct (build Compare slotOf r1 e2) as [[b r2]|] eqn:H2;
        [|discriminate H]. cbn [bind] in H.
      injection H as H. unfold intersection in H.
      replace pts with (fst (merge Compare r2 a b false))
        by (rewrite H; reflexivity).
      apply merge_balanced;
        [apply (IHe1 _ _ _ H1) | apply (IHe2 _ _ _ H2)].
    + destruct (build Compare slotOf r e1) as [[a r1]|] eqn:H1;
        [|discriminate H]. cbn [bind] in H.
      destruct (build Compare slotOf r1 e2) as [[b r2]|] eqn:H2;
        [|discriminate H]. cbn [bind] in H.
      injection H as H. unfold union in H.
      replace pts with (fst (merge Compare r2 a b true))
        by (rewrite H; reflexivity).
      apply merge_balanced;
        [apply (IHe1 _ _ _ H1) | apply (IHe2 _ _ _ H2)].
  - (* IN *)
    destruct Not; [discriminate H|]. injection H as H.
    replace pts with (fst (buildFromIn Compare slotOf r List))
      by (rewrite H; reflexivity).
    apply buildFromIn_balanced.
  - (* parentheses *)
    apply (IHe _ _ _ H).
  - (* BETWEEN *)
    injection H as <- _. destruct Not; split; reflexivity.
  - (* IS NULL *)
    injection H as <- _. destruct Not; split; reflexivity.
  - (* IS TRUE, IS FALSE *)
    injection H as <- _. unfold buildFromIsTruth.
    destruct (negb (True =? 0)); destruct Not; split; reflexivity.
  - (* LIKE *)
    destruct Not; [discriminate H|]. unfold buildFromPatternLike in H.
    destruct (GetValue slotOf e2); try discriminate H.
    destruct (likePrefix (list_ascii_of_string s)) as [low ex].
    destruct low; cbn [bind] in H; injection H as <- _; split; reflexivity.
Qed.

(** X7: Whatever expression build is given, with whatever comparator: when
    it returns, buildIndexRanges returns on its result, with half as many
    ranges as the list has points.  The index-out-of-range panic of
    buildIndexRanges is out of reach of the lists build makes. *)
Theorem buildIndexRanges_of_build
        (Compare : value -> value -> option comparison)
        (slotOf : ExprNode -> value) (e : ExprNode)
        (r r' : rangeBuilder) (pts : list rangePoint)
        (H : build Compare slotOf r e = Done (pts, r')) :
  buildIndexRanges pts = Done (map rangeOfPair (pointPairs pts)) /\
  List.length pts = (2 * List.length (pointPairs pts))%nat.
Proof.
  destruct (build_balanced Compare slotOf e r pts r' H) as [_ He].
  rewrite buildIndexRanges_spec, He. split; [reflexivity|].
  clear H. revert He.
  induction pts as [| x | x y l IH] using list_pair_ind; intros He.
  - reflexivity.
  - discriminate He.
  - change (List.length (x :: y :: l)) with (S (S (List.length l))) in *.
    cbn [Nat.even] in He. cbn [pointPairs List.length].
    rewrite (IH He). lia.
Qed.

Lemma buildIndexRanges_of_build_witness :
  let e := BinaryOperationExpr opcode.AndAnd
             (BinaryOperationExpr opcode.NE colA (lit 3))
             (PatternInExpr colA [lit 5; lit 3; ValueExpr Nil] false) in
  build CompareStd noSlot newBuilder e
  = Done ([SIn (Int64 5); EIn (Int64 5)], newBuilder) /\
  buildIndexRanges [SIn (Int64 5); EIn (Int64 5)]
  = Done [mkIndexRange [Int64 5] false [Int64 5] false] /\
  List.length [SIn (Int64 5); EIn (Int64 5)] = 2%nat.
Proof.
  intros e. split; [reflexivity|].
  apply (buildIndexRanges_of_build CompareStd noSlot e newBuilder
           newBuilder [SIn (Int64 5); EIn (Int64 5)]).
  reflexivity.
Defined.

(** ** Union and intersection of disjoint interval lists *)

Section DisjointLists.

Variable Compare : value -> value -> option comparison.
Variable dom : value -> bool.
Hypothesis Htot : TotalOn Compare dom.

(** Past an end point that is not to the left of a column value, no
    point of a list of disjoint intervals is. *)
Lemma after_end (v : value) (l : list rangePoint) :
  probe dom v = true ->
  forall e0,
    okp dom e0 = true -> start e0 = false ->
    properPairs Compare dom l = true ->
    separatedPairs Compare l = true ->
    match l with
    | s :: _ => separated Compare e0 s = true
    | [] => True
    end ->
    before Compare v e0 = false ->
    forallb (fun q => negb (before Compare v q)) l = true.
Proof.
  intros Hv.
  induction l as [| x | s e l IH] using list_pair_ind;
    intros e0 Hoe0 He0 Hp Hs Hsep Hb.
  - reflexivity.
  - discriminate Hp.
  - destruct (properPairs_cons2 Compare dom s e l Hp)
      as [Hss [Hse [Hos [Hoe [Ho Hp']]]]].
    cbn [separatedPairs] in Hs. apply andb_true_iff in Hs.
    destruct Hs as [Hs1 Hs'].
    assert (Hbs : before Compare v s = false).
    { destruct (before Compare v s) eqn:E; [|reflexivity].
      rewrite (separated_before Compare dom Htot e0 s v Hoe0 Hos Hv He0
                 Hss Hsep E) in Hb. discriminate Hb. }
    assert (Hbe : before Compare v e = false).
    { destruct (before Compare v e) eqn:E; [|reflexivity].
      rewrite (proper_before Compare dom Htot s e v Hos Hoe Hv Hss Ho E)
        in Hbs. discriminate Hbs. }
    cbn [forallb]. rewrite Hbs, Hbe. cbn [negb andb].
    apply (IH e Hoe Hse Hp' Hs'); [|exact Hbe].
    destruct l; [exact I | exact Hs1].
Qed.

Lemma properPairs_altFrom (l : list rangePoint) :
  properPairs Compare dom l = true -> altFrom true l = true.
Proof.
  induction l as [| x | s e l IH] using list_pair_ind; intros Hp.
  - reflexivity.
  - discriminate Hp.
  - destruct (properPairs_cons2 Compare dom s e l Hp)
      as [Hss [Hse [_ [_ [_ Hp']]]]].
    cbn [altFrom negb]. rewrite Hss, Hse, (IH Hp'). reflexivity.
Qed.

(** In a list of disjoint intervals at most one interval is open at a
    column value, and the list covers the values at which one is. *)
Lemma disjointPairs_exact (l : list rangePoint) :
  disjointPairs Compare dom l = true -> exactlyCounted Compare dom l.
Proof.
  intros H. apply andb_true_iff in H. destruct H as [Hp Hs].
  apply exactlyCounted_intro;
    [apply (properPairs_wellCounted Compare dom Htot l Hp)|].
  intros v Hv. revert Hp Hs.
  induction l as [| x | s e l IH] using list_pair_ind; intros Hp Hs.
  - reflexivity.
  - discriminate Hp.
  - destruct (properPairs_cons2 Compare dom s e l Hp)
      as [Hss [Hse [Hos [Hoe [Ho Hp']]]]].
    cbn [separatedPairs] in Hs. apply andb_true_iff in Hs.
    destruct Hs as [Hs1 Hs'].
    assert (H1 : properPairs Compare dom [s; e] = true).
    { cbn [properPairs]. rewrite Hss, Hse, Hos, Hoe, Ho. reflexivity. }
    change (s :: e :: l) with ([s; e] ++ l) at 1.
    rewrite count_app, (pair_count Compare dom Htot s e v H1 Hv).
    rewrite covers_cons2.
    destruct (aboveLow Compare s v && belowHigh Compare e v) eqn:Hin.
    + apply andb_true_iff in Hin. destruct Hin as [_ Hbe].
      rewrite (belowHigh_end Compare dom Htot e v Hoe Hv Hse) in Hbe.
      apply negb_true_iff in Hbe.
      assert (Hall : forallb (fun q => negb (before Compare v q)) l = true).
      { apply (after_end v l Hv e Hoe Hse Hp' Hs'); [|exact Hbe].
        destruct l; [exact I | exact Hs1]. }
      rewrite (count_after Compare v l Hall). reflexivity.
    + rewrite (IH Hp' Hs'). cbn [orb ind]. lia.
Qed.

End DisjointLists.

(** X8: For two lists of disjoint intervals in increasing order and a
    comparator that orders the values totally: the intersection covers a
    column value exactly when both lists cover it, the union exactly when
    one of them does; neither stores an error in the builder. *)
Theorem merge_covers_both_or_either
        (Compare : value -> value -> option comparison)
        (dom : value -> bool) (Htot : TotalOn Compare dom)
        (r : rangeBuilder) (a b : list rangePoint) (v : value)
        (Ha : disjointPairs Compare dom a = true)
        (Hb : disjointPairs Compare dom b = true)
        (Hv : probe dom v = true) :
  snd (intersection Compare r a b) = r /\
  covers Compare v (fst (intersection Compare r a b))
  = covers Compare v a && covers Compare v b /\
  snd (union Compare r a b) = r /\
  covers Compare v (fst (union Compare r a b))
  = covers Compare v a || covers Compare v b.
Proof.
  pose proof (disjointPairs_exact Compare dom Htot a Ha) as Hxa.
  pose proof (disjointPairs_exact Compare dom Htot b Hb) as Hxb.
  unfold intersection, union.
  destruct (merge_exact Compare dom Htot r a b false Hxa Hxb)
    as [o1 [E1 [_ C1]]].
  destruct (merge_exact Compare dom Htot r a b true Hxa Hxb)
    as [o2 [E2 [_ C2]]].
  rewrite E1, E2. cbn [fst snd].
  rewrite (C1 v Hv), (C2 v Hv). auto.
Qed.

Lemma merge_covers_both_or_either_witness :
  let a := [SIn (Int64 1); EIn (Int64 5); SEx (Int64 5); EIn (Int64 8)] in
  let b := [SEx (Int64 3); EEx (Int64 5); SIn (Int64 9); EIn MaxVal] in
  fst (intersection CompareStd newBuilder a b)
  = [SEx (Int64 3); EEx (Int64 5); SEx (Int64 5); EIn (Int64 5)] /\
  snd (intersection CompareStd newBuilder a b) = newBuilder /\
  covers CompareStd (Int64 4) (fst (intersection CompareStd newBuilder a b))
  = covers CompareStd (Int64 4) a && covers CompareStd (Int64 4) b /\
  snd (union CompareStd newBuilder a b) = newBuilder /\
  covers CompareStd (Int64 4) (fst (union CompareStd newBuilder a b))
  = covers CompareStd (Int64 4) a || covers CompareStd (Int64 4) b.
Proof.
  intros a b. split; [reflexivity|].
  apply (merge_covers_both_or_either CompareStd isInt64 CompareStd_total
           newBuilder a b (Int64 4)); reflexivity.
Defined.

(** ** Index ranges of a multi-column index: the edges *)

(** X9: With no range for the next column (an empty point list),
    appendIndexRanges drops every point range and keeps the other ranges
    as they are. *)
Theorem appendIndexRanges_no_points (isPoint : IndexRange -> bool)
        (origin : list IndexRange) :
  appendIndexRanges isPoint origin []
  = Done (filter (fun o => negb (isPoint o)) origin).
Proof.
  induction origin as [|o origin IH]; [reflexivity|].
  cbn [appendIndexRanges filter]. rewrite IH.
  destruct (isPoint o); reflexivity.
Qed.

Lemma appendIndexRange_odd (origin : IndexRange) (pts : list rangePoint) :
  Nat.even (List.length pts) = false ->
  appendIndexRange origin pts = Panic "index out of range".
Proof.
  induction pts as [| x | x y l IH] using list_pair_ind; intros H.
  - discriminate H.
  - reflexivity.
  - change (List.length (x :: y :: l)) with (S (S (List.length l))) in H.
    cbn [Nat.even] in H. cbn [appendIndexRange]. rewrite (IH H).
    reflexivity.
Qed.

(** X10: On a point list of odd length appendIndexRanges panics (it reads
    past the end of the list) exactly when some range of [origin] is a
    point range; when none is, it returns [origin] unchanged. *)
Theorem appendIndexRanges_odd_points (isPoint : IndexRange -> bool)
        (origin : list IndexRange) (pts : list rangePoint)
        (Hodd : Nat.even (List.length pts) = false) :
  appendIndexRanges isPoint origin pts
  = if existsb isPoint origin then Panic "index out of range"
    else Done origin.
Proof.
  induction origin as [|o origin IH]; [reflexivity|].
  cbn [appendIndexRanges existsb]. rewrite IH.
  destruct (isPoint o); cbn [negb orb].
  - rewrite (appendIndexRange_odd o pts Hodd). reflexivity.
  - destruct (existsb isPoint origin); reflexivity.
Qed.

Lemma appendIndexRanges_odd_points_witness :
  appendIndexRanges IsPoint
    [mkIndexRange [Int64 1] true [MaxVal] false;
     mkIndexRange [Int64 0] false [Int64 0] false]
    [SIn (Int64 2)]
  = Panic "index out of range" /\
  appendIndexRanges IsPoint
    [mkIndexRange [Int64 1] true [MaxVal] false]
    [SIn (Int64 2)]
  = Done [mkIndexRange [Int64 1] true [MaxVal] false].
Proof.
  split.
  - apply (appendIndexRanges_odd_points IsPoint
             [mkIndexRange [Int64 1] true [MaxVal] false;
              mkIndexRange [Int64 0] false [Int64 0] false]
             [SIn (Int64 2)]).
    reflexivity.
  - reflexivity.
Defined.

(** ** The range of a LIKE pattern *)

Lemma N_of_ascii_lt (c : ascii) : (N_of_ascii c < 256)%N.
Proof. apply N_ascii_bounded. Qed.

Lemma incByte_zero (c : ascii) : isZeroByte (incByte c) = isFF c.
Proof.
  unfold isZeroByte, incByte, isFF.
  pose proof (N_of_ascii_lt c) as Hc.
  rewrite N_ascii_embedding by (apply N.mod_lt; discriminate).
  destruct (N.eqb_spec (N_of_ascii c) 255) as [E|E].
  - rewrite E. reflexivity.
  - apply N.eqb_neq. rewrite N.mod_small by lia. lia.
Qed.

Lemma incByte_next (c : ascii) :
  isFF c = false -> (N_of_ascii (incByte c) = N_of_ascii c + 1)%N.
Proof.
  unfold incByte, isFF. intros H. apply N.eqb_neq in H.
  pose proof (N_of_ascii_lt c) as Hc.
  rewrite N_ascii_embedding by (apply N.mod_lt; discriminate).
  apply N.mod_small. lia.
Qed.

(** The carry loop: the trailing 0xff bytes become 0 and the byte before
    them is incremented; there is no such byte exactly when every byte
    is 0xff. *)
Lemma incBytesRev_spec (rv : list ascii) :
  rv <> [] ->
  (forallb isFF rv = true /\ incBytesRev rv = None) \/
  (exists ffs c rest,
     rv = ffs ++ c :: rest /\ forallb isFF ffs = true /\ isFF c = false /\
     incBytesRev rv = Some (map incByte ffs ++ incByte c :: rest)).
Proof.
  induction rv as [|c rest IH]; intros Hne; [congruence|].
  cbn [incBytesRev forallb]. rewrite incByte_zero.
  destruct (isFF c) eqn:Hc; cbn [negb andb].
  - destruct rest as [|d rest'].
    + left. split; reflexivity.
    + destruct IH as [[Hall Hnone] | [ffs [c0 [rest0 [E [Hf [Hc0 Hs]]]]]]];
        [discriminate| |].
      * left. rewrite Hnone. split; [exact Hall | reflexivity].
      * right. exists (c :: ffs), c0, rest0. rewrite Hs, E.
        cbn [forallb map app]. rewrite Hc, Hf. auto.
  - right. exists [], c, rest. auto.
Qed.

Lemma compareBytes_app_head (p a b : list ascii) :
  compareBytes (p ++ a) (p ++ b) = compareBytes a b.
Proof.
  induction p as [|c p IH]; [reflexivity|].
  cbn [app compareBytes]. rewrite N.compare_refl. exact IH.
Qed.

Lemma compareBytes_app (l t : list ascii) :
  compareBytes l (l ++ t) = if isEmpty t then Eq else Lt.
Proof.
  rewrite <- (app_nil_r l) at 1. rewrite compareBytes_app_head.
  destruct t; reflexivity.
Qed.

Lemma compareBytes_next (c : ascii) (x y : list ascii) :
  isFF c = false -> compareBytes (c :: x) (incByte c :: y) = Lt.
Proof.
  intros H. cbn [compareBytes]. rewrite (incByte_next c H).
  replace (N_of_ascii c ?= N_of_ascii c + 1)%N with Lt; [reflexivity|].
  symmetry. apply N.compare_lt_iff. lia.
Qed.

(** The end value of the range of a literal prefix: MaxVal when the
    prefix is made of 0xff bytes, else a string of the same length that
    is above every string that starts with the prefix. *)
Lemma highValueOf_spec (low : list ascii) :
  low <> [] ->
  (forallb isFF low = true /\ highValueOf low = MaxVal) \/
  (forallb isFF low = false /\
   exists h, highValueOf low = Str (string_of_list_ascii h) /\
             List.length h = List.length low /\
             forall t, compareBytes (low ++ t) h = Lt).
Proof.
  intros Hne. unfold highValueOf.
  destruct low as [|c0 low0] eqn:Elow; [congruence|]. rewrite <- Elow.
  assert (Hrev : rev low <> []).
  { intros E. apply (f_equal (@rev ascii)) in E.
    rewrite rev_involutive in E. rewrite E in Elow. discriminate Elow. }
  assert (Hall : forall l, forallb isFF (rev l) = forallb isFF l).
  { intros l. induction l as [|x l IH]; [reflexivity|].
    cbn [rev forallb]. rewrite forallb_app, IH. cbn [forallb].
    rewrite andb_true_r. apply andb_comm. }
  destruct (incBytesRev_spec (rev low) Hrev)
    as [[Hff Hnone] | [ffs [c [rest [E [Hf [Hc Hs]]]]]]].
  - left. rewrite Hnone, <- (Hall low). auto.
  - right. rewrite Hs.
    assert (El : low = rev rest ++ c :: rev ffs).
    { rewrite <- (rev_involutive low), E, rev_app_distr. cbn [rev].
      rewrite <- app_assoc. reflexivity. }
    split.
    + rewrite El, forallb_app. cbn [forallb]. rewrite Hc.
      rewrite andb_false_r. reflexivity.
    + exists (rev (map incByte ffs ++ incByte c :: rest)).
      split; [reflexivity|]. split.
      * rewrite length_rev, <- (length_rev low), E, !length_app.
        cbn [List.length]. rewrite length_map. reflexivity.
      * intros t. rewrite rev_app_distr. cbn [rev].
        rewrite El, <- !app_assoc. cbn [app].
        rewrite compareBytes_app_head. apply compareBytes_next. exact Hc.
Qed.



(** X12: The end point of the range of a LIKE prefix is MaxVal exactly when
    every byte of the prefix is 0xff; otherwise it is a string as long as
    the prefix and above it in byte order. *)
Theorem like_end_point_MaxVal_iff (low : list ascii) (Hlow : low <> []) :
  (highValueOf low = MaxVal <-> forallb isFF low = true) /\
  (forallb isFF low = false ->
   exists h, highValueOf low = Str (string_of_list_ascii h) /\
             List.length h = List.length low /\
             compareBytes low h = Lt).
Proof.
  destruct (highValueOf_spec low Hlow) as [[Hff Hm] | [Hff [h [Hs [Hl Hh]]]]].
  - split; [tauto|]. rewrite Hff. discriminate.
  - split.
    + rewrite Hs, Hff. split; discriminate.
    + intros _. exists h. split; [exact Hs|]. split; [exact Hl|].
      rewrite <- (app_nil_r low). apply Hh.
Qed.

Lemma like_end_point_MaxVal_iff_witness :
  (highValueOf [ascii_of_nat 255; ascii_of_nat 255] = MaxVal <->
   forallb isFF [ascii_of_nat 255; ascii_of_nat 255] = true) /\
  highValueOf (list_ascii_of_string "az") = Str "a{".
Proof.
  split.
  - apply (like_end_point_MaxVal_iff [ascii_of_nat 255; ascii_of_nat 255]).
    discriminate.
  - reflexivity.
Defined.

(** ** The validator *)

Lemma withErr_withErr (v : validator) (e1 e2 : error) :
  withErr (withErr v e1) e2 = withErr v e2.
Proof. reflexivity. Qed.

Lemma checkAllOneColumn_spec (exprs : list ExprNode) :
  forall v, checkAllOneColumn v exprs
            = if existsb notOneColumn exprs then withErr v ErrOneColumn
              else v.
Proof.
  induction exprs as [|x exprs IH]; intros v; [reflexivity|].
  cbn [checkAllOneColumn existsb]. rewrite IH.
  destruct x; cbn [notOneColumn orb]; try reflexivity.
  - rewrite withErr_withErr. destruct (existsb notOneColumn exprs);
      reflexivity.
  - destruct (negb (Nat.eqb ResultFields 1)); cbn [orb]; [|reflexivity].
    rewrite withErr_withErr. destruct (existsb notOneColumn exprs);
      reflexivity.
Qed.

(** X13: validator.checkAllOneColumn stores ErrOneColumn (over whatever error
    was there) exactly when one of the operands is a row or a subquery
    whose result does not have exactly one field; otherwise it leaves the
    validator as it was. *)
Theorem checkAllOneColumn_rejects_rows (v : validator)
        (exprs : list ExprNode) :
  checkAllOneColumn v exprs
  = (if existsb notOneColumn exprs then withErr v ErrOneColumn else v) /\
  wildCardCount (checkAllOneColumn v exprs) = wildCardCount v.
Proof.
  rewrite checkAllOneColumn_spec.
  destruct (existsb notOneColumn exprs); split; reflexivity.
Qed.


Lemma checkSameColumns_cases (v : validator) (exprs : list ExprNode) :
  checkSameColumns v exprs = v \/
  checkSameColumns v exprs = withErr v ErrSameColumns.
Proof.
  destruct exprs as [|x l]; [left; reflexivity|].
  cbn [checkSameColumns]. destruct (forallb _ l); auto.
Qed.

Lemma checkAllOneColumn_cases (v : validator) (exprs : list ExprNode) :
  checkAllOneColumn v exprs = v \/
  checkAllOneColumn v exprs = withErr v ErrOneColumn.
Proof.
  rewrite checkAllOneColumn_spec. destruct (existsb _ exprs); auto.
Qed.

Lemma checkFieldListFrom_keeps_error (fields : list SelectField) :
  forall v hasWildCard,
    isSome (verr v) = true ->
    isSome (verr (checkFieldListFrom v hasWildCard fields)) = true.
Proof.
  destruct fields as [|f fields]; intros v h Hv; [exact Hv|].
  cbn [checkFieldListFrom].
  destruct (_ && h); [reflexivity|].
  assert (Hv' : isSome (verr match FieldExpr f with
                             | Some e => checkAllOneColumn v [e]
                             | None => v
                             end) = true).
  { destruct (FieldExpr f) as [e|]; [|exact Hv].
    destruct (checkAllOneColumn_cases v [e]) as [-> | ->];
      [exact Hv | reflexivity]. }
  rewrite Hv'. exact Hv'.
Qed.

(** X15: Once the validator holds an error, validator.Leave keeps an error
    there and reports not-ok, whatever node it leaves. *)
Theorem validator_Leave_keeps_error (v : validator) (n : Node)
        (H : isSome (verr v) = true) :
  isSome (verr (fst (validator_Leave v n))) = true /\
  snd (validator_Leave v n) = false.
Proof.
  assert (Hk : isSome (verr (fst (validator_Leave v n))) = true).
  { unfold validator_Leave. cbn [fst].
    destruct n as [e|s|j|l r|src|tn|fl|f| | | |e| | |]; try exact H.
    - destruct e; try exact H.
      + unfold checkBinaryOperation.
        destruct op;
          try (destruct (checkAllOneColumn_cases v [e1; e2]) as [-> | ->];
               [exact H | reflexivity]);
          destruct (checkSameColumns_cases v [e1; e2]) as [-> | ->];
          try exact H; reflexivity.
      + destruct (checkSameColumns_cases v (List ++ [e])) as [-> | ->];
          [exact H | reflexivity].
      + destruct (checkAllOneColumn_cases v [e1; e2; e3]) as [-> | ->];
          [exact H | reflexivity].
      + destruct (checkAllOneColumn_cases v [e]) as [-> | ->];
          [exact H | reflexivity].
      + destruct (checkAllOneColumn_cases v [e]) as [-> | ->];
          [exact H | reflexivity].
      + destruct (List.length Values <? 2)%nat; [reflexivity | exact H].
    - apply checkFieldListFrom_keeps_error. exact H.
    - destruct (checkAllOneColumn_cases v [e]) as [-> | ->];
        [exact H | reflexivity]. }
  split; [exact Hk|].
  unfold validator_Leave in *. cbn [fst snd] in *. rewrite Hk. reflexivity.
Qed.

Lemma validator_Leave_keeps_error_witness :
  isSome (verr (fst (validator_Leave (mkValidator (Some ErrRowColumns) 0)
                       (NodeExpr (lit 1))))) = true /\
  snd (validator_Leave (mkValidator (Some ErrRowColumns) 0)
         (NodeExpr (lit 1))) = false.
Proof.
  apply (validator_Leave_keeps_error (mkValidator (Some ErrRowColumns) 0)
           (NodeExpr (lit 1))).
  reflexivity.
Defined.

Lemma checkFieldListFrom_wildcards (fields : list SelectField) :
  forall v hasWildCard,
    verr v = None ->
    forallb (fun f => negb (fieldNotOneColumn f)) fields = true ->
    checkFieldListFrom v hasWildCard fields
    = if (2 <=? (if hasWildCard then 1 else 0)
                + List.length (filter isUnqualifiedWildCard fields))%nat
      then withErr v ErrMultiWildCard else v.
Proof.
  induction fields as [|f fields IH]; intros v h Hv Hok.
  - cbn [checkFieldListFrom filter List.length].
    destruct h; reflexivity.
  - cbn [forallb] in Hok. apply andb_true_iff in Hok.
    destruct Hok as [Hf Hok]. apply negb_true_iff in Hf.
    cbn [checkFieldListFrom filter].
    fold (isUnqualifiedWildCard f).
    assert (Hv' : match FieldExpr f with
                  | Some e => checkAllOneColumn v [e]
                  | None => v
                  end = v).
    { unfold fieldNotOneColumn in Hf.
      destruct (FieldExpr f) as [e|]; [|reflexivity].
      rewrite checkAllOneColumn_spec. cbn [existsb]. rewrite Hf.
      reflexivity. }
    rewrite Hv', Hv. cbn [isSome].
    destruct (isUnqualifiedWildCard f); destruct h; cbn [andb orb].
    + replace (2 <=? 1 + List.length (f :: filter isUnqualifiedWildCard
                                                  fields))%nat
        with true by (symmetry; apply Nat.leb_le; cbn; lia).
      reflexivity.
    + rewrite (IH v true Hv Hok). reflexivity.
    + rewrite (IH v true Hv Hok). reflexivity.
    + rewrite (IH v false Hv Hok). reflexivity.
Qed.

(** X16: On a field list whose expressions are one column each,
    validator.checkFieldList stores ErrMultiWildCard exactly when two or
    more fields are a wildcard without a table name; wildcards with a
    table name are not counted. *)
Theorem checkFieldList_counts_wildcards (v : validator)
        (fields : list SelectField)
        (Hv : verr v = None)
        (Hok : forallb (fun f => negb (fieldNotOneColumn f)) fields = true) :
  checkFieldList v fields
  = if (2 <=? List.length (filter isUnqualifiedWildCard fields))%nat
    then withErr v ErrMultiWildCard else v.
Proof.
  unfold checkFieldList.
  rewrite (checkFieldListFrom_wildcards fields v false Hv Hok).
  reflexivity.
Qed.

Lemma checkFieldList_counts_wildcards_witness :
  checkFieldList (mkValidator None 0)
    [mkSelectField (Some EmptyString) None;
     mkSelectField (Some "t"%string) None;
     mkSelectField None (Some colA)]
  = mkValidator None 0 /\
  checkFieldList (mkValidator None 0)
    [mkSelectField (Some EmptyString) None;
     mkSelectField None (Some colA);
     mkSelectField (Some EmptyString) None]
  = mkValidator (Some ErrMultiWildCard) 0.
Proof.
  split.
  - apply (checkFieldList_counts_wildcards (mkValidator None 0)
             [mkSelectField (Some EmptyString) None;
              mkSelectField (Some "t"%string) None;
              mkSelectField None (Some colA)]); reflexivity.
  - apply (checkFieldList_counts_wildcards (mkValidator None 0)
             [mkSelectField (Some EmptyString) None;
              mkSelectField None (Some colA);
              mkSelectField (Some EmptyString) None]); reflexivity.
Defined.

(** ** The support checker *)

(** X17: supportChecker.Enter never clears the flag: once the checker is
    unsupported, Enter leaves it so and asks to skip the children, and
    Leave reports not-ok, whatever the node. *)
Theorem supportChecker_flag_sticks (c : supportChecker) (n : Node)
        (H : unsupported c = true) :
  supportChecker_Enter c n = (c, true) /\
  supportChecker_Leave c n = (c, false).
Proof.
  destruct c as [u]. cbn [unsupported] in H. subst u.
  split; [|reflexivity].
  unfold supportChecker_Enter. cbn [unsupported].
  destruct n as [e|s|j|l r|src|tn|fl|f| | | |e| | |]; try reflexivity.
  - destruct e; reflexivity.
  - destruct (Distinct s); reflexivity.
  - destruct r; [reflexivity|]. destruct l as [[tn|]|]; try reflexivity.
    destruct (EqualFold (Schema tn) infoschema_Name); reflexivity.
Qed.

Lemma supportChecker_flag_sticks_witness :
  supportChecker_Enter (mkSupportChecker true) (NodeExpr (lit 1))
  = (mkSupportChecker true, true) /\
  supportChecker_Leave (mkSupportChecker true) (NodeExpr (lit 1))
  = (mkSupportChecker true, false).
Proof.
  apply (supportChecker_flag_sticks (mkSupportChecker true)
           (NodeExpr (lit 1))).
  reflexivity.
Defined.

(** *** The walk of the support checker over a statement *)

Lemma good_noChildren : good (@noChildren supportChecker).
Proof. intros st H. cbn. rewrite H. reflexivity. Qed.

Lemma good_andThen (f g : supportChecker -> supportChecker * bool) :
  good f -> good g -> good (andThen f g).
Proof.
  intros Hf Hg st H. unfold andThen. specialize (Hf st H).
  destruct (f st) as [st' ok]. cbn [fst snd] in *. destruct ok.
  - apply Hg. symmetry in Hf. apply negb_true_iff in Hf. exact Hf.
  - cbn [fst snd]. exact Hf.
Qed.

Lemma good_visitNode (n : Node)
      (children : supportChecker -> supportChecker * bool) :
  good children -> good (visitNode supportVisitor n children).
Proof.
  intros Hc st H. unfold visitNode. cbn [Enter Leave supportVisitor].
  destruct (supportChecker_Enter st n) as [st1 skip] eqn:E.
  unfold supportChecker_Enter in E. injection E as E1 E2. subst skip.
  destruct (unsupported st1) eqn:Hu.
  - rewrite <- E1 in *. cbn [unsupported] in Hu. rewrite Hu.
    reflexivity.
  - assert (Hs : match st1 with mkSupportChecker u => u end = false)
      by exact Hu.
    rewrite <- E1 in Hs. cbn in Hs. rewrite Hs.
    specialize (Hc st1 Hu).
    destruct (children st1) as [st2 ok]. cbn [fst snd] in *.
    destruct ok; cbn [fst snd]; [|exact Hc].
    unfold supportChecker_Leave. cbn [fst snd].
    symmetry in Hc. apply negb_true_iff in Hc. rewrite Hc. reflexivity.
Qed.

Lemma good_acceptAll (A : Type)
      (acc : A -> supportChecker -> supportChecker * bool) (l : list A) :
  Forall (fun x => good (acc x)) l -> good (acceptAll acc l).
Proof.
  induction 1 as [|x l Hx Hl IH]; intros st H.
  - cbn. rewrite H. reflexivity.
  - cbn [acceptAll]. specialize (Hx st H).
    destruct (acc x st) as [st' ok]. cbn [fst snd] in *. destruct ok.
    + apply IH. symmetry in Hx. apply negb_true_iff in Hx. exact Hx.
    + exact Hx.
Qed.

Lemma good_acceptOpt (A : Type)
      (acc : A -> supportChecker -> supportChecker * bool) (o : option A) :
  (forall x, good (acc x)) -> good (acceptOpt acc o).
Proof.
  intros Ha. destruct o; [apply Ha | apply good_noChildren].
Qed.

Lemma good_acceptExpr (e : ExprNode) : good (acceptExpr supportVisitor e).
Proof.
  induction e using ExprNode_list_ind; cbn [acceptExpr];
    apply good_visitNode;
    repeat first [ apply good_noChildren
                 | assumption
                 | apply good_andThen
                 | apply good_acceptAll ].
Qed.

Lemma good_acceptByItems (l : list ExprNode) :
  good (acceptAll (acceptByItem supportVisitor) l).
Proof.
  apply good_acceptAll. apply Forall_forall. intros x _.
  apply good_visitNode. apply good_acceptExpr.
Qed.

Lemma good_acceptResultSet (n : ResultSetNode) :
  good (acceptResultSet supportVisitor n).
Proof.
  induction n as [src | l r on IHl IHr] using ResultSetNode_opt_ind;
    cbn [acceptResultSet]; apply good_visitNode.
  - destruct src; apply good_visitNode; apply good_noChildren.
  - apply good_andThen; [exact IHl|]. apply good_andThen.
    + destruct r as [r'|]; [apply (IHr r' eq_refl) | apply good_noChildren].
    + apply good_acceptOpt. apply good_acceptExpr.
Qed.

Lemma rejects_first (f g : supportChecker -> supportChecker * bool) :
  good f -> rejects f -> rejects (andThen f g).
Proof.
  intros Hg Hf st H. unfold andThen. specialize (Hf st H).
  specialize (Hg st H).
  destruct (f st) as [st' ok]. cbn [fst snd] in *.
  rewrite Hf in Hg. cbn in Hg. subst ok. exact Hf.
Qed.

Lemma rejects_second (f g : supportChecker -> supportChecker * bool) :
  good f -> rejects g -> rejects (andThen f g).
Proof.
  intros Hf Hg st H. unfold andThen. specialize (Hf st H).
  destruct (f st) as [st' ok]. cbn [fst snd] in *. destruct ok.
  - apply Hg. symmetry in Hf. apply negb_true_iff in Hf. exact Hf.
  - symmetry in Hf. apply negb_false_iff in Hf. exact Hf.
Qed.

Lemma rejects_children (n : Node)
      (children : supportChecker -> supportChecker * bool) :
  good children -> rejects children ->
  rejects (visitNode supportVisitor n children).
Proof.
  intros Hg Hc st H. unfold visitNode. cbn [Enter Leave supportVisitor].
  destruct (supportChecker_Enter st n) as [st1 skip] eqn:E.
  unfold supportChecker_Enter in E. injection E as E1 E2. subst skip.
  destruct (unsupported st1) eqn:Hu.
  - assert (Hs : match st1 with mkSupportChecker u => u end = true)
      by exact Hu.
    rewrite <- E1 in Hs. cbn in Hs. rewrite Hs. exact Hu.
  - assert (Hs : match st1 with mkSupportChecker u => u end = false)
      by exact Hu.
    rewrite <- E1 in Hs. cbn in Hs. rewrite Hs.
    specialize (Hc st1 Hu). specialize (Hg st1 Hu).
    destruct (children st1) as [st2 ok]. cbn [fst snd] in *.
    rewrite Hc in Hg. cbn in Hg. subst ok. exact Hc.
Qed.

Lemma rejects_enter (n : Node)
      (children : supportChecker -> supportChecker * bool) :
  (forall st, snd (supportChecker_Enter st n) = true) ->
  rejects (visitNode supportVisitor n children).
Proof.
  intros He st H. unfold visitNode. cbn [Enter Leave supportVisitor].
  specialize (He st).
  destruct (supportChecker_Enter st n) as [st1 skip] eqn:E.
  cbn [snd] in He. subst skip.
  unfold supportChecker_Enter in E. injection E as E1 E2.
  cbn [supportChecker_Leave fst]. rewrite <- E1. cbn [unsupported].
  exact E2.
Qed.

Lemma rejects_opt (A : Type)
      (acc : A -> supportChecker -> supportChecker * bool) (o : option A) :
  (forall x, rejects (acc x)) -> o <> None -> rejects (acceptOpt acc o).
Proof.
  intros Ha Ho. destruct o as [x|]; [apply Ha | congruence].
Qed.

(** X18: What a statement the support checker accepts looks like: a SELECT
    without DISTINCT, without GROUP BY and without HAVING, whose FROM
    clause, when there is one, is a single table given by name and not in
    the schema INFORMATION_SCHEMA (in any letter case). *)
Theorem Supported_statement_shape (s : SelectStmt)
        (H : Supported (SelectStmtNode s) = true) :
  Distinct s = false /\
  GroupBy s = None /\
  Having s = None /\
  forall j, From s = Some j -> singleUserTable j = true.
Proof.
  unfold Supported in H. cbn [acceptStmt] in H.
  apply negb_true_iff in H.
  assert (Hnot : ~ rejects (acceptSelect supportVisitor s)).
  { intros Hr. rewrite (Hr (mkSupportChecker false) eq_refl) in H.
    discriminate H. }
  assert (Gfrom : good (acceptOpt
            (fun j => visitNode supportVisitor (NodeTableRefsClause j)
                        (acceptResultSet supportVisitor (joinNode j)))
            (From s))).
  { apply good_acceptOpt. intros j. apply good_visitNode.
    apply good_acceptResultSet. }
  assert (Gwhere : good (acceptOpt (acceptExpr supportVisitor) (Where s))).
  { apply good_acceptOpt. apply good_acceptExpr. }
  assert (Gfields : good (visitNode supportVisitor
                            (NodeFieldList (FieldList s))
                            (acceptAll (acceptSelectField supportVisitor)
                                       (FieldList s)))).
  { apply good_visitNode. apply good_acceptAll. apply Forall_forall.
    intros f _. apply good_visitNode. apply good_acceptOpt.
    apply good_acceptExpr. }
  assert (Ggroup : good (acceptOpt
            (fun items => visitNode supportVisitor NodeGroupByClause
                            (acceptAll (acceptByItem supportVisitor) items))
            (GroupBy s))).
  { apply good_acceptOpt. intros items. apply good_visitNode.
    apply good_acceptByItems. }
  repeat split.
  - destruct (Distinct s) eqn:Hd; [|reflexivity]. exfalso. apply Hnot.
    apply rejects_enter. intros st. cbn. rewrite Hd. reflexivity.
  - assert (Hcase : GroupBy s = None \/ GroupBy s <> None)
      by (destruct (GroupBy s); [right; discriminate | left; reflexivity]).
    destruct Hcase as [E|E]; [exact E|].
    exfalso. apply Hnot. unfold acceptSelect.
    apply rejects_children.
    { repeat first [ apply good_andThen | assumption
                   | apply good_acceptOpt; intros
                   | apply good_visitNode | apply good_acceptExpr
                   | apply good_acceptByItems | apply good_noChildren ]. }
    apply rejects_second; [exact Gfrom|].
    apply rejects_second; [exact Gwhere|].
    apply rejects_second; [exact Gfields|].
    apply rejects_first; [exact Ggroup|].
    apply rejects_opt; [|exact E].
    intros items. apply rejects_enter. reflexivity.
  - assert (Hcase : Having s = None \/ Having s <> None)
      by (destruct (Having s); [right; discriminate | left; reflexivity]).
    destruct Hcase as [E|E]; [exact E|].
    exfalso. apply Hnot. unfold acceptSelect.
    apply rejects_children.
    { repeat first [ apply good_andThen | assumption
                   | apply good_acceptOpt; intros
                   | apply good_visitNode | apply good_acceptExpr
                   | apply good_acceptByItems | apply good_noChildren ]. }
    apply rejects_second; [exact Gfrom|].
    apply rejects_second; [exact Gwhere|].
    apply rejects_second; [exact Gfields|].
    apply rejects_second; [exact Ggroup|].
    apply rejects_first.
    { apply good_acceptOpt. intros e. apply good_visitNode.
      apply good_acceptExpr. }
    apply rejects_opt; [|exact E].
    intros e. apply rejects_enter. reflexivity.
  - intros j Hj. destruct (singleUserTable j) eqn:Hs; [reflexivity|].
    exfalso. apply Hnot. unfold acceptSelect.
    apply rejects_children.
    { repeat first [ apply good_andThen | assumption
                   | apply good_acceptOpt; intros
                   | apply good_visitNode | apply good_acceptExpr
                   | apply good_acceptByItems | apply good_noChildren ]. }
    apply rejects_first; [exact Gfrom|].
    rewrite Hj. cbn [acceptOpt].
    apply rejects_children; [apply good_acceptResultSet|].
    unfold joinNode. cbn [acceptResultSet].
    apply rejects_enter. intros st. unfold singleUserTable in Hs.
    cbn [supportChecker_Enter snd].
    destruct (JoinRight j); [reflexivity|].
    destruct (JoinLeft j) as [[tn|]|]; try reflexivity.
    apply negb_false_iff in Hs. rewrite Hs. reflexivity.
Qed.

Lemma Supported_statement_shape_witness :
  Supported (selectFromT None) = true /\
  forall j, From (mkSelectStmt false
       (Some (mkJoin (TableSource (SrcTableName (mkTableName "test" "t")))
                     None None))
       None [mkSelectField None (Some colA)] None None None None false)
            = Some j ->
            singleUserTable j = true.
Proof.
  split; [reflexivity|].
  apply (Supported_statement_shape
           (mkSelectStmt false
              (Some (mkJoin
                       (TableSource (SrcTableName (mkTableName "test" "t")))
                       None None))
              None [mkSelectField None (Some colA)] None None None None
              false)).
  reflexivity.
Defined.

(** ** Alternatives at the other leaves *)

Lemma Alternatives_spec (refine : Plan -> Plan) (p : Plan) :
  Alternatives refine p
  = match leaf p with
    | TableScan T f =>
        Done (map (fun idx =>
                     reparent refine p (IndexScan idx T [fullIndexRange] f))
                  (Indices T))
    | IndexScan _ _ _ _ => Panic "unknown plan"
    | _ => Done []
    end.
Proof.
  induction p; cbn [Alternatives leaf]; try reflexivity;
    try (rewrite IHp; destruct (leaf p); cbn [bind map];
         rewrite ?map_map; reflexivity).
  unfold tableScanAlternatives. rewrite map_map. reflexivity.
Qed.

Lemma leaf_cases (p : Plan) :
  leaf p = NilPlan \/
  (exists T f, leaf p = TableScan T f) \/
  (exists i T r f, leaf p = IndexScan i T r f).
Proof.
  induction p; cbn [leaf]; try assumption.
  - left. reflexivity.
  - right. left. eauto.
  - right. right. eauto.
Qed.

(** X19: On a chain of plans that does not end in a TableScan, Alternatives
    returns no plan when the chain ends in the nil plan (a SELECT without
    FROM), and ends the process (log.Fatalf) when it ends in an
    IndexScan. *)
Theorem Alternatives_without_table_scan (refine : Plan -> Plan) (p : Plan)
        (H : forall T f, leaf p <> TableScan T f) :
  Alternatives refine p
  = if isNilPlan (leaf p) then Done [] else Panic "unknown plan".
Proof.
  rewrite Alternatives_spec.
  destruct (leaf_cases p) as [E | [[T [f E]] | [i [T [r [f E]]]]]];
    rewrite E; try reflexivity.
  exfalso. apply (H T f E).
Qed.

Lemma Alternatives_without_table_scan_witness :
  Alternatives (fun q => q)
    (Limit (SelectFields NilPlan ["a"%string]) 0 10) = Done [] /\
  Alternatives (fun q => q)
    (Filter (IndexScan (mkIndexInfo "a" ["a"%string]) tableT
                       [fullIndexRange] ["a"%string]) [])
  = Panic "unknown plan".
Proof.
  split.
  - apply (Alternatives_without_table_scan (fun q => q)
             (Limit (SelectFields NilPlan ["a"%string]) 0 10)).
    intros T f. discriminate.
  - apply (Alternatives_without_table_scan (fun q => q)
             (Filter (IndexScan (mkIndexInfo "a" ["a"%string]) tableT
                                [fullIndexRange] ["a"%string]) [])).
    intros T f. discriminate.
Defined.

(** X20: No plan that Alternatives returns can be handed to Alternatives
    again: with a refiner that leaves the leaf's index alone, every
    alternative ends in an IndexScan, on which Alternatives ends the
    process. *)
Theorem Alternatives_fatal_on_alternatives
        (refine : Plan -> Plan) (p alt : Plan) (alts : list Plan)
        (Href : forall q, leafIndex (refine q) = leafIndex q)
        (Halts : Alternatives refine p = Done alts)
        (Hin : In alt alts) :
  Alternatives refine alt = Panic "unknown plan".
Proof.
  rewrite Alternatives_spec in Halts.
  destruct (leaf_cases p) as [E | [[T [f E]] | [i [T [r [f E]]]]]];
    rewrite E in Halts; try discriminate Halts.
  - injection Halts as <-. destruct Hin.
  - injection Halts as <-. apply in_map_iff in Hin.
    destruct Hin as [idx [<- _]].
    pose proof (leafIndex_reparent refine Href p
                  (IndexScan idx T [fullIndexRange] f)) as Hl.
    rewrite Alternatives_spec. unfold leafIndex in Hl. cbn [leaf] in Hl.
    destruct (leaf (reparent refine p _)); try discriminate Hl.
    reflexivity.
Qed.

Lemma Alternatives_fatal_on_alternatives_witness :
  let p := SelectFields (TableScan tableT ["a"%string]) ["a"%string] in
  let alt := SelectFields (IndexScan (mkIndexInfo "b" ["b"%string]) tableT
                                     [fullIndexRange] ["a"%string])
                          ["a"%string] in
  In alt (alternativesOf p) /\
  Alternatives (fun q => q) alt = Panic "unknown plan".
Proof.
  intros p alt. split; [right; left; reflexivity|].
  apply (Alternatives_fatal_on_alternatives (fun q => q) p alt
           (alternativesOf p)).
  - reflexivity.
  - reflexivity.
  - right. left. reflexivity.
Defined.

(** ** Optimize: ties *)

Section OptimizeEdges.

Variables InfoSchema Context cost : Type.
Variable bindInfo : StmtNode -> InfoSchema -> Context
                    -> StmtNode * option error.
Variable computeType : StmtNode -> StmtNode * option error.
Variable rewriteStatic : Context -> StmtNode -> StmtNode * option error.
Variable buildPlan : StmtNode -> Plan.
Variable alternatives : Plan -> list Plan.
Variable refine : Context -> Plan -> Plan.
Variable EstimateCost : Plan -> cost.
Variable costLt : cost -> cost -> bool.
Variable ctx : Context.

Lemma pickBest_no_cheaper (alts : list Plan) (best : cost * Plan) :
  (forall alt, In alt alts ->
     costLt (EstimateCost (refine ctx alt)) (fst best) = false) ->
  fold_left (pickBest refine EstimateCost costLt ctx) alts best = best.
Proof.
  induction alts as [|a alts IH]; intros H; [reflexivity|].
  cbn [fold_left]. unfold pickBest at 2.
  rewrite (H a (or_introl eq_refl)). apply IH.
  intros alt Hin. apply H. right. exact Hin.
Qed.

(** X21: Ties go to the plan built first: when no refined alternative is
    strictly cheaper than the refined original plan, Optimize returns the
    refined original plan, equal costs included. *)
Theorem Optimize_keeps_plan_on_ties
        (infos : InfoSchema) (node node1 node2 node3 : StmtNode)
        (Hvalidate : validate node = None)
        (Hbind : bindInfo node infos ctx = (node1, None))
        (Htype : computeType node1 = (node2, None))
        (Hrewrite : rewriteStatic ctx node2 = (node3, None))
        (Hties : forall alt, In alt (alternatives (buildPlan node3)) ->
           costLt (EstimateCost (refine ctx alt))
                  (EstimateCost (refine ctx (buildPlan node3))) = false) :
  Optimize bindInfo computeType rewriteStatic buildPlan alternatives
           refine EstimateCost costLt infos ctx node
  = (refine ctx (buildPlan node3), None).
Proof.
  unfold Optimize. rewrite Hvalidate, Hbind, Htype, Hrewrite.
  cbv zeta. rewrite pickBest_no_cheaper; [reflexivity|].
  exact Hties.
Qed.

End OptimizeEdges.

Lemma Optimize_keeps_plan_on_ties_witness :
  Optimize bindInfoByCatalog idPass (fun _ => idPass) planOfT
           alternativesOf (fun _ q => q) flatCost Z.ltb
           catalogT tt (selectFromT None)
  = (planOfT (selectFromT None), None).
Proof.
  apply (Optimize_keeps_plan_on_ties Catalog unit Z bindInfoByCatalog
           idPass (fun _ => idPass) planOfT alternativesOf
           (fun _ q => q) flatCost Z.ltb tt catalogT
           (selectFromT None) (selectFromT None) (selectFromT None)
           (selectFromT None)); try reflexivity.
Defined.

(** ** IN and NOT IN in the evaluator *)

Lemma patternInFrom_not (Compare : value -> value -> option comparison)
      (lhs : value) (vals : list value) :
  forall hasNull,
    patternInFrom Compare lhs true hasNull vals
    = option_map negValue (patternInFrom Compare lhs false hasNull vals).
Proof.
  induction vals as [|c vals IH]; intros h; cbn [patternInFrom].
  - destruct h; reflexivity.
  - destruct (isNil c); [apply IH|].
    destruct (Compare lhs c) as [[| |]|]; try reflexivity; apply IH.
Qed.

(** X22: Evaluator.patternIn with the Not flag gives the SQL negation of what
    it gives without: true for false, false for true, NULL for NULL, and
    an error for an error. *)
Theorem patternIn_not_negates
        (Compare : value -> value -> option comparison)
        (lhs : value) (vals : list value) :
  patternIn Compare lhs true vals
  = option_map negValue (patternIn Compare lhs false vals).
Proof.
  unfold patternIn. destruct (isNil lhs); [reflexivity|].
  apply patternInFrom_not.
Qed.

Lemma patternInFrom_three_valued
      (Compare : value -> value -> option comparison)
      (lhs : value) (vals : list value) :
  (forall c, In c vals -> isNil c = false -> Compare lhs c <> None) ->
  forall hasNull,
    patternInFrom Compare lhs false hasNull vals
    = Some (if existsb (fun c => negb (isNil c) && isEq (Compare lhs c))
                       vals
            then Bool true
            else if hasNull || existsb isNil vals then Nil
                 else Bool false).
Proof.
  induction vals as [|c vals IH]; intros Hc h; cbn [patternInFrom existsb].
  - rewrite orb_false_r. destruct h; reflexivity.
  - assert (Hc' : forall d, In d vals -> isNil d = false ->
                            Compare lhs d <> None).
    { intros d Hd. apply Hc. right. exact Hd. }
    destruct (isNil c) eqn:Hn; cbn [negb andb orb].
    + rewrite (IH Hc' true). rewrite orb_true_r. reflexivity.
    + pose proof (Hc c (or_introl eq_refl) Hn) as Hcmp.
      destruct (Compare lhs c) as [[| |]|]; cbn [isEq orb];
        try congruence; try reflexivity; apply (IH Hc' h).
Qed.

(** X23: The three values of IN: for a left operand that is not NULL and a
    list on which the comparator reports no error, Evaluator.patternIn
    gives true when some element that is not NULL compares equal to the
    operand; otherwise NULL when the list holds a NULL; otherwise
    false. *)
Theorem patternIn_three_valued
        (Compare : value -> value -> option comparison)
        (lhs : value) (vals : list value)
        (Hl : isNil lhs = false)
        (Hc : forall c, In c vals -> isNil c = false ->
                        Compare lhs c <> None) :
  patternIn Compare lhs false vals
  = Some (if existsb (fun c => negb (isNil c) && isEq (Compare lhs c)) vals
          then Bool true
          else if existsb isNil vals then Nil else Bool false).
Proof.
  unfold patternIn. rewrite Hl.
  apply (patternInFrom_three_valued Compare lhs vals Hc false).
Qed.

Lemma patternIn_three_valued_witness :
  patternIn CompareStd (Int64 1) false [Nil; Int64 2; Int64 3] = Some Nil /\
  patternIn CompareStd (Int64 2) false [Nil; Int64 2; Int64 3]
  = Some (Bool true) /\
  patternIn CompareStd (Int64 1) false [Int64 2; Int64 3]
  = Some (Bool false).
Proof.
  split; [|split; reflexivity].
  apply (patternIn_three_valued CompareStd (Int64 1) [Nil; Int64 2; Int64 3]).
  - reflexivity.
  - intros c [<- | [<- | [<- | []]]]; discriminate.
Defined.

(** ** CASE in the evaluator *)

(** X24: The first WHEN clause whose condition compares equal to the target
    decides a CASE: the clauses after it are not compared, whatever the
    comparator would say of them. *)
Theorem caseExpr_first_match
        (Compare : value -> value -> option comparison)
        (Value : option value) (earlier later : list (value * value))
        (w result : value) (ElseClause : option value) (slot : value)
        (Htarget : isNil (match Value with
                          | Some v => v
                          | None => Bool true
                          end) = false)
        (Hbefore : forallb
                     (fun val =>
                        match Compare (match Value with
                                       | Some v => v
                                       | None => Bool true
                                       end) (fst val) with
                        | Some Lt | Some Gt => true
                        | _ => false
                        end) earlier = true)
        (Hw : Compare (match Value with
                       | Some v => v
                       | None => Bool true
                       end) w = Some Eq) :
  caseExpr Compare Value (earlier ++ (w, result) :: later) ElseClause slot
  = Some result.
Proof.
  unfold caseExpr. rewrite Htarget. cbn [negb].
  set (target := match Value with Some v => v | None => Bool true end) in *.
  assert (H : caseWhen Compare target (earlier ++ (w, result) :: later)
              = Some (Some result)).
  { induction earlier as [|val earlier IH].
    - cbn [app caseWhen fst snd]. rewrite Hw. reflexivity.
    - cbn [forallb] in Hbefore. apply andb_true_iff in Hbefore.
      destruct Hbefore as [Hv Hb].
      cbn [app caseWhen].
      destruct (Compare target (fst val)) as [[| |]|];
        try discriminate Hv; apply (IH Hb). }
  rewrite H. reflexivity.
Qed.

Lemma caseExpr_first_match_witness :
  caseExpr CompareStd (Some (Int64 2))
    [(Int64 1, Str "one"); (Int64 2, Str "two"); (Str "x", Str "three");
     (Int64 2, Str "four")]
    None Nil
  = Some (Str "two").
Proof.
  apply (caseExpr_first_match CompareStd (Some (Int64 2))
           [(Int64 1, Str "one")]
           [(Str "x", Str "three"); (Int64 2, Str "four")]
           (Int64 2) (Str "two") None Nil); reflexivity.
Defined.

(** X25: A CASE whose target is NULL, or none of whose WHEN conditions
    compares equal to the target, takes the value of ELSE; without an
    ELSE clause the node keeps the value it had. *)
Theorem caseExpr_falls_to_else
        (Compare : value -> value -> option comparison)
        (Value : option value) (WhenClauses : list (value * value))
        (ElseClause : option value) (slot : value)
        (H : isNil (match Value with
                    | Some v => v
                    | None => Bool true
                    end) = true \/
             forallb
               (fun val =>
                  match Compare (match Value with
                                 | Some v => v
                                 | None => Bool true
                                 end) (fst val) with
                  | Some Lt | Some Gt => true
                  | _ => false
                  end) WhenClauses = true) :
  caseExpr Compare Value WhenClauses ElseClause slot
  = Some (match ElseClause with
          | Some e => e
          | None => slot
          end).
Proof.
  unfold caseExpr.
  set (target := match Value with Some v => v | None => Bool true end) in *.
  destruct (isNil target) eqn:Hn; cbn [negb].
  - destruct ElseClause; reflexivity.
  - destruct H as [H|H]; [discriminate H|].
    assert (Hw : caseWhen Compare target WhenClauses = Some None).
    { induction WhenClauses as [|val l IH]; [reflexivity|].
      cbn [forallb] in H. apply andb_true_iff in H. destruct H as [Hv Hl].
      cbn [caseWhen].
      destruct (Compare target (fst val)) as [[| |]|];
        try discriminate Hv; apply (IH Hl). }
    rewrite Hw. destruct ElseClause; reflexivity.
Qed.

Lemma caseExpr_falls_to_else_witness :
  caseExpr CompareNone (Some Nil) [(Int64 1, Str "one")]
           (Some (Str "other")) Nil
  = Some (Str "other") /\
  caseExpr CompareStd (Some (Int64 5)) [(Int64 1, Str "one")] None
           (Str "kept")
  = Some (Str "kept").
Proof.
  split.
  - apply (caseExpr_falls_to_else CompareNone (Some Nil)
             [(Int64 1, Str "one")] (Some (Str "other")) Nil).
    left. reflexivity.
  - apply (caseExpr_falls_to_else CompareStd (Some (Int64 5))
             [(Int64 1, Str "one")] None (Str "kept")).
    right. reflexivity.
Defined.

(** ** SUBSTRING in the evaluator *)

Lemma wrapInt_small (z : Z) :
  - 2 ^ 63 <= z < 2 ^ 63 -> wrapInt z = z.
Proof.
  intros H. unfold wrapInt. rewrite Z.mod_small; lia.
Qed.

Lemma firstn_skipn_all (A : Type) (n k : nat) (l : list A) :
  (List.length l <= n + k)%nat -> firstn n (skipn k l) = skipn k l.
Proof.
  intros H. apply firstn_all2. rewrite length_skipn. lia.
Qed.

(** X26: Evaluator.funcSubstring in the range where its integer arithmetic
    does not wrap: the result is the part of the string that starts at
    [substringStart] and is at most [Len] bytes long, to the end of the
    string without a length or with the length -1.  Positions 0 and 1,
    positions past the end and negative positions that reach the start of
    the string or beyond all give the empty string. *)
Theorem funcSubstring_result (str : list ascii) (pos : Z) (Len : option Z)
        (Hstr : Z.of_nat (List.length str) < 2 ^ 62)
        (Hpos : - 2 ^ 62 <= pos <= 2 ^ 62)
        (HLen : match Len with
                | Some l => -1 <= l < 2 ^ 62
                | None => True
                end) :
  funcSubstring str pos Len
  = Done (firstn (match Len with
                  | Some l => if l =? -1 then List.length str
                              else Z.to_nat l
                  | None => List.length str
                  end)
                 (skipn (Z.to_nat (substringStart
                                     (Z.of_nat (List.length str)) pos))
                        str)).
Proof.
  unfold funcSubstring, substringStart.
  set (len := Z.of_nat (List.length str)) in *.
  set (length := match Len with Some p => p | None => -1 end).
  assert (HL : -1 <= length < 2 ^ 62).
  { unfold length. destruct Len; [exact HLen|]. split; [lia | reflexivity]. }
  assert (HLn : match Len with
                | Some l => if l =? -1 then List.length str else Z.to_nat l
                | None => List.length str
                end
                = if length =? -1 then List.length str
                  else Z.to_nat length).
  { unfold length. destruct Len; reflexivity. }
  rewrite HLn. clear HLn HLen. clearbody length.
  assert (Hlen0 : 0 <= len) by (unfold len; lia).
  assert (H62 : 2 ^ 63 = 2 * 2 ^ 62) by reflexivity.
  assert (H62' : 0 < 2 ^ 62) by reflexivity.
  assert (Hp1 : (if pos <? 0 then wrapInt (len + pos)
                 else wrapInt (pos - 1))
                = if pos <? 0 then len + pos else pos - 1).
  { destruct (Z.ltb_spec pos 0); apply wrapInt_small; lia. }
  rewrite Hp1. clear Hp1.
  set (pos1 := if pos <? 0 then len + pos else pos - 1).
  set (pos2 := if (len <? pos1) || (pos1 <=? 0) then len else pos1).
  assert (Hp2 : pos2 = (if (2 <=? pos) && (pos <=? len) then pos - 1
                        else if (pos <? 0) && (0 <? len + pos)
                             then len + pos else len)).
  { unfold pos2, pos1.
    destruct (Z.ltb_spec pos 0); destruct (Z.leb_spec 2 pos);
      destruct (Z.leb_spec pos len); cbn [andb];
      repeat match goal with
             | |- context [?a <? ?b] => destruct (Z.ltb_spec a b)
             | |- context [?a <=? ?b] => destruct (Z.leb_spec a b)
             end; cbn [andb orb]; lia. }
  rewrite <- Hp2.
  assert (Hr2 : 0 <= pos2 <= len).
  { unfold pos2.
    destruct (Z.ltb_spec len pos1); destruct (Z.leb_spec pos1 0);
      cbn [orb]; lia. }
  clearbody pos2. clear pos1 Hp2.
  assert (Hlen : List.length str = Z.to_nat len) by (unfold len; lia).
  unfold goSlice. fold len.
  destruct (Z.eqb_spec length (-1)) as [El|El]; cbn [negb].
  - destruct (Z.ltb_spec len len); [lia|].
    replace ((0 <=? pos2) && (pos2 <=? len) && (len <=? len)) with true
      by (symmetry; rewrite !andb_true_iff, !Z.leb_le; lia).
    f_equal. rewrite !firstn_skipn_all; [reflexivity | lia | lia].
  - rewrite wrapInt_small by lia.
    destruct (Z.ltb_spec len (pos2 + length)).
    + replace ((0 <=? pos2) && (pos2 <=? len) && (len <=? len)) with true
        by (symmetry; rewrite !andb_true_iff, !Z.leb_le; lia).
      f_equal. rewrite !firstn_skipn_all; [reflexivity | lia | lia].
    + replace ((0 <=? pos2) && (pos2 <=? pos2 + length)
               && (pos2 + length <=? len)) with true
        by (symmetry; rewrite !andb_true_iff, !Z.leb_le; lia).
      f_equal. f_equal. lia.
Qed.

Lemma funcSubstring_result_witness :
  funcSubstring (list_ascii_of_string "Sakila") (-5) (Some 3)
  = Done (list_ascii_of_string "aki") /\
  funcSubstring (list_ascii_of_string "Sakila") 2 None
  = Done (list_ascii_of_string "akila") /\
  funcSubstring (list_ascii_of_string "Sakila") 1 None = Done [].
Proof.
  split; [|split].
  - apply (funcSubstring_result (list_ascii_of_string "Sakila") (-5)
             (Some 3)); cbn; lia.
  - reflexivity.
  - apply (funcSubstring_result (list_ascii_of_string "Sakila") 1 None);
      cbn; try lia; exact I.
Defined.

(** X27: With a length below -1 Evaluator.funcSubstring panics: the end of
    the slice falls before its start. *)
Theorem funcSubstring_negative_length_panics
        (str : list ascii) (pos l : Z)
        (Hstr : Z.of_nat (List.length str) < 2 ^ 62)
        (Hpos : - 2 ^ 62 <= pos <= 2 ^ 62)
        (Hl : - 2 ^ 62 <= l < -1) :
  funcSubstring str pos (Some l) = Panic "slice bounds out of range".
Proof.
  unfold funcSubstring.
  set (len := Z.of_nat (List.length str)) in *.
  assert (Hlen0 : 0 <= len) by (unfold len; lia).
  assert (H62 : 2 ^ 63 = 2 * 2 ^ 62) by reflexivity.
  assert (H62' : 0 < 2 ^ 62) by reflexivity.
  assert (Hp1 : (if pos <? 0 then wrapInt (len + pos)
                 else wrapInt (pos - 1))
                = if pos <? 0 then len + pos else pos - 1).
  { destruct (Z.ltb_spec pos 0); apply wrapInt_small; lia. }
  rewrite Hp1. clear Hp1.
  set (pos1 := if pos <? 0 then len + pos else pos - 1).
  set (pos2 := if (len <? pos1) || (pos1 <=? 0) then len else pos1).
  assert (Hr2 : 0 <= pos2 <= len).
  { unfold pos2.
    destruct (Z.ltb_spec len pos1); destruct (Z.leb_spec pos1 0);
      cbn [orb]; lia. }
  destruct (Z.eqb_spec l (-1)) as [El|El]; [lia|]. cbn [negb].
  rewrite wrapInt_small by lia.
  destruct (Z.ltb_spec len (pos2 + l)); [lia|].
  unfold goSlice.
  replace (pos2 <=? pos2 + l) with false
    by (symmetry; apply Z.leb_gt; lia).
  rewrite andb_false_r. reflexivity.
Qed.

Lemma funcSubstring_negative_length_panics_witness :
  funcSubstring (list_ascii_of_string "Sakila") 2 (Some (-2))
  = Panic "slice bounds out of range".
Proof.
  apply (funcSubstring_negative_length_panics
           (list_ascii_of_string "Sakila") 2 (-2)); cbn; lia.
Defined.

(** ** trimLeft and trimRight *)

Lemma HasPrefix_true (s p : list ascii) :
  HasPrefix s p = true -> s = p ++ skipn (List.length p) s.
Proof.
  revert s. induction p as [|c p IH]; intros s H; [reflexivity|].
  destruct s as [|d s]; [discriminate H|].
  cbn [HasPrefix] in H. apply andb_true_iff in H. destruct H as [Hc Hp].
  apply Ascii.eqb_eq in Hc. subst d.
  cbn [List.length skipn app]. rewrite <- (IH s Hp). reflexivity.
Qed.

Lemma HasPrefix_app (p t : list ascii) : HasPrefix (p ++ t) p = true.
Proof.
  induction p as [|c p IH]; [reflexivity|].
  cbn [app HasPrefix]. rewrite Ascii.eqb_refl. exact IH.
Qed.

Lemma TrimPrefix_cases (s p : list ascii) :
  (HasPrefix s p = true /\ s = p ++ TrimPrefix s p) \/
  (HasPrefix s p = false /\ TrimPrefix s p = s).
Proof.
  unfold TrimPrefix. destruct (HasPrefix s p) eqn:H.
  - left. split; [reflexivity|]. apply HasPrefix_true. exact H.
  - right. auto.
Qed.

Lemma trimLeftLoop_spec (remstr : list ascii) (fuel : nat) :
  forall str,
    (List.length str < fuel)%nat ->
    exists k res,
      trimLeftLoop fuel str remstr = Some res /\
      str = copies k remstr ++ res /\
      (remstr <> [] -> HasPrefix res remstr = false) /\
      (remstr = [] -> res = str).
Proof.
  induction fuel as [|fuel IH]; intros str Hf; [lia|].
  cbn [trimLeftLoop].
  destruct (TrimPrefix_cases str remstr) as [[Hp Hs] | [Hp Hs]].
  - destruct (Nat.eqb_spec (List.length (TrimPrefix str remstr))
                           (List.length str)) as [E|E].
    + assert (Hr : remstr = []).
      { apply (f_equal (@List.length ascii)) in Hs.
        rewrite length_app in Hs. destruct remstr; [reflexivity|].
        cbn [List.length] in Hs. lia. }
      exists 0%nat, (TrimPrefix str remstr). subst remstr.
      cbn [app] in Hs. rewrite <- Hs.
      split; [reflexivity|]. split; [reflexivity|].
      split; [congruence | reflexivity].
    + assert (Hlt : (List.length (TrimPrefix str remstr) < fuel)%nat).
      { apply (f_equal (@List.length ascii)) in Hs.
        rewrite length_app in Hs. lia. }
      destruct (IH _ Hlt) as [k [res [Hl [Hc [Hn He]]]]].
      exists (S k), res. split; [exact Hl|]. split.
      * cbn [copies]. rewrite <- app_assoc, <- Hc. exact Hs.
      * split; [exact Hn|]. intros Hr. exfalso. apply E.
        subst remstr. cbn [app] in Hs. rewrite <- Hs. reflexivity.
  - rewrite Hs, Nat.eqb_refl. exists 0%nat, str.
    split; [reflexivity|]. split; [reflexivity|].
    split; [intros _; exact Hp | reflexivity].
Qed.

(** X28: trimLeft returns (its loop ends): it strips whole copies of
    [remstr] from the front of the string, as many as there are, so that
    what it returns does not start with [remstr]; with an empty [remstr]
    it returns the string as it is. *)
Theorem trimLeft_strips_copies (str remstr : list ascii) :
  exists k res,
    trimLeft str remstr = Some res /\
    str = copies k remstr ++ res /\
    (remstr <> [] -> HasPrefix res remstr = false) /\
    (remstr = [] -> res = str).
Proof.
  unfold trimLeft. apply trimLeftLoop_spec. lia.
Qed.

Lemma TrimSuffix_rev (s p : list ascii) :
  TrimSuffix s p = rev (TrimPrefix (rev s) (rev p)).
Proof.
  unfold TrimSuffix, TrimPrefix, HasSuffix.
  destruct (HasPrefix (rev s) (rev p)).
  - rewrite length_rev, skipn_rev, rev_involutive. reflexivity.
  - rewrite rev_involutive. reflexivity.
Qed.

Lemma trimRightLoop_rev (remstr : list ascii) (fuel : nat) :
  forall str,
    trimRightLoop fuel str remstr
    = option_map (@rev ascii) (trimLeftLoop fuel (rev str) (rev remstr)).
Proof.
  induction fuel as [|fuel IH]; intros str; [reflexivity|].
  cbn [trimRightLoop trimLeftLoop].
  rewrite TrimSuffix_rev, !length_rev.
  destruct (Nat.eqb _ (List.length str)); [reflexivity|].
  rewrite IH, rev_involutive. reflexivity.
Qed.

Lemma copies_snoc (k : nat) (s : list ascii) :
  copies k s ++ s = s ++ copies k s.
Proof.
  induction k as [|k IH]; cbn [copies app].
  - rewrite app_nil_r. reflexivity.
  - rewrite <- app_assoc, IH. reflexivity.
Qed.

Lemma rev_copies (k : nat) (s : list ascii) :
  rev (copies k s) = copies k (rev s).
Proof.
  induction k as [|k IH]; [reflexivity|].
  cbn [copies]. rewrite rev_app_distr, IH. apply copies_snoc.
Qed.

(** X29: trimRight is trimLeft read backwards: it returns, having stripped
    whole copies of [remstr] from the end of the string, and what it
    returns does not end with [remstr]. *)
Theorem trimRight_mirrors_trimLeft (str remstr : list ascii) :
  trimRight str remstr
  = option_map (@rev ascii) (trimLeft (rev str) (rev remstr)) /\
  exists k res,
    trimRight str remstr = Some res /\
    str = res ++ copies k remstr /\
    (remstr <> [] -> HasSuffix res remstr = false).
Proof.
  assert (Hm : trimRight str remstr
               = option_map (@rev ascii)
                            (trimLeft (rev str) (rev remstr))).
  { unfold trimRight, trimLeft. rewrite length_rev.
    apply trimRightLoop_rev. }
  split; [exact Hm|].
  destruct (trimLeftLoop_spec (rev remstr) (S (List.length (rev str)))
              (rev str) (Nat.lt_succ_diag_r _))
    as [k [res [Hl [Hc [Hn _]]]]].
  exists k, (rev res). split.
  - rewrite Hm. unfold trimLeft. rewrite Hl. reflexivity.
  - split.
    + rewrite <- (rev_involutive str), Hc, rev_app_distr, rev_copies,
        rev_involutive. reflexivity.
    + intros Hr. unfold HasSuffix. rewrite rev_involutive. apply Hn.
      intros E. apply Hr. rewrite <- (rev_involutive remstr), E.
      reflexivity.
Qed.

(** ** The builder's error *)

Lemma merge_keeps_error (Compare : value -> value -> option comparison)
      (r : rangeBuilder) (a b : list rangePoint) (u : bool) :
  rerr r <> None -> rerr (snd (merge Compare r a b u)) <> None.
Proof.
  intros H. unfold merge.
  destruct (sortPoints Compare (a ++ b)) as [pts [e|]]; cbn [snd rerr];
    [discriminate | exact H].
Qed.

Lemma buildFromIn_keeps_error
      (Compare : value -> value -> option comparison)
      (slotOf : ExprNode -> value) (r : rangeBuilder) (l : list ExprNode) :
  rerr r <> None -> rerr (snd (buildFromIn Compare slotOf r l)) <> None.
Proof.
  intros H. unfold buildFromIn.
  destruct (sortPoints Compare _) as [pts [e|]]; cbn [snd rerr];
    [discriminate | exact H].
Qed.

(** X30: build never clears the error of the range builder: when the builder
    holds an error before build runs, it holds one after, whatever the
    expression and the comparator. *)
Theorem build_keeps_error
        (Compare : value -> value -> option comparison)
        (slotOf : ExprNode -> value) (e : ExprNode)
        (r r' : rangeBuilder) (pts : list rangePoint)
        (Hb : build Compare slotOf r e = Done (pts, r'))
        (Herr : rerr r <> None) :
  rerr r' <> None.
Proof.
  revert r r' pts Hb Herr.
  induction e; intros r r' pts Hb Herr; cbn [build] in Hb;
    try (injection Hb as _ <-; exact Herr).
  - destruct op;
      try (destruct (isValueExpr e1); injection Hb as _ <-; exact Herr).
    + destruct (build Compare slotOf r e1) as [[a r1]|] eqn:H1;
        [|discriminate Hb]. cbn [bind] in Hb.
      destruct (build Compare slotOf r1 e2) as [[b r2]|] eqn:H2;
        [|discriminate Hb]. cbn [bind] in Hb.
      injection Hb as Hb. unfold intersection in Hb.
      replace r' with (snd (merge Compare r2 a b false))
        by (rewrite Hb; reflexivity).
      apply merge_keeps_error.
      apply (IHe2 _ _ _ H2). apply (IHe1 _ _ _ H1). exact Herr.
    + destruct (build Compare slotOf r e1) as [[a r1]|] eqn:H1;
        [|discriminate Hb]. cbn [bind] in Hb.
      destruct (build Compare slotOf r1 e2) as [[b r2]|] eqn:H2;
        [|discriminate Hb]. cbn [bind] in Hb.
      injection Hb as Hb. unfold union in Hb.
      replace r' with (snd (merge Compare r2 a b true))
        by (rewrite Hb; reflexivity).
      apply merge_keeps_error.
      apply (IHe2 _ _ _ H2). apply (IHe1 _ _ _ H1). exact Herr.
  - destruct Not; [discriminate Hb|]. injection Hb as Hb.
    replace r' with (snd (buildFromIn Compare slotOf r List))
      by (rewrite Hb; reflexivity).
    apply buildFromIn_keeps_error. exact Herr.
  - apply (IHe _ _ _ Hb Herr).
  - destruct Not; [discriminate Hb|].
    destruct (buildFromPatternLike slotOf e2); [|discriminate Hb].
    cbn [bind] in Hb. injection Hb as _ <-. exact Herr.
Qed.

Lemma build_keeps_error_witness :
  build CompareStd noSlot (mkBuilder (Some ErrCompare))
        (BinaryOperationExpr opcode.OrOr
           (BinaryOperationExpr opcode.LT colA (lit 1))
           (PatternInExpr colA [lit 5] false))
  = Done ([SIn MinNotNullVal; EEx (Int64 1); SIn (Int64 5); EIn (Int64 5)],
          mkBuilder (Some ErrCompare)) /\
  rerr (mkBuilder (Some ErrCompare)) <> None.
Proof.
  split; [reflexivity|].
  apply (build_keeps_error CompareStd noSlot
           (BinaryOperationExpr opcode.OrOr
              (BinaryOperationExpr opcode.LT colA (lit 1))
              (PatternInExpr colA [lit 5] false))
           (mkBuilder (Some ErrCompare)) (mkBuilder (Some ErrCompare))
           [SIn MinNotNullVal; EEx (Int64 1); SIn (Int64 5);
            EIn (Int64 5)]).
  - reflexivity.
  - discriminate.
Defined.
